(** * verilog2pwl: the VCD token interpreter and the PWL emitter

    A shallow embedding of [dataflow/types.py], [dataflow/helper.py] and
    [dataflow/parser.py].

    - Python objects that are mutated and shared ([Register], [Module]) live
      in an object store and are named by their index; dictionaries whose
      iteration order matters are insertion-ordered association lists.
    - Methods that mutate are written in a state-and-exception monad; pure
      methods return a [result].
    - Python floats are represented by the exact rationals they stand for:
      the binary64 rounding error of [*] and [/] is not represented.
      [float(str)] and [str(float)] are given on the plain decimal literals
      with at most 15 significant digits and magnitude in [1e-4, 1e16),
      where binary64 round-trips the digits; everything else a Python float
      can be is reported as [Unmodelled].
    - [sympy] is an external library: it is an interface ([Sympy]) whose
      instance every definition of the emitter takes as a parameter. *)

From stdpp Require Import base list strings gmap pretty.
From Stdlib Require Import Ascii QArith ZArith Lia.

Open Scope string_scope.
Open Scope list_scope.
Open Scope Z_scope.

(** ** Exceptions and results *)

Inductive exn : Type :=
  | ValueError (msg : string)
  | TypeError (msg : string)
  | AttributeError (msg : string)
  | IndexError (msg : string)
  | AssertionError (msg : string)
  | VCDParseError (msg : string)
  | SympifyError
  | SystemExit (code : Z)
  | Unmodelled.            (* the run leaves what is modelled here: a float outside the
                              fragment, or a reference to no object of the store *)

Inductive result (A : Type) : Type :=
  | Ok (a : A)
  | Raise (e : exn).
Arguments Ok {A} a.
Arguments Raise {A} e.

Definition rbind {A B} (r : result A) (k : A -> result B) : result B :=
  match r with
  | Ok a => k a
  | Raise e => Raise e
  end.

Notation "'let?' x := r 'in' k" := (rbind r (fun x => k))
  (at level 10, x pattern, r at level 100, k at level 200).

Fixpoint rmap {A B} (f : A -> result B) (l : list A) : result (list B) :=
  match l with
  | [] => Ok []
  | a :: l' => let? b := f a in let? bs := rmap f l' in Ok (b :: bs)
  end.

Fixpoint rfold {A B} (f : A -> B -> result A) (a : A) (l : list B) : result A :=
  match l with
  | [] => Ok a
  | b :: l' => let? a' := f a b in rfold f a' l'
  end.

(** State that survives an exception: a method that raises leaves the object
    as it was at the raise. *)
Definition M (S A : Type) : Type := S -> result A * S.

Definition ret {S A} (a : A) : M S A := fun s => (Ok a, s).
Definition raise {S A} (e : exn) : M S A := fun s => (Raise e, s).
Definition bind {S A B} (m : M S A) (k : A -> M S B) : M S B :=
  fun s => match m s with
           | (Ok a, s') => k a s'
           | (Raise e, s') => (Raise e, s')
           end.
Definition get {S} : M S S := fun s => (Ok s, s).
Definition put {S} (s : S) : M S unit := fun _ => (Ok tt, s).
Definition modify {S} (f : S -> S) : M S unit := fun s => (Ok tt, f s).
Definition lift {S A} (r : result A) : M S A := fun s => (r, s).

Notation "'let!' x := m 'in' k" := (bind m (fun x => k))
  (at level 10, x pattern, m at level 100, k at level 200).
Notation "'do!' m 'in' k" := (bind m (fun _ => k))
  (at level 10, m at level 100, k at level 200).

(** ** Insertion-ordered dictionaries

    [d[k] = v] replaces the value of a key that is present, in place, and
    appends a new key at the end; iteration follows the list. *)

Section Dict.
Context {K V : Type} `{EqDecision K}.

Fixpoint dict_get (d : list (K * V)) (k : K) : option V :=
  match d with
  | [] => None
  | (k', v) :: d' => if decide (k' = k) then Some v else dict_get d' k
  end.

Fixpoint dict_set (d : list (K * V)) (k : K) (v : V) : list (K * V) :=
  match d with
  | [] => [(k, v)]
  | (k', v') :: d' =>
      if decide (k' = k) then (k', v) :: d' else (k', v') :: dict_set d' k v
  end.

Definition dict_contains (d : list (K * V)) (k : K) : bool :=
  match dict_get d k with Some _ => true | None => false end.
End Dict.

(** ** Python strings *)

Definition nl : string := String (ascii_of_nat 10) "".

(** [str.isspace] on ASCII: tab, LF, VT, FF, CR, FS, GS, RS, US, space. *)
Definition isspace (c : ascii) : bool :=
  let n := nat_of_ascii c in
  ((9 <=? n)%nat && (n <=? 13)%nat) || ((28 <=? n)%nat && (n <=? 32)%nat).

Fixpoint split_go (s cur : string) : list string :=
  match s with
  | "" => match cur with "" => [] | _ => [cur] end
  | String c s' =>
      if isspace c
      then match cur with "" => split_go s' "" | _ => cur :: split_go s' "" end
      else split_go s' (cur +:+ String c "")
  end.

(** [s.split()] *)
Definition str_split (s : string) : list string := split_go s "".

(** [sep.join(l)] *)
Definition str_join (sep : string) (l : list string) : string := String.concat sep l.

(** [s * n]: repetition, empty for [n <= 0]. *)
Definition str_mul (s : string) (n : Z) : string :=
  String.concat "" (replicate (Z.to_nat n) s).

Fixpoint str_contains (c : ascii) (s : string) : bool :=
  match s with
  | "" => false
  | String c' s' => if decide (c' = c) then true else str_contains c s'
  end.

(** [s.strip()] *)
Fixpoint lstrip (s : string) : string :=
  match s with
  | String c s' => if isspace c then lstrip s' else s
  | "" => ""
  end.

Fixpoint rstrip (s : string) : string :=
  match s with
  | "" => ""
  | String c s' =>
      match rstrip s' with
      | "" => if isspace c then "" else String c ""
      | r => String c r
      end
  end.

Definition str_strip (s : string) : string := rstrip (lstrip s).

(** ** Python numbers *)

Definition digit_of (c : ascii) : option Z :=
  let n := nat_of_ascii c in
  if ((48 <=? n)%nat && (n <=? 57)%nat) then Some (Z.of_nat (n - 48)) else None.

Definition digit_char (d : Z) : ascii := ascii_of_nat (48 + Z.to_nat d).

(** The digits of one digit group of a numeric literal: at least one digit, and
    an underscore only between two digits. *)
Fixpoint digit_group (s : string) (after_digit : bool) : option (list Z) :=
  match s with
  | "" => if after_digit then Some [] else None
  | String c s' =>
      match digit_of c with
      | Some d => match digit_group s' true with
                  | Some ds => Some (d :: ds)
                  | None => None
                  end
      | None => if decide (c = "_"%char)
                then (if after_digit then digit_group s' false else None)
                else None
      end
  end.

Definition digits_value (ds : list Z) : Z := foldl (fun acc d => 10 * acc + d) 0 ds.

Definition split_sign (s : string) : bool * string :=
  match s with
  | String c r =>
      if decide (c = "-"%char) then (true, r)
      else if decide (c = "+"%char) then (false, r)
      else (false, s)
  | "" => (false, "")
  end.

(** [int(s)] for a string, base 10. *)
Definition py_int (s : string) : result Z :=
  let '(neg, body) := split_sign (str_strip s) in
  match digit_group body false with
  | Some ds => Ok (if neg then - digits_value ds else digits_value ds)
  | None => Raise (ValueError ("invalid literal for int() with base 10: '" +:+ s +:+ "'"))
  end.

(** [int.bit_length] *)
Definition bit_length (v : Z) : Z :=
  if v =? 0 then 0 else Z.log2 (Z.abs v) + 1.

(** Python floats, as the rationals they stand for. *)
Abbreviation float := Q (only parsing).

Inductive float_parse : Type :=
  | PF_num (x : float)   (* [float(s)] returns [x] *)
  | PF_other             (* [float(s)] returns a float outside the fragment *)
  | PF_error.            (* [float(s)] raises ValueError *)

(** [s] cut at the first character satisfying [p]. *)
Fixpoint cut_at (p : ascii -> bool) (s : string) : string * option string :=
  match s with
  | "" => ("", None)
  | String c s' =>
      if p c then ("", Some s')
      else let '(a, b) := cut_at p s' in (String c a, b)
  end.

Definition lower (c : ascii) : ascii :=
  let n := nat_of_ascii c in
  if ((65 <=? n)%nat && (n <=? 90)%nat) then ascii_of_nat (n + 32) else c.

Fixpoint str_lower (s : string) : string :=
  match s with
  | "" => ""
  | String c s' => String (lower c) (str_lower s')
  end.

Fixpoint drop_zeros (ds : list Z) : list Z :=
  match ds with
  | 0 :: ds' => drop_zeros ds'
  | _ => ds
  end.

Definition significant (ds : list Z) : list Z :=
  rev (drop_zeros (rev (drop_zeros ds))).

(** The digits of the mantissa [I], [I.], [I.F] or [.F]: the integer digits
    and the fraction digits. *)
Definition mantissa_digits (m : string) : option (list Z * list Z) :=
  match cut_at (fun c => bool_decide (c = "."%char)) m with
  | (i, None) => match digit_group i false with
                 | Some ds => Some (ds, [])
                 | None => None
                 end
  | (i, Some f) =>
      match i, f with
      | "", "" => None
      | "", _ => match digit_group f false with
                 | Some fs => Some ([], fs)
                 | None => None
                 end
      | _, "" => match digit_group i false with
                 | Some ds => Some (ds, [])
                 | None => None
                 end
      | _, _ => match digit_group i false, digit_group f false with
                | Some ds, Some fs => Some (ds, fs)
                | _, _ => None
                end
      end
  end.

Definition exponent_ok (e : string) : bool :=
  match digit_group (snd (split_sign e)) false with Some _ => true | None => false end.

(** [float(s)] for a string. *)
Definition py_float (s : string) : float_parse :=
  let '(neg, body) := split_sign (str_strip s) in
  let low := str_lower body in
  if bool_decide (low = "inf" \/ low = "infinity" \/ low = "nan") then PF_other
  else
    let '(m, e) := cut_at (fun c => bool_decide (c = "e"%char \/ c = "E"%char)) body in
    match mantissa_digits m, e with
    | None, _ => PF_error
    | Some _, Some ex => if exponent_ok ex then PF_other else PF_error
    | Some (ds, fs), None =>
        let n := digits_value (ds ++ fs) in
        let k := Z.of_nat (length fs) in
        if (15 <? length (significant (ds ++ fs)))%nat then PF_other
        else if n =? 0 then (if neg then PF_other else PF_num 0%Q)
        else if (10 ^ k <=? n * 10 ^ 4) && (n <? 10 ^ (16 + k))
             then PF_num (Qred (Qmake (if neg then - n else n) (Z.to_pos (10 ^ k))))
             else PF_other
    end.

Fixpoint frac_digits (fuel : nat) (r d : Z) : string :=
  match fuel with
  | O => ""
  | S fuel' =>
      if r =? 0 then ""
      else String (digit_char (10 * r / d)) (frac_digits fuel' (10 * r mod d) d)
  end.

(** [str(x)] and [f"{x}"] for a float, in fixed notation: the shortest
    decimal, with at least one digit after the point. *)
Definition float_str (x : float) : string :=
  let n := Qnum x in
  let d := Zpos (Qden x) in
  let fr := frac_digits 20 (Z.abs n mod d) d in
  (if n <? 0 then "-" else "") +:+ pretty (Z.abs n / d) +:+ "." +:+
  (match fr with "" => "0" | _ => fr end).

(** Round half to even, to an integer. *)
Definition round_half_even (x : float) : Z :=
  let n := Qnum x in
  let d := Zpos (Qden x) in
  let f := n / d in
  match (2 * (n mod d)) ?= d with
  | Lt => f
  | Gt => f + 1
  | Eq => if Z.even f then f else f + 1
  end.

(** [round(x, ndigits)] *)
Definition py_round (x : float) (ndigits : nat) : float :=
  let p := 10 ^ Z.of_nat ndigits in
  Qred (Qmake (round_half_even (x * inject_Z p)) (Z.to_pos p)).

(** ** [TimeScale] *)

Definition TIMESCALE_ROUNDING : nat := 3.

Record TimeScale : Type := {
  base_num : Z;
  base_unit : string
}.

(** [self._unit_conversion], set in [__post_init__]. *)
Definition _unit_conversion : gmap string float :=
  <["ms" := inject_Z (10 ^ 3)]>
    (<["us" := inject_Z (10 ^ 6)]>
      (<["ns" := inject_Z (10 ^ 9)]>
        (<["ps" := inject_Z (10 ^ 12)]> ∅))).

Definition TimeScale_repr (self : TimeScale) : string :=
  pretty (base_num self) +:+ base_unit self.

Definition convert_to (self : TimeScale) (timestamp : Z) (unit : string) : result float :=
  match _unit_conversion !! unit, _unit_conversion !! base_unit self with
  | Some a, Some b =>
      let _mul := (a / b)%Q in
      let _value := py_round (inject_Z timestamp * _mul)%Q TIMESCALE_ROUNDING in
      Ok _value
  | _, _ => Raise (TypeError "unsupported operand type(s) for /")
  end.


(** ** The expression resolver ([helper.eval_expr])

    [sympify] and the printing of its results belong to sympy. *)

Inductive PyArg : Type :=
  | ArgFloat (x : float)
  | ArgStr (s : string).

Class Sympy (SymExpr : Type) : Type := {
  sympify : PyArg -> option SymExpr;   (* [None]: SympifyError *)
  sym_str : SymExpr -> string          (* [str(result)] *)
}.

Inductive EvalResult (SymExpr : Type) : Type :=
  | Formatted (s : string)
  | Symbolic (r : SymExpr).
Arguments Formatted {SymExpr} s.
Arguments Symbolic {SymExpr} r.

(** [f"{r}"] *)
Definition fmt `{Sympy SymExpr} (r : EvalResult SymExpr) : string :=
  match r with
  | Formatted s => s
  | Symbolic r => sym_str r
  end.

(** [int(base)] *)
Definition int_of_base (base : option Z) : result Z :=
  match base with
  | Some b => Ok b
  | None => Raise (TypeError "int() argument must be a string, a bytes-like object or a real number, not 'NoneType'")
  end.

(** One turn of the loop over [str(result).split()]. *)
Definition eval_arg (base : option Z) (unit : string) (arg : string) : result string :=
  match py_float arg with
  | PF_error => Ok arg                                    (* except ValueError *)
  | _ =>                                                  (* else *)
      let? b := int_of_base base in
      match py_float (str_mul arg b) with
      | PF_num x => Ok (float_str x +:+ unit)
      | PF_other => Raise Unmodelled
      | PF_error => Raise (ValueError "could not convert string to float")
      end
  end.

Definition eval_expr `{Sympy SymExpr} (e : PyArg) (base : option Z) (unit : option string)
  : result (EvalResult SymExpr) :=
  match sympify e with
  | None => Raise SympifyError
  | Some result =>
      match unit with
      | Some (String c u) =>
          let? _args := rmap (eval_arg base (String c u)) (str_split (sym_str result)) in
          Ok (Formatted (str_join " " _args))
      | _ => Ok (Symbolic result)
      end
  end.

(** ** [Register] and [Wire] *)

Inductive PyClass : Type := ClsRegister | ClsWire.

Record Register : Type := {
  cls : PyClass;
  name : string;
  width : Z;
  dim : Z;
  data : list Z;
  timing_assignments : list (Z * list Z);
  export_pwl_safe : bool
}.

(** [Register(name=..., width=...)] and [Wire(...)], with [__post_init__];
    [np.zeros] refuses a negative length. *)
Definition new_Register (c : PyClass) (name : string) (width : Z) : result Register :=
  if width <? 0 then Raise (ValueError "negative dimensions are not allowed")
  else Ok {| cls := c; name := name; width := width; dim := 0;
             data := replicate (Z.to_nat width) 0;
             timing_assignments := [];
             export_pwl_safe := true |}.

Definition tag (x_state : bool) : M Register unit :=
  modify (fun self =>
    {| cls := cls self; name := name self; width := width self; dim := dim self;
       data := data self; timing_assignments := timing_assignments self;
       export_pwl_safe := negb x_state |}).

Definition Register_repr (self : Register) : string :=
  if width self =? 1 then name self
  else name self +:+ "[" +:+ pretty (width self - 1) +:+ ":0]".

Definition int2bit_array (self : Register) (value : Z) : result (list Z) :=
  if width self <? bit_length value
  then Raise (ValueError ("Value " +:+ pretty value +:+ " requires more than " +:+
                          pretty (width self) +:+ " bits."))
  else
    let bits := replicate (Z.to_nat (width self)) 0 in
    Ok (foldl (fun bits (i : nat) =>
                 <[Z.to_nat (width self - 1 - Z.of_nat i) := Z.land (Z.shiftr value (Z.of_nat i)) 1]> bits)
              bits (seq 0 (Z.to_nat (width self)))).

Definition update (timestamp value : Z) : M Register unit :=
  let! self := get in
  let! bit_value := lift (int2bit_array self value) in
  put {| cls := cls self; name := name self; width := width self; dim := dim self;
         data := bit_value;
         timing_assignments := dict_set (timing_assignments self) timestamp bit_value;
         export_pwl_safe := export_pwl_safe self |}.

(** *** The PWL emitter ([Register.generate_piecewise_linear]) *)

(** [self.data] is one-dimensional, so [data_idx] is [(m,)]. *)
Definition pwl_name (self : Register) (m : nat) : string :=
  if 1 <? width self
  then name self +:+ "[" +:+ pretty (width self - 1 - Z.of_nat m) +:+ "]"
  else name self.

Definition pwl_header (pwl_name : string) : string :=
  "V" +:+ pwl_name +:+ " " +:+ pwl_name +:+ " 0 pwl(".

(** ['vvdd' if bit else '0'] *)
Definition level_of (bit : Z) : string := if bit =? 0 then "0" else "vvdd".

Definition index_bit (bit_value : list Z) (m : nat) : result Z :=
  match bit_value !! m with
  | Some b => Ok b
  | None => Raise (IndexError "index out of bounds")
  end.

Definition timescale_convert_to (timescale : option TimeScale) (timestamp : Z) (unit : string)
  : result float :=
  match timescale with
  | Some ts => convert_to ts timestamp unit
  | None => Raise (AttributeError "'NoneType' object has no attribute 'convert_to'")
  end.

Section Emitter.
Context `{Sympy SymExpr}.
Variable self : Register.
Variable timescale : option TimeScale.
Variable expr : gmap string Z.

(** The body of the loop over [self.timing_assignments.items()], for the bit
    position [m]: the state is [(_prev, line)]. *)
Definition pwl_step (m : nat) (st : string * string) (item : Z * list Z)
  : result (string * string) :=
  let '(_prev, line) := st in
  let '(_timestamp, bit_value) := item in
  let? bit := index_bit bit_value m in
  let crnt_v := level_of bit in
  let? line' :=
    if bool_decide (_prev = "na") then Ok (line +:+ "0 " +:+ crnt_v +:+ nl +:+ "+")
    else if bool_decide (_prev <> crnt_v) then
      let rf_identifier := if bool_decide (name self = "CLK") then "tcrf" else "trf" in
      let? t := timescale_convert_to timescale _timestamp "ns" in
      let? t_expr := eval_expr (ArgFloat t) (Some 1) (Some "ns") in
      if bool_decide (expr !! rf_identifier = Some 0) then
        let? t_rf := eval_expr (ArgStr (float_str t +:+ " + " +:+ rf_identifier))
                               (Some 1) (Some "ns") in
        Ok (line +:+ "'" +:+ fmt t_expr +:+ "' " +:+ _prev +:+ " '" +:+ fmt t_rf +:+ "' " +:+
            crnt_v +:+ " ")
      else
        Ok (line +:+ "'" +:+ fmt t_expr +:+ "' " +:+ crnt_v +:+ " ")
    else Ok line in
  Ok (crnt_v, line').

Definition pwl_walk (m : nat) (line : string) : result (string * string) :=
  rfold (pwl_step m) ("na", line) (timing_assignments self).

(** One turn of the loop over [np.ndenumerate(self.data)]. *)
Definition pwl_block (m : nat) : result string :=
  let? (_, line) := pwl_walk m (pwl_header (pwl_name self m)) in
  Ok (line +:+ ")" +:+ nl +:+ nl).

Definition generate_piecewise_linear : result string :=
  if negb (export_pwl_safe self) then Ok ""
  else
    rfold (fun lines m => let? line := pwl_block m in Ok (lines +:+ line))
          "" (seq 0 (length (data self))).
End Emitter.

(** ** [Module] (one scope) and the object store

    A [Register] is shared between the [variables] of its scope and the
    [signals] of the document, and a [Module] between [module],
    [current_module] and [_shadow_modules]: both live in the store and are
    named by their index. *)

Record Module_ : Type := {
  mname : string;                      (* [Module.name] *)
  variables : list (string * nat)      (* identifier -> Register object *)
}.

Record VCDModule : Type := {
  date : string;
  version : string;
  timescale : option TimeScale;
  module : option nat;                 (* top module *)
  current_module : option nat;
  _shadow_modules : list nat;
  signals : list nat;
  _sig_map : list (string * string)
}.

Record World : Type := {
  registers : list Register;
  modules : list Module_;
  top : VCDModule
}.

Definition set_top (f : VCDModule -> VCDModule) : M World unit :=
  modify (fun w => {| registers := registers w; modules := modules w; top := f (top w) |}).

(** Run a method of the [Register] object [r]. *)
Definition with_reg {A} (r : nat) (m : M Register A) : M World A :=
  fun w =>
    match registers w !! r with
    | Some reg =>
        let '(a, reg') := m reg in
        (a, {| registers := <[r := reg']> (registers w); modules := modules w; top := top w |})
    | None => (Raise Unmodelled, w)
    end.

(** Run a method of the [Module] object [r]. *)
Definition with_mod {A} (r : nat) (m : M Module_ A) : M World A :=
  fun w =>
    match modules w !! r with
    | Some md =>
        let '(a, md') := m md in
        (a, {| registers := registers w; modules := <[r := md']> (modules w); top := top w |})
    | None => (Raise Unmodelled, w)
    end.

Definition alloc_reg (reg : Register) : M World nat :=
  fun w => (Ok (length (registers w)),
            {| registers := registers w ++ [reg]; modules := modules w; top := top w |}).

Definition alloc_mod (md : Module_) : M World nat :=
  fun w => (Ok (length (modules w)),
            {| registers := registers w; modules := modules w ++ [md]; top := top w |}).

(** [Module(scope)] *)
Definition new_Module (scope : string) : Module_ := {| mname := scope; variables := [] |}.

Definition add_signal (_identifier : string) (reg : nat) : M Module_ unit :=
  modify (fun self => {| mname := mname self;
                         variables := dict_set (variables self) _identifier reg |}).

(** [isinstance(reg, Register)]: [Wire] is a subclass of [Register]. *)
Definition isinstance_Register (reg : Register) : bool :=
  match cls reg with ClsRegister | ClsWire => true end.

Definition isinstance_Wire (reg : Register) : bool :=
  match cls reg with ClsWire => true | ClsRegister => false end.

Definition Module_export_pwl `{Sympy SymExpr} (regs : list Register) (self : Module_)
    (timescale : option TimeScale) (expr : gmap string Z) : result string :=
  rfold (fun data (item : string * nat) =>
           match regs !! item.2 with
           | None => Raise Unmodelled
           | Some reg =>
               if isinstance_Register reg then
                 let? s := generate_piecewise_linear reg timescale expr in
                 Ok (data +:+ s +:+ nl)
               else if isinstance_Wire reg then
                 let? s := generate_piecewise_linear reg timescale expr in
                 Ok (data +:+ s +:+ nl)
               else Ok data
           end)
        "" (variables self).

(** ** [VCDModule] (the document) *)

Definition new_VCDModule : VCDModule :=
  {| date := ""; version := ""; timescale := None; module := None; current_module := None;
     _shadow_modules := []; signals := []; _sig_map := [] |}.

Definition none_attr {S A} (attr : string) : M S A :=
  raise (AttributeError ("'NoneType' object has no attribute '" +:+ attr +:+ "'")).

(** [add_reg] and [add_wire] have the same body. *)
Definition add_reg (reg : nat) (_identifier : string) : M World unit :=
  let! w := get in
  match registers w !! reg with
  | None => raise Unmodelled
  | Some r =>
      do! set_top (fun t =>
            {| date := date t; version := version t; timescale := timescale t;
               module := module t; current_module := current_module t;
               _shadow_modules := _shadow_modules t; signals := signals t;
               _sig_map := dict_set (_sig_map t) _identifier (name r) |}) in
      match current_module (top w) with
      | None => none_attr "add_signal"
      | Some cm =>
          do! with_mod cm (add_signal _identifier reg) in
          set_top (fun t =>
            {| date := date t; version := version t; timescale := timescale t;
               module := module t; current_module := current_module t;
               _shadow_modules := _shadow_modules t; signals := signals t ++ [reg];
               _sig_map := _sig_map t |})
      end
  end.

Definition add_wire (wire : nat) (_identifier : string) : M World unit :=
  add_reg wire _identifier.

Definition update_module (scope : string) : M World unit :=
  let! w := get in
  match module (top w) with
  | None =>
      let! m := alloc_mod (new_Module scope) in
      set_top (fun t =>
        {| date := date t; version := version t; timescale := timescale t;
           module := Some m; current_module := Some m;
           _shadow_modules := _shadow_modules t; signals := signals t;
           _sig_map := _sig_map t |})
  | Some tm =>
      match modules w !! tm with
      | None => raise Unmodelled
      | Some tmod =>
          if bool_decide (mname tmod <> scope) then
            let! m := alloc_mod (new_Module scope) in
            set_top (fun t =>
              {| date := date t; version := version t; timescale := timescale t;
                 module := module t; current_module := Some m;
                 _shadow_modules := _shadow_modules t ++ [m]; signals := signals t;
                 _sig_map := _sig_map t |})
          else ret tt                  (* "Repeated scope entry" *)
      end
  end.

(** [self.module.variables], which needs a top module. *)
Definition top_variables : M World (list (string * nat)) :=
  let! w := get in
  match module (top w) with
  | None => none_attr "variables"
  | Some tm =>
      match modules w !! tm with
      | None => raise Unmodelled
      | Some tmod => ret (variables tmod)
      end
  end.

Definition is_reg_top_module (ident : string) : M World bool :=
  let! vars := top_variables in
  ret (dict_contains vars ident).

(** A value carried by a value change: an [int], or a [str]. *)
Inductive Value : Type :=
  | VInt (n : Z)
  | VStr (s : string).

Definition update_timing_assignment (timestamp : Z) (_identifier : string) (value : Value)
    (full : bool) : M World unit :=
  let! skip := (if full then ret false
                else let! b := is_reg_top_module _identifier in ret (negb b)) in
  if skip then ret tt
  else
    let! w := get in
    let! time_value := lift (timescale_convert_to (timescale (top w)) timestamp "ns") in
    let! vars := top_variables in
    match dict_get vars _identifier with
    | None => raise (SystemExit (-1))
    | Some _reg =>
        match value with
        | VStr _ => with_reg _reg (tag true)
        | VInt v => with_reg _reg (update timestamp v)
        end
    end.

(** [VCDModule.export_pwl]: the text written to the output file. *)
Definition export_pwl `{Sympy SymExpr} (w : World) (expr : gmap string Z) : result string :=
  match module (top w) with
  | None => Raise (AttributeError "'NoneType' object has no attribute 'export_pwl'")
  | Some tm =>
      match modules w !! tm with
      | None => Raise Unmodelled
      | Some tmod => Module_export_pwl (registers w) tmod (timescale (top w)) expr
      end
  end.

(** ** The token interpreter ([VCDParser])

    The lexer ([pyvcd.reader.tokenize]) is a collaborator: it is a pull source
    that yields a token, raises, or ends. *)

Inductive VarType : Type :=
  | vt_event | vt_integer | vt_parameter | vt_real | vt_realtime | vt_reg
  | vt_supply0 | vt_supply1 | vt_time | vt_tri | vt_triand | vt_trior
  | vt_trireg | vt_tri0 | vt_tri1 | vt_wand | vt_wire | vt_wor | vt_string.

Record VarDecl : Type := {
  type_ : VarType;
  size : Z;
  id_code : string;
  reference : string
}.

(** Modelled from the spec: [TokenKind] belongs to the lexer, which is not
    part of the source; its kinds are the token kinds that the spec
    enumerates, the dumpvars marker among them (the code names it
    [TokenKind.DUMPVAR]).  A token of any other kind reaches the comparison
    with [TokenKind.DUMPVAR], which is then false. *)
Inductive Token : Type :=
  | DATE (data : string)
  | VERSION (data : string)
  | TIMESCALE (data : string)                       (* [str(_toc.data)] *)
  | SCOPE (ident : string)
  | UPSCOPE
  | VAR (decl : VarDecl)
  | CHANGE_TIME (data : Z)
  | CHANGE_SCALAR (id_code : string) (value : Value)
  | CHANGE_VECTOR (id_code : string) (value : Value)
  | DUMPVAR
  | OTHER.                                          (* any other kind of token *)

Inductive LexItem : Type :=
  | Yield (t : Token)
  | Throw (e : exn).

(** The state of [_parse_group]: the store with [top], and the locals. *)
Record Frame : Type := {
  world : World;
  scope : option string;
  _timestamp : Z
}.

Definition in_world {A} (m : M World A) : M Frame A :=
  fun fr =>
    let '(a, w') := m (world fr) in
    (a, {| world := w'; scope := scope fr; _timestamp := _timestamp fr |}).

Definition set_scope (s : option string) : M Frame unit :=
  modify (fun fr => {| world := world fr; scope := s; _timestamp := _timestamp fr |}).

Definition set_timestamp (t : Z) : M Frame unit :=
  modify (fun fr => {| world := world fr; scope := scope fr; _timestamp := t |}).

(** [_base, _unit = tuple(s.split())] *)
Definition unpack2 (l : list string) : result (string * string) :=
  match l with
  | [a; b] => Ok (a, b)
  | [] | [_] => Raise (ValueError "not enough values to unpack (expected 2)")
  | _ => Raise (ValueError "too many values to unpack (expected 2)")
  end.

(** [top.timescale.base_unit], read by the messages of the time-change branch. *)
Definition timescale_base_unit : M Frame string :=
  let! fr := get in
  match timescale (top (world fr)) with
  | Some ts => ret (base_unit ts)
  | None => none_attr "base_unit"
  end.

Definition declare (c : PyClass) (decl : VarDecl) : M Frame unit :=
  let! reg := lift (new_Register c (reference decl) (size decl)) in
  let! r := in_world (alloc_reg reg) in
  in_world (add_reg r (id_code decl)).

(** The body of the [while True] loop for one token. *)
Definition parse_token (full : bool) (_toc : Token) : M Frame unit :=
  match _toc with
  | DATE data =>
      in_world (set_top (fun t =>
        {| date := data; version := version t; timescale := timescale t;
           module := module t; current_module := current_module t;
           _shadow_modules := _shadow_modules t; signals := signals t;
           _sig_map := _sig_map t |}))
  | VERSION data =>
      in_world (set_top (fun t =>
        {| date := date t; version := data; timescale := timescale t;
           module := module t; current_module := current_module t;
           _shadow_modules := _shadow_modules t; signals := signals t;
           _sig_map := _sig_map t |}))
  | TIMESCALE data =>
      let! (_base, _unit) := lift (unpack2 (str_split data)) in
      let! n := lift (py_int _base) in
      in_world (set_top (fun t =>
        {| date := date t; version := version t;
           timescale := Some {| base_num := n; base_unit := _unit |};
           module := module t; current_module := current_module t;
           _shadow_modules := _shadow_modules t; signals := signals t;
           _sig_map := _sig_map t |}))
  | SCOPE ident =>
      do! set_scope (Some ident) in
      in_world (update_module ident)
  | UPSCOPE =>
      set_scope None
  | VAR decl =>
      match type_ decl with
      | vt_reg => declare ClsRegister decl
      | vt_wire => declare ClsWire decl
      | _ => ret tt
      end
  | CHANGE_TIME data =>
      do! set_timestamp data in
      let! _ := timescale_base_unit in
      ret tt
  | CHANGE_SCALAR identifier value | CHANGE_VECTOR identifier value =>
      let! value' :=
        match value with
        | VStr s =>
            if str_contains "x" s || str_contains "z" s then ret (VStr s)
            else let! n := lift (py_int s) in ret (VInt n)
        | VInt n => ret (VInt n)
        end in
      let! fr := get in
      in_world (update_timing_assignment (_timestamp fr) identifier value' full)
  | DUMPVAR => ret tt
  | OTHER => ret tt
  end.

(** [next(self.t)] followed by the loop body, until the source ends
    ([StopIteration]) or something raises. *)
Fixpoint parse_loop (full : bool) (items : list LexItem) : M Frame unit :=
  match items with
  | [] => ret tt
  | Throw e :: _ => raise e
  | Yield _toc :: rest => do! parse_token full _toc in parse_loop full rest
  end.

Definition new_Frame : Frame :=
  {| world := {| registers := []; modules := []; top := new_VCDModule |};
     scope := None; _timestamp := 0 |}.

(** [_parse_group()] with its default arguments; it returns [top]. *)
Definition _parse_group (items : list LexItem) : result World * Frame :=
  match parse_loop false items new_Frame with
  | (Ok _, fr) => (Ok (world fr), fr)
  | (Raise e, fr) => (Raise e, fr)
  end.

(** What a call of [parse] ends in: it returns the document, it logs
    ['Parser Error. <msg>'] and returns [None], or an exception leaves it. *)
Inductive ParseOutcome : Type :=
  | Document (doc : World)
  | ParseFailure (msg : string)
  | Escapes (e : exn).

Definition parse (items : list LexItem) : ParseOutcome :=
  match fst (_parse_group items) with
  | Ok doc => Document doc
  | Raise (AssertionError msg) => ParseFailure msg
  | Raise e => Escapes e
  end.

(** ** A stand-in for sympy on the expressions the emitter builds

    Used by the examples only.  A float argument prints with 15 significant
    digits (as the printer does for a number on its own, and [0] for zero);
    the text [<number> + <name>] prints as [<name> + <number>], the number
    with its trailing zeros stripped; anything else is refused. *)

Fixpoint count_significant (s : string) (started : bool) : nat :=
  match s with
  | "" => O
  | String c s' =>
      match digit_of c with
      | Some d => if started || negb (d =? 0) then S (count_significant s' true)
                  else count_significant s' false
      | None => count_significant s' started
      end
  end.

Definition full_precision (x : float) : string :=
  if Qnum x =? 0 then "0"
  else
    let s := float_str x in
    s +:+ str_mul "0" (15 - Z.of_nat (count_significant s false)).

#[local] Instance sympy_standin : Sympy string := {|
  sympify e :=
    match e with
    | ArgFloat x => Some (full_precision x)
    | ArgStr s =>
        match str_split s with
        | [a; plus; b] =>
            match py_float a, py_float b with
            | PF_num x, PF_error =>
                if bool_decide (plus = "+") && negb (Qnum x =? 0)
                then Some (b +:+ " + " +:+ float_str x) else None
            | _, _ => None
            end
        | _ => None
        end
    end;
  sym_str r := r
|}.

(** ** Sample documents *)

Definition ns1 : TimeScale := {| base_num := 1; base_unit := "ns" |}.

Definition clk_decl : VarDecl :=
  {| type_ := vt_reg; size := 1; id_code := "!"; reference := "CLK" |}.
Definition data_decl : VarDecl :=
  {| type_ := vt_reg; size := 4; id_code := "#"; reference := "DATA" |}.
Definition en_decl : VarDecl :=
  {| type_ := vt_wire; size := 1; id_code := "$"; reference := "EN" |}.

(** A 1-bit [CLK] that is 0 at tick 0 and 1 at tick 5. *)
Definition clk_trace : list LexItem :=
  [Yield (TIMESCALE "1 ns"); Yield (SCOPE "tb"); Yield (VAR clk_decl); Yield UPSCOPE;
   Yield OTHER; Yield (CHANGE_TIME 0); Yield DUMPVAR; Yield (CHANGE_SCALAR "!" (VStr "0"));
   Yield (CHANGE_TIME 5); Yield (CHANGE_SCALAR "!" (VStr "1"))].

Definition clk_reg : Register :=
  {| cls := ClsRegister; name := "CLK"; width := 1; dim := 0; data := [1];
     timing_assignments := [(0, [0]); (5, [1])]; export_pwl_safe := true |}.

Definition expr_of (trf tcrf : Z) : gmap string Z :=
  <["trf" := trf]> (<["tcrf" := tcrf]> ∅).

Definition export_of `{Sympy SymExpr} (items : list LexItem) (expr : gmap string Z) : result string :=
  match parse items with
  | Document doc => export_pwl doc expr
  | ParseFailure msg => Raise (AttributeError "'NoneType' object has no attribute 'export_pwl'")
  | Escapes e => Raise e
  end.


(** ** The shape of a printed float *)

Definition is_digit (c : ascii) : bool :=
  match digit_of c with Some _ => true | None => false end.

Fixpoint all_digits (s : string) : bool :=
  match s with
  | "" => true
  | String c s' => is_digit c && all_digits s'
  end.

Fixpoint last_char (s : string) : option ascii :=
  match s with
  | "" => None
  | String c "" => Some c
  | String _ s' => last_char s'
  end.

(** A decimal with a point in its shortest form: an optional minus sign,
    digits, a point, and a fraction that is [0] or does not end with a
    zero. *)
Definition shortest_decimal (s : string) : bool :=
  let body := match s with
              | String c r => if bool_decide (c = "-"%char) then r else s
              | "" => ""
              end in
  match cut_at (fun c => bool_decide (c = "."%char)) body with
  | (ip, Some fr) =>
      negb (bool_decide (ip = "")) && all_digits ip && all_digits fr &&
      (bool_decide (fr = "0") ||
       match last_char fr with
       | Some c => negb (bool_decide (c = "0"%char))
       | None => false
       end)
  | (_, None) => false
  end.

(** The value of a decimal digit. *)
Definition digit_range (d : Z) : Prop := 0 <= d <= 9.

(** The values of the digits of a text. *)
Fixpoint digits_of (s : string) : list Z :=
  match s with
  | "" => []
  | String c s' =>
      match digit_of c with
      | Some d => d :: digits_of s'
      | None => digits_of s'
      end
  end.

(** The characters of a printed float: digits, the point and the minus sign. *)
Definition plain_char (c : ascii) : bool :=
  is_digit c || bool_decide (c = "."%char) || bool_decide (c = "-"%char).

Fixpoint all_plain (s : string) : bool :=
  match s with
  | "" => true
  | String c s' => plain_char c && all_plain s'
  end.

(** The floats of the fragment: reduced, and either zero or of at most 15
    significant digits and of magnitude in [1e-4, 1e16). *)
Definition in_fragment (x : Q) : Prop :=
  Qred x = x /\
  (x = 0%Q \/
   exists (m : Z) (e k : nat),
     0 < m < 10 ^ 15 /\
     Z.abs (Qnum x) * 10 ^ Z.of_nat k = m * 10 ^ Z.of_nat e * Zpos (Qden x) /\
     Zpos (Qden x) <= Z.abs (Qnum x) * 10 ^ 4 /\
     Z.abs (Qnum x) < 10 ^ 16 * Zpos (Qden x)).

(** ** The statements of the specification that the code does not follow

    Each is written from the words of the specification, to be compared with
    the definition taken from the code. *)


(** The conversion as the specification words it:
    [round(ticks * base_num * factor, 3)]. *)
Definition spec_convert (self : TimeScale) (ticks : Z) (target : string) : result float :=
  match _unit_conversion !! target, _unit_conversion !! base_unit self with
  | Some a, Some b =>
      Ok (py_round (inject_Z ticks * inject_Z (base_num self) * (a / b))%Q 3)
  | _, _ => Raise (TypeError "unsupported operand type(s) for /")
  end.

(** "No scope is current": neither the local [scope] nor the document's
    [current_module] names one. *)
Definition no_scope_current (fr : Frame) : Prop :=
  scope fr = None /\ current_module (top (world fr)) = None.

(** "parse returns a Document or reports a ParseFailure". *)
Definition document_or_failure (o : ParseOutcome) : Prop :=
  (exists doc, o = Document doc) \/ (exists msg, o = ParseFailure msg).

(** ** Sample inputs of the counterexamples *)

Definition ns10 : TimeScale := {| base_num := 10; base_unit := "ns" |}.

(** A 1-bit signal that is given the value 2. *)
Definition too_wide_trace : list LexItem :=
  [Yield (TIMESCALE "1 ns"); Yield (SCOPE "tb"); Yield (VAR clk_decl);
   Yield (CHANGE_TIME 0); Yield (CHANGE_VECTOR "!" (VInt 2))].

(** A scope that is closed before a variable is declared. *)
Definition closed_scope_trace : list LexItem :=
  [Yield (SCOPE "tb"); Yield UPSCOPE].

(** Two scopes: [CLK] and [EN] in the top scope [tb], [DATA] in the scope
    [dut]; [CLK] is given an [x] at tick 4, after two values and before
    another one. *)
Definition two_scope_head : list LexItem :=
  [Yield (SCOPE "tb"); Yield (VAR clk_decl); Yield (VAR en_decl);
   Yield (SCOPE "dut"); Yield (VAR data_decl); Yield UPSCOPE; Yield UPSCOPE; Yield OTHER;
   Yield (CHANGE_TIME 0); Yield (CHANGE_SCALAR "!" (VStr "0"));
   Yield (CHANGE_SCALAR "$" (VStr "1")); Yield (CHANGE_VECTOR "#" (VInt 5));
   Yield (CHANGE_TIME 3); Yield (CHANGE_SCALAR "!" (VStr "1")); Yield (CHANGE_TIME 4)].

Definition two_scope_tail : list LexItem :=
  [Yield (CHANGE_TIME 5); Yield (CHANGE_SCALAR "!" (VStr "0"));
   Yield (CHANGE_SCALAR "$" (VStr "0"))].

Definition two_scope_trace : list LexItem :=
  [Yield (TIMESCALE "1 ns")] ++ two_scope_head ++
  [Yield (CHANGE_SCALAR "!" (VStr "x"))] ++ two_scope_tail.

(** The frame of the interpreter after a run of tokens. *)
Definition frame_after (items : list LexItem) : Frame :=
  snd (parse_loop false items new_Frame).

Definition tb_module : Module_ :=
  {| mname := "tb"; variables := [("!", 0%nat); ("$", 1%nat)] |}.

Definition clk_before_x : Register :=
  {| cls := ClsRegister; name := "CLK"; width := 1; dim := 0; data := [1];
     timing_assignments := [(0, [0]); (3, [1])]; export_pwl_safe := true |}.

(** A 2-bit [DATA] as it is right after its declaration. *)
Definition data2_fresh : Register :=
  {| cls := ClsRegister; name := "DATA"; width := 2; dim := 0; data := [0; 0];
     timing_assignments := []; export_pwl_safe := true |}.

(** ** More of [types.py], [helper.py] and [parser.py] *)

(** The integer that a bit array stands for, most significant bit first. *)
Definition bits_value (bits : list Z) : Z := foldl (fun acc b => 2 * acc + b) 0 bits.

(** [''.join(bit_value.astype(str))]: the text of a bit array in the message
    of [Register.update]. *)
Definition bits_str (bits : list Z) : string := String.concat "" (map pretty bits).

(** The digits at the start of a text. *)
Fixpoint take_digits (s : string) : list Z :=
  match s with
  | "" => []
  | String c s' =>
      match digit_of c with
      | Some d => d :: take_digits s'
      | None => []
      end
  end.

(** [Register.str2bit_array]: [re.match(r'^b?(\d+)', value_str)] takes an
    optional [b] and then the longest run of digits, which must not be
    empty; the array holds [int(s)] for each digit [s]. *)
Definition str2bit_array (value_str : string) : result (list Z) :=
  let binary_str :=
    match value_str with
    | String c r => if bool_decide (c = "b"%char) then take_digits r else take_digits value_str
    | "" => []
    end in
  match binary_str with
  | [] => Raise (ValueError "Failed to convert string to bit_array")
  | _ => Ok binary_str
  end.

(** The shape in which the methods keep a [Register]: [data] and every entry
    of the timeline have [width] entries. *)
Definition wf_register (reg : Register) : Prop :=
  0 <= width reg /\
  length (data reg) = Z.to_nat (width reg) /\
  Forall (fun item : Z * list Z => length item.2 = Z.to_nat (width reg))
         (timing_assignments reg).

(** [\w] on ASCII: a letter, a digit or the underscore. *)
Definition is_word (c : ascii) : bool :=
  let n := nat_of_ascii c in
  ((48 <=? n)%nat && (n <=? 57)%nat) || ((65 <=? n)%nat && (n <=? 90)%nat) ||
  ((97 <=? n)%nat && (n <=? 122)%nat) || (n =? 95)%nat.

Fixpoint take_word (s : string) : string :=
  match s with
  | "" => ""
  | String c s' => if is_word c then String c (take_word s') else ""
  end.

Fixpoint strip_prefix (p s : string) : option string :=
  match p, s with
  | "", _ => Some s
  | String a p', String b s' => if decide (a = b) then strip_prefix p' s' else None
  | String _ _, "" => None
  end.

(** [re.search(MODULE_REGEX, line)] with [MODULE_REGEX = "^module (\w+)"]: the
    line starts with [module], one space and a word; the group is the
    word. *)
Definition module_match (line : string) : option string :=
  match strip_prefix "module " line with
  | Some rest => match take_word rest with
                 | "" => None
                 | w => Some w
                 end
  | None => None
  end.

(** [helper.safe_get_module_top], on the lines that [f.readlines()] gives. *)
Definition safe_get_module_top (lines : list string) : result string :=
  let module_top :=
    foldl (fun module_top line =>
             match module_match line with
             | Some w => Some w
             | None => module_top
             end) None lines in
  match module_top with
  | Some (String c w) => Ok (String c w)
  | _ => Raise (SystemExit (-1))
  end.

(** [str.isascii] *)
Fixpoint isascii (s : string) : bool :=
  match s with
  | "" => true
  | String c s' => (nat_of_ascii c <? 128)%nat && isascii s'
  end.

(** What an export can end in when it does not return. *)
Definition export_failure (e : exn) : Prop :=
  e = SympifyError \/ e = Unmodelled \/
  (exists msg, e = AttributeError msg) \/ (exists msg, e = TypeError msg).

(** The integer that a value change carries: an [int], or a [str] without
    [x] and [z] that [int()] reads. *)
Definition carries (value : Value) (v : Z) : Prop :=
  value = VInt v \/
  exists s, value = VStr s /\ str_contains "x" s = false /\ str_contains "z" s = false /\
            py_int s = Ok v.

(** A token that [float()] reads. *)
Definition is_numeric (arg : string) : Prop := py_float arg <> PF_error.

(** A value that the CHANGE branch hands on as it is, for its [x] or [z]. *)
Definition ambiguous (value : Value) : Prop :=
  exists s, value = VStr s /\ str_contains "x" s || str_contains "z" s = true.

(** Every [Register] of the store has the shape of [wf_register]. *)
Definition all_wf (w : World) : Prop := Forall wf_register (registers w).

(** [r] raises nothing but what [P] allows. *)
Definition raises_only {A} (P : exn -> Prop) (r : result A) : Prop :=
  forall e, r = Raise e -> P e.

(** No [$timescale] has been read. *)
Definition no_timescale (w : World) : Prop := timescale (top w) = None.

(** The class that a declaration is built with. *)
Definition decl_class (decl : VarDecl) : option PyClass :=
  match type_ decl with
  | vt_reg => Some ClsRegister
  | vt_wire => Some ClsWire
  | _ => None
  end.

(** [isinstance(e, ValueError)]: sympy's [SympifyError] is a subclass of
    [ValueError]. *)
Definition is_ValueError (e : exn) : bool :=
  match e with
  | ValueError _ | SympifyError => true
  | _ => false
  end.

(** A trace whose last [$timescale] names a unit that is not in the table. *)
Definition late_unit_trace : list LexItem :=
  [Yield (TIMESCALE "1 ns"); Yield (SCOPE "tb"); Yield (VAR clk_decl);
   Yield (CHANGE_TIME 0); Yield (CHANGE_SCALAR "!" (VStr "0"));
   Yield (CHANGE_TIME 5); Yield (CHANGE_SCALAR "!" (VStr "1"));
   Yield (TIMESCALE "1 fs")].

(** Two scopes, with tokens of the kinds of the loop only: [CLK] and [EN] in
    the top scope [tb], [DATA] in the scope [dut]. *)
Definition side_scope_trace : list LexItem :=
  [Yield (TIMESCALE "1 ns"); Yield (SCOPE "tb"); Yield (VAR clk_decl); Yield (VAR en_decl);
   Yield (SCOPE "dut"); Yield (VAR data_decl); Yield UPSCOPE; Yield UPSCOPE;
   Yield (CHANGE_TIME 0); Yield (CHANGE_SCALAR "!" (VStr "0"));
   Yield (CHANGE_SCALAR "$" (VStr "1")); Yield (CHANGE_VECTOR "#" (VInt 5));
   Yield (CHANGE_TIME 5); Yield (CHANGE_SCALAR "!" (VStr "1"))].

(** * Properties *)

(** ** The model at sample inputs *)

Example convert_ps_to_ns : convert_to {| base_num := 1; base_unit := "ps" |} 2500 "ns" = Ok (5 # 2)%Q.
Proof. vm_compute. reflexivity. Qed.
Example float_str_ex1 : float_str (5 # 1) = "5.0" /\ float_str (21 # 4) = "5.25" /\ float_str (1 # 200) = "0.005".
Proof. vm_compute. auto. Qed.
Example py_float_ex1 :
  py_float "5.00000000000000" = PF_num (5 # 1) /\ py_float "trf" = PF_error /\
  py_float "+" = PF_error /\ py_float "5.05.0" = PF_error /\ py_float "55" = PF_num (55 # 1) /\
  py_float "1e5" = PF_other /\ py_float "nan" = PF_other /\ py_float "0.0050" = PF_num (1 # 200) /\
  py_float ".5" = PF_num (1 # 2) /\ py_float "5." = PF_num (5 # 1) /\ py_float "." = PF_error /\
  py_float "" = PF_error /\ py_float "0.00001" = PF_other /\ py_float "-0.0" = PF_other.
Proof. vm_compute. repeat split. Qed.
Example py_int_ex1 : py_int "10" = Ok 10 /\ py_int "-7" = Ok (-7) /\ py_int "1_000" = Ok 1000.
Proof. vm_compute. auto. Qed.

Example clk_trace_parses :
  exists doc, parse clk_trace = Document doc /\ registers doc = [clk_reg].
Proof. eexists. split; vm_compute; reflexivity. Qed.

Example clk_trace_ramp :
  export_of clk_trace (expr_of 0 0)
  = Ok ("VCLK CLK 0 pwl(0 0" +:+ nl +:+ "+'5.0ns' 0 'tcrf + 5.0ns' vvdd )" +:+ nl +:+ nl +:+ nl).
Proof. vm_compute. reflexivity. Qed.

Example clk_trace_step :
  export_of clk_trace (expr_of 0 1)
  = Ok ("VCLK CLK 0 pwl(0 0" +:+ nl +:+ "+'5.0ns' vvdd )" +:+ nl +:+ nl +:+ nl).
Proof. vm_compute. reflexivity. Qed.

(** ** Strings and folds *)

Lemma str_app_cons (x : ascii) (a b : string) : String x a +:+ b = String x (a +:+ b).
Proof. reflexivity. Qed.

Lemma str_app_nil_l (a : string) : "" +:+ a = a.
Proof. reflexivity. Qed.

Lemma str_app_assoc (a b c : string) : (a +:+ b) +:+ c = a +:+ (b +:+ c).
Proof.
  induction a as [|x a IH]; [reflexivity|].
  now rewrite !str_app_cons, IH.
Qed.

Lemma str_app_nil_r (a : string) : a +:+ "" = a.
Proof.
  induction a as [|x a IH]; [reflexivity|].
  now rewrite str_app_cons, IH.
Qed.

Lemma rbind_ok_inv {A B} (r : result A) (k : A -> result B) (b : B) :
  rbind r k = Ok b -> exists a, r = Ok a /\ k a = Ok b.
Proof. destruct r as [a|e]; simpl; [eauto | discriminate]. Qed.

Lemma rfold_app {A B} (f : A -> B -> result A) (a : A) (l1 l2 : list B) :
  rfold f a (l1 ++ l2) = let? a' := rfold f a l1 in rfold f a' l2.
Proof.
  revert a. induction l1 as [|b l1 IH]; intros a; simpl; [reflexivity|].
  destruct (f a b) as [a'|e]; simpl; [apply IH | reflexivity].
Qed.

Lemma rfold_concat {B} (g : B -> string) (acc : string) (l : list B) :
  rfold (fun lines m => let? line := Ok (g m) in Ok (lines +:+ line)) acc l
  = Ok (acc +:+ String.concat "" (map g l)).
Proof.
  revert acc. induction l as [|b l IH]; intros acc; simpl.
  - now rewrite str_app_nil_r.
  - rewrite IH, str_app_assoc. do 2 f_equal.
    destruct l; [now rewrite str_app_nil_r | reflexivity].
Qed.

Lemma level_of_cases (bit : Z) : level_of bit = "0" \/ level_of bit = "vvdd".
Proof. unfold level_of. destruct (bit =? 0); auto. Qed.

Lemma level_of_not_na (bit : Z) : level_of bit <> "na".
Proof. destruct (level_of_cases bit) as [-> | ->]; discriminate. Qed.

(** ** The width check of [Register.update] *)

(** C8: [update] raises the width-overflow [ValueError] exactly when
    [value.bit_length() > width], and then leaves the whole signal, its
    timeline and its last-known state included, as it was. *)
Theorem update_fails_iff_too_wide (self : Register) (timestamp value : Z) :
  ((exists e, fst (update timestamp value self) = Raise e) <-> width self < bit_length value)
  /\ (width self < bit_length value ->
      update timestamp value self
      = (Raise (ValueError ("Value " +:+ pretty value +:+ " requires more than " +:+
                            pretty (width self) +:+ " bits.")), self))
  /\ (bit_length value <= width self ->
      exists bits,
        int2bit_array self value = Ok bits /\
        fst (update timestamp value self) = Ok tt /\
        data (snd (update timestamp value self)) = bits /\
        dict_get (timing_assignments (snd (update timestamp value self))) timestamp = Some bits).
Proof.
  unfold update, bind, get, lift, put, int2bit_array.
  destruct (Z.ltb_spec (width self) (bit_length value)) as [Hw | Hw]; simpl.
  - split; [|split].
    + split; [intros _; exact Hw | intros _; eexists; reflexivity].
    + intros _. reflexivity.
    + intros Hle. lia.
  - split; [|split].
    + split; [intros [e He]; discriminate | intros Hlt; lia].
    + intros Hlt. lia.
    + intros _. eexists. split; [reflexivity|]. split; [reflexivity|]. split; [reflexivity|].
      generalize (timing_assignments self). intros d.
      induction d as [|[k v] d IH]; simpl.
      * destruct (decide (timestamp = timestamp)); [reflexivity | congruence].
      * destruct (decide (k = timestamp)) as [-> | Hne]; simpl.
        -- destruct (decide (timestamp = timestamp)); [reflexivity | congruence].
        -- destruct (decide (k = timestamp)); [congruence | exact IH].
Qed.

(** The store only changes at the entry of the tick. *)
Lemma update_other_ticks (self : Register) (timestamp value t' : Z) :
  t' <> timestamp ->
  dict_get (timing_assignments (snd (update timestamp value self))) t'
  = dict_get (timing_assignments self) t'.
Proof.
  intros Hne. unfold update, bind, get, lift, put.
  destruct (int2bit_array self value) as [bits|e]; simpl; [|reflexivity].
  induction (timing_assignments self) as [|[k v] d IH]; simpl.
  - destruct (decide (timestamp = t')); [congruence | reflexivity].
  - destruct (decide (k = timestamp)) as [-> | Hk]; simpl.
    + destruct (decide (timestamp = t')); [congruence | reflexivity].
    + destruct (decide (k = t')); [reflexivity | exact IH].
Qed.

(** ** The PWL emitter *)

Section EmitterProperties.
Context `{Sympy SymExpr}.
Variable self : Register.
Variable timescale : option TimeScale.
Variable expr : gmap string Z.

Lemma pwl_step_same_level (m : nat) (line : string) (t : Z) (b : list Z) (x : Z) :
  b !! m = Some x ->
  pwl_step self timescale expr m (level_of x, line) (t, b) = Ok (level_of x, line).
Proof.
  intros Hb. unfold pwl_step, index_bit. rewrite Hb. simpl.
  rewrite bool_decide_eq_false_2 by apply level_of_not_na.
  rewrite bool_decide_eq_false_2 by (intros Hne; now apply Hne).
  reflexivity.
Qed.

Lemma pwl_step_level (m : nat) (st st' : string * string) (t : Z) (b : list Z) (x : Z) :
  b !! m = Some x ->
  pwl_step self timescale expr m st (t, b) = Ok st' -> fst st' = level_of x.
Proof.
  intros Hb. destruct st as [p line]. unfold pwl_step, index_bit. rewrite Hb. simpl.
  intros Hs. apply rbind_ok_inv in Hs as (line' & _ & [= <-]). reflexivity.
Qed.
End EmitterProperties.

(** C9: of two consecutive ticks whose levels at a bit position are equal,
    the second emits nothing: the walk returns the state it was given, and
    the text of the whole timeline is the text of the timeline without that
    tick. *)
Theorem transition_compression `{Sympy SymExpr} (self : Register) (timescale : option TimeScale)
    (expr : gmap string Z) (m : nat) (st : string * string)
    (tl1 tl2 : list (Z * list Z)) (t1 t2 : Z) (b1 b2 : list Z) (x1 x2 : Z) :
  b1 !! m = Some x1 -> b2 !! m = Some x2 -> level_of x1 = level_of x2 ->
  (forall line, pwl_step self timescale expr m (level_of x1, line) (t2, b2)
                = Ok (level_of x1, line))
  /\ rfold (pwl_step self timescale expr m) st (tl1 ++ (t1, b1) :: (t2, b2) :: tl2)
     = rfold (pwl_step self timescale expr m) st (tl1 ++ (t1, b1) :: tl2).
Proof.
  intros H1 H2 Hlv. split.
  - intros line. rewrite Hlv. now apply pwl_step_same_level.
  - rewrite !rfold_app.
    destruct (rfold _ st tl1) as [st1|e]; cbn [rbind rfold]; [|reflexivity].
    destruct (pwl_step self timescale expr m st1 (t1, b1)) as [[p line]|e] eqn:Hs;
      cbn [rbind rfold]; [|reflexivity].
    apply (pwl_step_level _ _ _ _ _ _ _ _ _ H1) in Hs as Hp. simpl in Hp. subst p.
    rewrite Hlv. rewrite (pwl_step_same_level _ _ _ _ _ _ _ _ H2). reflexivity.
Qed.

Lemma transition_compression_witness :
  rfold (pwl_step (H := sympy_standin) clk_reg (Some ns1) (expr_of 0 0) 0) ("na", "")
        ([(0, [0])] ++ (5, [1]) :: (7, [1]) :: [(9, [0])])
  = rfold (pwl_step (H := sympy_standin) clk_reg (Some ns1) (expr_of 0 0) 0) ("na", "")
          ([(0, [0])] ++ (5, [1]) :: [(9, [0])]).
Proof.
  apply (transition_compression (H := sympy_standin) clk_reg (Some ns1) (expr_of 0 0) 0
           ("na", "") [(0, [0])] [(9, [0])] 5 7 [1] [1] 1 1); reflexivity.
Defined.

(** C10: an export-safe signal with an empty timeline is not omitted: each of
    its bit positions gives the header closed at once by [)], with no point
    inside. *)
Theorem empty_timeline_blocks `{Sympy SymExpr} (self : Register) (timescale : option TimeScale)
    (expr : gmap string Z) :
  export_pwl_safe self = true -> timing_assignments self = [] ->
  generate_piecewise_linear self timescale expr
  = Ok (String.concat ""
          (map (fun m => "V" +:+ pwl_name self m +:+ " " +:+ pwl_name self m +:+ " 0 pwl(" +:+
                         ")" +:+ nl +:+ nl)
               (seq 0 (length (data self))))).
Proof.
  intros Hsafe Htl. unfold generate_piecewise_linear. rewrite Hsafe. simpl.
  unfold pwl_block, pwl_walk. rewrite Htl. simpl.
  rewrite (rfold_concat (fun m => pwl_header (pwl_name self m) +:+ ")" +:+ nl +:+ nl)).
  rewrite str_app_nil_l. do 2 f_equal.
  apply map_ext. intros m. unfold pwl_header. now rewrite !str_app_assoc.
Qed.

Lemma empty_timeline_blocks_witness :
  new_Register ClsRegister "DATA" 2 = Ok data2_fresh /\
  generate_piecewise_linear (H := sympy_standin) data2_fresh (Some ns1) (expr_of 0 0)
  = Ok ("VDATA[1] DATA[1] 0 pwl()" +:+ nl +:+ nl +:+ "VDATA[0] DATA[0] 0 pwl()" +:+ nl +:+ nl).
Proof.
  split; [reflexivity|].
  rewrite (empty_timeline_blocks (H := sympy_standin)); reflexivity.
Defined.




(** ** [TimeScale.convert_to] *)

Lemma convert_to_ignores_base_num (n n' : Z) (u : string) (timestamp : Z) (unit : string) :
  convert_to {| base_num := n; base_unit := u |} timestamp unit
  = convert_to {| base_num := n'; base_unit := u |} timestamp unit.
Proof. reflexivity. Qed.

(** C2 at the time scale [10 ns]: 5 ticks are converted to [5.0] ns by the
    code, where [round(ticks * base_num * factor, 3)] is [50.0]. *)
Theorem convert_to_drops_base_num :
  convert_to ns10 5 "ns" = Ok (5 # 1)%Q /\ spec_convert ns10 5 "ns" = Ok (50 # 1)%Q.
Proof. split; vm_compute; reflexivity. Qed.

(** ** Reasoning about the state-and-exception monad *)

(** [hoare P m Q]: from a state satisfying [P], [m] ends, with a value or an
    exception, in a state that [Q] relates to that end. *)
Definition hoare {S A} (P : S -> Prop) (m : M S A) (Q : result A -> S -> Prop) : Prop :=
  forall s, P s -> Q (fst (m s)) (snd (m s)).

(** [m] keeps [I], whether it returns or raises. *)
Definition preserves {S A} (I : S -> Prop) (m : M S A) : Prop :=
  hoare I m (fun _ s => I s).

Lemma hoare_bind {S A B} (P : S -> Prop) (m : M S A) (k : A -> M S B)
    (Q1 : result A -> S -> Prop) (Q2 : result B -> S -> Prop) :
  hoare P m Q1 ->
  (forall a, hoare (Q1 (Ok a)) (k a) Q2) ->
  (forall e s, Q1 (Raise e) s -> Q2 (Raise e) s) ->
  hoare P (bind m k) Q2.
Proof.
  intros Hm Hk He s Hs. specialize (Hm s Hs). unfold bind.
  destruct (m s) as [[a|e] s']; simpl in *.
  - now apply Hk.
  - now apply He.
Qed.

Lemma hoare_weaken {S A} (P P' : S -> Prop) (m : M S A) (Q Q' : result A -> S -> Prop) :
  hoare P' m Q' -> (forall s, P s -> P' s) -> (forall r s, Q' r s -> Q r s) -> hoare P m Q.
Proof. intros Hm HP HQ s Hs. apply HQ, Hm, HP, Hs. Qed.

Lemma preserves_bind {S A B} (I : S -> Prop) (m : M S A) (k : A -> M S B) :
  preserves I m -> (forall a, preserves I (k a)) -> preserves I (bind m k).
Proof. intros Hm Hk. eapply hoare_bind; [exact Hm | exact Hk | auto]. Qed.

Lemma preserves_ret {S A} (I : S -> Prop) (a : A) : preserves I (ret a).
Proof. intros s Hs. exact Hs. Qed.

Lemma preserves_raise {S A} (I : S -> Prop) (e : exn) : preserves I (@raise S A e).
Proof. intros s Hs. exact Hs. Qed.

Lemma preserves_lift {S A} (I : S -> Prop) (r : result A) : preserves I (@lift S A r).
Proof. intros s Hs. exact Hs. Qed.

Lemma preserves_get {S} (I : S -> Prop) : preserves I (@get S).
Proof. intros s Hs. exact Hs. Qed.

Lemma preserves_none_attr {S A} (I : S -> Prop) (attr : string) : preserves I (@none_attr S A attr).
Proof. intros s Hs. exact Hs. Qed.

Lemma preserves_modify {S} (I : S -> Prop) (f : S -> S) :
  (forall s, I s -> I (f s)) -> preserves I (modify f).
Proof. intros Hf s Hs. now apply Hf. Qed.

(** A method that reads the state first. *)
Lemma preserves_get_bind {S B} (I : S -> Prop) (k : S -> M S B) :
  (forall s0, preserves I (k s0)) -> preserves I (bind get k).
Proof. intros Hk. apply preserves_bind; [apply preserves_get | exact Hk]. Qed.

Create HintDb keeps discriminated.
#[local] Hint Resolve preserves_ret preserves_raise preserves_lift preserves_get
  preserves_none_attr : keeps.

(** The projections of the lifted methods. *)
Lemma in_world_eq {A} (m : M World A) (fr : Frame) :
  in_world m fr
  = (fst (m (world fr)),
     {| world := snd (m (world fr)); scope := scope fr; _timestamp := _timestamp fr |}).
Proof. unfold in_world. destruct (m (world fr)); reflexivity. Qed.

Lemma preserves_in_world {A} (I : World -> Prop) (m : M World A) :
  preserves I m -> preserves (fun fr => I (world fr)) (in_world m).
Proof. intros Hm fr Hfr. rewrite in_world_eq. simpl. now apply Hm. Qed.

(** An invariant of the frame that only speaks of the local [scope]. *)
Lemma in_world_keeps_scope {A} (v : option string) (m : M World A) :
  preserves (fun fr => scope fr = v) (in_world m).
Proof. intros fr Hfr. rewrite in_world_eq. exact Hfr. Qed.

Lemma preserves_set_timestamp (v : option string) (t : Z) :
  preserves (fun fr => scope fr = v) (set_timestamp t).
Proof. intros fr Hfr. exact Hfr. Qed.

#[local] Hint Resolve in_world_keeps_scope preserves_set_timestamp : keeps.

Ltac keeps :=
  repeat first
    [ progress eauto with keeps
    | apply preserves_bind; [|intros ?]
    | match goal with
      | |- preserves _ (match ?x with _ => _ end) => destruct x
      end ].

(** ** Scope close *)

Lemma parse_token_keeps_no_scope (full : bool) (_toc : Token) :
  (forall ident, _toc <> SCOPE ident) ->
  preserves (fun fr => scope fr = None) (parse_token full _toc).
Proof.
  intros Hns. destruct _toc; unfold parse_token, declare, timescale_base_unit; keeps.
  - now destruct (Hns ident).
  - intros fr _. reflexivity.
Qed.

Lemma parse_loop_keeps_no_scope (full : bool) (items : list LexItem) :
  (forall ident, Yield (SCOPE ident) ∉ items) ->
  preserves (fun fr => scope fr = None) (parse_loop full items).
Proof.
  induction items as [|[tok|e] items IH]; intros Hns; simpl.
  - apply preserves_ret.
  - apply preserves_bind.
    + apply parse_token_keeps_no_scope. intros ident ->. apply (Hns ident). left.
    + intros _. apply IH. intros ident Hin. apply (Hns ident). now right.
  - apply preserves_raise.
Qed.

(** C5, as the specification states it, fails: after a scope is closed the
    document still has a current module, and a variable declared next is
    attached to it. *)
Lemma scope_close_keeps_current_module :
  (exists fr, parse_loop false closed_scope_trace new_Frame = (Ok tt, fr)
              /\ scope fr = None
              /\ current_module (top (world fr)) = Some 0%nat
              /\ ~ no_scope_current fr)
  /\ (exists fr, parse_loop false (closed_scope_trace ++ [Yield (VAR clk_decl)]) new_Frame
                 = (Ok tt, fr)
                 /\ modules (world fr) = [{| mname := "tb"; variables := [("!", 0%nat)] |}]).
Proof.
  split; eexists; (split; [vm_compute; reflexivity|]).
  - split; [reflexivity|]. split; [reflexivity|]. intros [_ Hcm]. discriminate.
  - reflexivity.
Qed.

(** ** What [parse] ends in *)

Definition not_assertion {A} (r : result A) : Prop :=
  forall msg, r <> Raise (AssertionError msg).

(** [m] never raises an [AssertionError] of its own. *)
Definition no_assert {S A} (m : M S A) : Prop :=
  forall s, not_assertion (fst (m s)).

Lemma not_assertion_ok {A} (a : A) : not_assertion (Ok a).
Proof. intros msg. discriminate. Qed.

Lemma no_assert_ret {S A} (a : A) : no_assert (@ret S A a).
Proof. intros s. apply not_assertion_ok. Qed.

Lemma no_assert_get {S} : no_assert (@get S).
Proof. intros s. apply not_assertion_ok. Qed.

Lemma no_assert_put {S} (s0 : S) : no_assert (put s0).
Proof. intros s. apply not_assertion_ok. Qed.

Lemma no_assert_modify {S} (f : S -> S) : no_assert (modify f).
Proof. intros s. apply not_assertion_ok. Qed.

Lemma no_assert_lift {S A} (r : result A) : not_assertion r -> no_assert (@lift S A r).
Proof. intros Hr s. exact Hr. Qed.

Lemma no_assert_none_attr {S A} (attr : string) : no_assert (@none_attr S A attr).
Proof. intros s msg. discriminate. Qed.

Lemma no_assert_unmodelled {S A} : no_assert (@raise S A Unmodelled).
Proof. intros s msg. discriminate. Qed.

Lemma no_assert_exit {S A} (code : Z) : no_assert (@raise S A (SystemExit code)).
Proof. intros s msg. discriminate. Qed.

Lemma no_assert_bind {S A B} (m : M S A) (k : A -> M S B) :
  no_assert m -> (forall a, no_assert (k a)) -> no_assert (bind m k).
Proof.
  intros Hm Hk s. unfold bind. specialize (Hm s).
  destruct (m s) as [[a|e] s']; simpl in *; [apply Hk|].
  intros msg [= ->]. now apply (Hm msg).
Qed.

Lemma no_assert_in_world {A} (m : M World A) : no_assert m -> no_assert (in_world m).
Proof. intros Hm fr. rewrite in_world_eq. apply Hm. Qed.

Lemma no_assert_with_reg {A} (r : nat) (m : M Register A) :
  no_assert m -> no_assert (with_reg r m).
Proof.
  intros Hm w. unfold with_reg. destruct (registers w !! r) as [reg|].
  - specialize (Hm reg). destruct (m reg). exact Hm.
  - intros msg. discriminate.
Qed.

Lemma no_assert_with_mod {A} (r : nat) (m : M Module_ A) :
  no_assert m -> no_assert (with_mod r m).
Proof.
  intros Hm w. unfold with_mod. destruct (modules w !! r) as [md|].
  - specialize (Hm md). destruct (m md). exact Hm.
  - intros msg. discriminate.
Qed.

Lemma no_assert_alloc_reg (reg : Register) : no_assert (alloc_reg reg).
Proof. intros w. apply not_assertion_ok. Qed.

Lemma no_assert_alloc_mod (md : Module_) : no_assert (alloc_mod md).
Proof. intros w. apply not_assertion_ok. Qed.

(** The exceptions of the operations that are lifted into the monads. *)
Lemma int2bit_array_not_assertion self value : not_assertion (int2bit_array self value).
Proof. unfold int2bit_array. intros msg. destruct (_ <? _); discriminate. Qed.

Lemma new_Register_not_assertion c n w : not_assertion (new_Register c n w).
Proof. unfold new_Register. intros msg. destruct (_ <? _); discriminate. Qed.

Lemma py_int_not_assertion s : not_assertion (py_int s).
Proof.
  unfold py_int. intros msg. destruct (split_sign _) as [neg body].
  destruct (digit_group body false); discriminate.
Qed.

Lemma unpack2_not_assertion l : not_assertion (unpack2 l).
Proof. intros msg. destruct l as [|a [|b [|c l]]]; discriminate. Qed.

Lemma convert_not_assertion ts t u : not_assertion (timescale_convert_to ts t u).
Proof.
  intros msg. unfold timescale_convert_to, convert_to. destruct ts as [ts|]; [|discriminate].
  destruct (_unit_conversion !! u); [|discriminate].
  destruct (_unit_conversion !! base_unit ts); discriminate.
Qed.

Create HintDb noassert discriminated.
#[local] Hint Resolve no_assert_ret no_assert_get no_assert_put no_assert_modify
  no_assert_none_attr no_assert_unmodelled no_assert_exit no_assert_alloc_reg
  no_assert_alloc_mod int2bit_array_not_assertion new_Register_not_assertion
  py_int_not_assertion unpack2_not_assertion convert_not_assertion : noassert.

Ltac noassert :=
  repeat first
    [ progress eauto with noassert
    | apply no_assert_bind; [|intros ?]
    | apply no_assert_in_world
    | apply no_assert_with_reg
    | apply no_assert_with_mod
    | apply no_assert_lift
    | match goal with
      | |- no_assert (match ?x with _ => _ end) => destruct x
      end ].

Lemma update_timing_assignment_no_assert timestamp ident value full :
  no_assert (update_timing_assignment timestamp ident value full).
Proof.
  unfold update_timing_assignment, is_reg_top_module, top_variables, tag, update. noassert.
Qed.

Lemma add_reg_no_assert reg ident : no_assert (add_reg reg ident).
Proof. unfold add_reg, set_top, add_signal. noassert. Qed.

Lemma update_module_no_assert scope : no_assert (update_module scope).
Proof. unfold update_module, set_top. noassert. Qed.

#[local] Hint Resolve update_timing_assignment_no_assert add_reg_no_assert
  update_module_no_assert : noassert.

Lemma parse_token_no_assert (full : bool) (_toc : Token) : no_assert (parse_token full _toc).
Proof.
  destruct _toc;
    unfold parse_token, declare, timescale_base_unit, set_top, set_scope, set_timestamp;
    noassert.
Qed.

Lemma parse_loop_app (full : bool) (l1 l2 : list LexItem) (fr : Frame) :
  parse_loop full (l1 ++ l2) fr
  = match parse_loop full l1 fr with
    | (Ok _, fr') => parse_loop full l2 fr'
    | (Raise e, fr') => (Raise e, fr')
    end.
Proof.
  revert fr. induction l1 as [|[tok|e] l1 IH]; intros fr; simpl; [reflexivity | | reflexivity].
  unfold bind. destruct (parse_token full tok fr) as [[u|e] fr1]; [apply IH | reflexivity].
Qed.

Lemma parse_loop_assert_inv (full : bool) (items : list LexItem) (fr : Frame) (msg : string) :
  fst (parse_loop full items fr) = Raise (AssertionError msg) ->
  exists pre rest fr',
    items = (map Yield pre ++ Throw (AssertionError msg) :: rest)%list /\
    parse_loop full (map Yield pre) fr = (Ok tt, fr').
Proof.
  revert fr. induction items as [|[tok|e] items IH]; intros fr; simpl.
  - discriminate.
  - unfold bind. destruct (parse_token full tok fr) as [[[]|e] fr1] eqn:Htok.
    + intros Hr. destruct (IH fr1 Hr) as (pre & rest & fr' & -> & Hpre).
      exists (tok :: pre), rest, fr'. split; [reflexivity|].
      simpl. unfold bind. now rewrite Htok.
    + simpl. intros [= ->]. exfalso.
      apply (parse_token_no_assert full tok fr msg). now rewrite Htok.
  - intros [= ->]. exists [], items, fr. split; reflexivity.
Qed.

(** C4, as the code has it: [parse] returns the accumulated document exactly
    when the token source ends with nothing raised; it reports a
    [ParseFailure] with the message exactly when the lexer surfaces an
    assertion after tokens that were interpreted without a raise; and every
    other exception, of the lexer or of the interpreter, leaves [parse]. *)
Theorem parse_outcomes (items : list LexItem) :
  ((exists doc, parse items = Document doc) <->
   (exists fr, parse_loop false items new_Frame = (Ok tt, fr)))
  /\ (forall msg,
        parse items = ParseFailure msg <->
        (exists pre rest fr,
            items = (map Yield pre ++ Throw (AssertionError msg) :: rest)%list /\
            parse_loop false (map Yield pre) new_Frame = (Ok tt, fr)))
  /\ (forall e,
        parse items = Escapes e <->
        (fst (parse_loop false items new_Frame) = Raise e /\
         forall msg, e <> AssertionError msg)).
Proof.
  unfold parse, _parse_group. split; [|split].
  - destruct (parse_loop false items new_Frame) as [[[]|e] fr]; simpl; split.
    + intros _. now exists fr.
    + intros _. now eexists.
    + intros [doc Hdoc]. destruct e; discriminate.
    + intros [fr' Hfr']. discriminate.
  - intros msg. split.
    + intros Hp. apply (parse_loop_assert_inv false).
      destruct (parse_loop false items new_Frame) as [[[]|e] fr]; simpl in *; [discriminate|].
      destruct e; try discriminate. now injection Hp as ->.
    + intros (pre & rest & fr & -> & Hpre). rewrite parse_loop_app, Hpre. reflexivity.
  - intros e. destruct (parse_loop false items new_Frame) as [[[]|e'] fr]; simpl; split.
    + discriminate.
    + intros [He _]. discriminate.
    + intros He. destruct e'; try discriminate; injection He as <-;
        (split; [reflexivity | intros msg'; discriminate]).
    + intros [[= ->] Hne]. destruct e; try reflexivity. now destruct (Hne msg).
Qed.

(** C4, as the specification states it, fails: a value too wide for its
    signal raises a [ValueError] that [parse] does not catch, so the call
    ends neither with a document nor with a [ParseFailure]. *)
Lemma parse_third_way :
  parse too_wide_trace = Escapes (ValueError "Value 2 requires more than 1 bits.")
  /\ ~ document_or_failure (parse too_wide_trace).
Proof.
  assert (Hp : parse too_wide_trace = Escapes (ValueError "Value 2 requires more than 1 bits."))
    by (vm_compute; reflexivity).
  split; [exact Hp|]. rewrite Hp. intros [[doc Hd] | [msg Hm]]; discriminate.
Qed.

(** ** Ambiguous values *)

(** The [Register] object [r] is marked as not safe to export. *)
Definition unsafe_at (r : nat) (w : World) : Prop :=
  exists reg, registers w !! r = Some reg /\ export_pwl_safe reg = false.

Lemma preserves_in_world_frame {A} (I : World -> Prop) (m : M World A) :
  preserves I m -> preserves (fun fr => I (world fr)) (in_world m).
Proof. apply preserves_in_world. Qed.

Lemma with_reg_keeps_unsafe {A} (r r' : nat) (m : M Register A) :
  preserves (fun reg => export_pwl_safe reg = false) m ->
  preserves (unsafe_at r) (with_reg r' m).
Proof.
  intros Hm w (reg & Hreg & Hsafe). unfold with_reg.
  destruct (registers w !! r') as [reg'|] eqn:Hr'; [|now exists reg].
  destruct (m reg') as [a reg''] eqn:Hmr. unfold unsafe_at. simpl.
  destruct (decide (r' = r)) as [-> | Hne].
  - exists reg''. split.
    + apply list_lookup_insert_eq. now apply lookup_lt_Some in Hreg.
    + assert (reg' = reg) as -> by congruence.
      specialize (Hm reg Hsafe). now rewrite Hmr in Hm.
  - exists reg. split; [|exact Hsafe]. now rewrite list_lookup_insert_ne.
Qed.

Lemma tag_true_unsafe : preserves (fun reg => export_pwl_safe reg = false) (tag true).
Proof. intros reg _. reflexivity. Qed.

Lemma update_keeps_flag (timestamp value : Z) (b : bool) :
  preserves (fun reg => export_pwl_safe reg = b) (update timestamp value).
Proof.
  intros reg Hreg. unfold update, bind, get, lift, put.
  destruct (int2bit_array reg value); exact Hreg.
Qed.

Lemma with_mod_keeps_registers {A} (I : list Register -> Prop) (r : nat) (m : M Module_ A) :
  preserves (fun w => I (registers w)) (with_mod r m).
Proof.
  intros w Hw. unfold with_mod. destruct (modules w !! r) as [md|]; [|exact Hw].
  destruct (m md). exact Hw.
Qed.

Lemma set_top_keeps_registers (I : list Register -> Prop) (f : VCDModule -> VCDModule) :
  preserves (fun w => I (registers w)) (set_top f).
Proof. intros w Hw. exact Hw. Qed.

Lemma alloc_mod_keeps_registers (I : list Register -> Prop) (md : Module_) :
  preserves (fun w => I (registers w)) (alloc_mod md).
Proof. intros w Hw. exact Hw. Qed.

Lemma alloc_reg_keeps_unsafe (r : nat) (reg : Register) : preserves (unsafe_at r) (alloc_reg reg).
Proof.
  intros w (reg0 & Hreg & Hsafe). exists reg0. split; [|exact Hsafe].
  simpl. rewrite lookup_app_l; [exact Hreg | now apply lookup_lt_Some in Hreg].
Qed.

Ltac keeps_unsafe r :=
  repeat first
    [ progress eauto with keeps
    | apply (with_reg_keeps_unsafe r)
    | apply tag_true_unsafe
    | apply update_keeps_flag
    | apply alloc_reg_keeps_unsafe
    | apply preserves_bind; [|intros ?]
    | apply (with_mod_keeps_registers
               (fun regs => exists reg, regs !! r = Some reg /\ export_pwl_safe reg = false))
    | apply (set_top_keeps_registers
               (fun regs => exists reg, regs !! r = Some reg /\ export_pwl_safe reg = false))
    | apply (alloc_mod_keeps_registers
               (fun regs => exists reg, regs !! r = Some reg /\ export_pwl_safe reg = false))
    | match goal with
      | |- preserves _ (match ?x with _ => _ end) => destruct x
      end ].

Lemma update_timing_assignment_keeps_unsafe (r : nat) timestamp ident value full :
  preserves (unsafe_at r) (update_timing_assignment timestamp ident value full).
Proof.
  unfold update_timing_assignment, is_reg_top_module, top_variables. keeps_unsafe r.
Qed.

Lemma add_reg_keeps_unsafe (r : nat) reg ident : preserves (unsafe_at r) (add_reg reg ident).
Proof. unfold add_reg, add_signal. keeps_unsafe r. Qed.

Lemma update_module_keeps_unsafe (r : nat) scope : preserves (unsafe_at r) (update_module scope).
Proof. unfold update_module. keeps_unsafe r. Qed.

Lemma parse_token_keeps_unsafe (r : nat) (full : bool) (_toc : Token) :
  preserves (fun fr => unsafe_at r (world fr)) (parse_token full _toc).
Proof.
  destruct _toc; unfold parse_token, declare, timescale_base_unit;
    repeat first
      [ progress eauto with keeps
      | apply (preserves_in_world_frame (unsafe_at r))
      | apply update_timing_assignment_keeps_unsafe
      | apply add_reg_keeps_unsafe
      | apply update_module_keeps_unsafe
      | apply alloc_reg_keeps_unsafe
      | apply preserves_bind; [|intros ?]
      | apply (set_top_keeps_registers
                 (fun regs => exists reg, regs !! r = Some reg /\ export_pwl_safe reg = false))
      | match goal with
        | |- preserves _ (match ?x with _ => _ end) => destruct x
        | |- preserves _ (set_scope _) => intros fr Hfr; exact Hfr
        | |- preserves _ (set_timestamp _) => intros fr Hfr; exact Hfr
        end ].
Qed.

Lemma parse_loop_keeps_unsafe (r : nat) (full : bool) (items : list LexItem) :
  preserves (fun fr => unsafe_at r (world fr)) (parse_loop full items).
Proof.
  induction items as [|[tok|e] items IH]; simpl.
  - apply preserves_ret.
  - apply preserves_bind; [apply parse_token_keeps_unsafe | intros _; exact IH].
  - apply preserves_raise.
Qed.

Lemma unsafe_register_emits_nothing `{Sympy SymExpr} (self : Register) timescale expr :
  export_pwl_safe self = false -> generate_piecewise_linear self timescale expr = Ok "".
Proof. intros Hs. unfold generate_piecewise_linear. now rewrite Hs. Qed.

(** The value change with an [x] or a [z], for a signal of the top module. *)
Lemma ambiguous_change_step (full : bool) (fr : Frame) (ident s : string) (tm r : nat)
    (tmod : Module_) (reg : Register) (t : float) (vector : bool) :
  str_contains "x" s || str_contains "z" s = true ->
  module (top (world fr)) = Some tm ->
  modules (world fr) !! tm = Some tmod ->
  dict_get (variables tmod) ident = Some r ->
  registers (world fr) !! r = Some reg ->
  timescale_convert_to (timescale (top (world fr))) (_timestamp fr) "ns" = Ok t ->
  parse_token full (if vector then CHANGE_VECTOR ident (VStr s) else CHANGE_SCALAR ident (VStr s)) fr
  = (Ok tt,
     {| world := {| registers := <[r := snd (tag true reg)]> (registers (world fr));
                    modules := modules (world fr);
                    top := top (world fr) |};
        scope := scope fr; _timestamp := _timestamp fr |}).
Proof.
  intros Hxz Htm Htmod Hget Hreg Ht.
  assert (Htok : parse_token full (CHANGE_SCALAR ident (VStr s)) fr
                 = parse_token full (if vector then CHANGE_VECTOR ident (VStr s)
                                     else CHANGE_SCALAR ident (VStr s)) fr)
    by (destruct vector; reflexivity).
  rewrite <- Htok. clear Htok.
  unfold parse_token. rewrite Hxz.
  unfold bind at 1. unfold ret at 1. unfold bind at 1. unfold get at 1.
  rewrite in_world_eq.
  assert (Hupd : update_timing_assignment (_timestamp fr) ident (VStr s) full (world fr)
                 = (Ok tt, {| registers := <[r := snd (tag true reg)]> (registers (world fr));
                              modules := modules (world fr);
                              top := top (world fr) |})).
  { unfold update_timing_assignment, is_reg_top_module, top_variables.
    unfold dict_contains, with_reg, bind, get, ret, lift.
    destruct full;
      repeat (progress (cbn -[timescale_convert_to tag];
                        rewrite ?Htm, ?Htmod, ?Hget, ?Ht, ?Hreg));
      reflexivity. }
  rewrite Hupd. reflexivity.
Qed.

(** C6: a value change that carries an [x] or a [z] value, for a signal of
    the top module, stores no timeline entry and clears the signal's
    [export_pwl_safe]; no other signal changes; and whatever the tokens
    before and after, the flag stays cleared, so that the emitter produces
    no text for the signal. *)
Theorem ambiguous_value_excludes_signal `{Sympy SymExpr} (full : bool) (fr : Frame) (ident s : string)
    (tm r : nat) (tmod : Module_) (reg : Register) (t : float) (vector : bool)
    (items : list LexItem) :
  str_contains "x" s || str_contains "z" s = true ->
  module (top (world fr)) = Some tm ->
  modules (world fr) !! tm = Some tmod ->
  dict_get (variables tmod) ident = Some r ->
  registers (world fr) !! r = Some reg ->
  timescale_convert_to (timescale (top (world fr))) (_timestamp fr) "ns" = Ok t ->
  let _toc := if vector then CHANGE_VECTOR ident (VStr s) else CHANGE_SCALAR ident (VStr s) in
  let fr1 := snd (parse_token full _toc fr) in
  let fr2 := snd (parse_loop full items fr1) in
  fst (parse_token full _toc fr) = Ok tt
  /\ (exists reg1,
        registers (world fr1) !! r = Some reg1 /\
        timing_assignments reg1 = timing_assignments reg /\
        data reg1 = data reg /\
        export_pwl_safe reg1 = false)
  /\ (forall r', r' <> r -> registers (world fr1) !! r' = registers (world fr) !! r')
  /\ (exists reg2,
        registers (world fr2) !! r = Some reg2 /\
        export_pwl_safe reg2 = false /\
        forall timescale expr, generate_piecewise_linear reg2 timescale expr = Ok "").
Proof.
  intros Hxz Htm Htmod Hget Hreg Ht _toc fr1 fr2.
  pose proof (ambiguous_change_step full fr ident s tm r tmod reg t vector
                Hxz Htm Htmod Hget Hreg Ht) as Hstep.
  fold _toc in Hstep.
  assert (Hr1 : registers (world fr1) !! r = Some (snd (tag true reg))).
  { subst fr1. rewrite Hstep. simpl.
    apply list_lookup_insert_eq. now apply lookup_lt_Some in Hreg. }
  split; [now rewrite Hstep|]. split; [|split].
  - exists (snd (tag true reg)). split; [exact Hr1|]. repeat split.
  - intros r' Hne. subst fr1. rewrite Hstep. simpl. now rewrite list_lookup_insert_ne.
  - assert (Hu : unsafe_at r (world fr1)) by (eexists; split; [exact Hr1 | reflexivity]).
    destruct (parse_loop_keeps_unsafe r full items fr1 Hu) as (reg2 & Hreg2 & Hsafe2).
    exists reg2. split; [exact Hreg2|]. split; [exact Hsafe2|].
    intros timescale expr. now apply unsafe_register_emits_nothing.
Qed.

(** ** The top module and the side list *)

(** The [Register] objects that a module refers to. *)
Definition refs (md : Module_) : list nat := map snd (variables md).

(** The shape of the store: every reference of a module is allocated, no
    [Register] is referred to by two modules, and the top module is not on
    the side list. *)
Definition store_inv (nregs : nat) (mods : list Module_) (tmo : option nat)
    (shadow : list nat) : Prop :=
  (forall i md r, mods !! i = Some md -> r ∈ refs md -> (r < nregs)%nat)
  /\ (forall i j mi mj r,
        mods !! i = Some mi -> mods !! j = Some mj -> r ∈ refs mi -> r ∈ refs mj -> i = j)
  /\ (forall tm, tmo = Some tm -> (tm ∉ shadow) /\ (tm < length mods)%nat)
  /\ (forall s, s ∈ shadow -> (s < length mods)%nat).

Definition store_ok (w : World) : Prop :=
  store_inv (length (registers w)) (modules w) (module (top w)) (_shadow_modules (top w)).

Lemma dict_set_values {K V} `{EqDecision K} (d : list (K * V)) (k : K) (v v' : V) :
  v' ∈ map snd (dict_set d k v) -> v' ∈ map snd d \/ v' = v.
Proof.
  induction d as [|[k0 v0] d IH]; simpl.
  - intros Hin. apply list_elem_of_singleton in Hin. now right.
  - destruct (decide (k0 = k)) as [-> | Hne]; simpl; intros Hin;
      apply elem_of_cons in Hin as [-> | Hin].
    + now right.
    + left. now right.
    + left. now left.
    + destruct (IH Hin) as [Hd | ->]; [left; now right | now right].
Qed.

Lemma store_ok_with_reg {A} (r : nat) (m : M Register A) : preserves store_ok (with_reg r m).
Proof.
  intros w Hw. unfold with_reg. destruct (registers w !! r) as [reg|]; [|exact Hw].
  destruct (m reg) as [a reg']. unfold store_ok. simpl. rewrite length_insert. exact Hw.
Qed.

Lemma store_ok_set_top (f : VCDModule -> VCDModule) :
  (forall t, module (f t) = module t) ->
  (forall t, _shadow_modules (f t) = _shadow_modules t) ->
  preserves store_ok (set_top f).
Proof.
  intros Hm Hs w Hw. unfold store_ok, set_top, modify. simpl. rewrite Hm, Hs. exact Hw.
Qed.

Lemma store_ok_alloc_reg (reg : Register) : preserves store_ok (alloc_reg reg).
Proof.
  intros w (Hb & Hu & Ht & Hs). unfold store_ok, store_inv. simpl. rewrite length_app. simpl.
  split; [|split; [|split]]; try assumption.
  intros i md r Hi Hr. specialize (Hb i md r Hi Hr). lia.
Qed.

Lemma store_ok_update_module (scope : string) : preserves store_ok (update_module scope).
Proof.
  intros w Hw. pose proof Hw as (Hb & Hu & Ht & Hs). unfold update_module, bind, get.
  assert (Hnew_b : forall i md r,
             (modules w ++ [new_Module scope]) !! i = Some md -> r ∈ refs md ->
             (r < length (registers w))%nat).
  { intros i md r Hi Hr. apply lookup_app_Some in Hi as [Hi | [_ Hi]]; [now apply (Hb i md r)|].
    apply list_lookup_singleton_Some in Hi as [_ <-]. now apply elem_of_nil in Hr. }
  assert (Hnew_u : forall i j mi mj r,
             (modules w ++ [new_Module scope]) !! i = Some mi ->
             (modules w ++ [new_Module scope]) !! j = Some mj ->
             r ∈ refs mi -> r ∈ refs mj -> i = j).
  { intros i j mi mj r Hi Hj Hri Hrj.
    apply lookup_app_Some in Hi as [Hi | [_ Hi]];
      [|apply list_lookup_singleton_Some in Hi as [_ <-]; now apply elem_of_nil in Hri].
    apply lookup_app_Some in Hj as [Hj | [_ Hj]];
      [|apply list_lookup_singleton_Some in Hj as [_ <-]; now apply elem_of_nil in Hrj].
    now apply (Hu i j mi mj r). }
  cbn [fst snd].
  destruct (module (top w)) as [tm|] eqn:Htm in |- *.
  - destruct (modules w !! tm) as [tmod|]; [|exact Hw].
    destruct (bool_decide (mname tmod <> scope)); [|exact Hw].
    unfold store_ok, store_inv. simpl. rewrite Htm, length_app. simpl.
    split; [exact Hnew_b|]. split; [exact Hnew_u|]. split.
    + intros tm' [= <-]. destruct (Ht tm Htm) as [Hnot Hlt]. split; [|lia].
      intros Hin. apply elem_of_app in Hin as [Hin | Hin]; [now apply Hnot|].
      apply list_elem_of_singleton in Hin. lia.
    + intros s Hin. apply elem_of_app in Hin as [Hin | Hin].
      * specialize (Hs s Hin). lia.
      * apply list_elem_of_singleton in Hin. lia.
  - unfold store_ok, store_inv. simpl. rewrite length_app. simpl.
    split; [exact Hnew_b|]. split; [exact Hnew_u|]. split.
    + intros tm' [= <-]. split; [|lia]. intros Hin. specialize (Hs _ Hin). lia.
    + intros s Hin. specialize (Hs s Hin). lia.
Qed.

(** A [Register] object that no module refers to yet. *)
Definition fresh_ref (r : nat) (w : World) : Prop :=
  (r < length (registers w))%nat /\
  forall i md, modules w !! i = Some md -> r ∉ refs md.

Lemma store_ok_add_reg (r : nat) (ident : string) (w : World) :
  store_ok w -> fresh_ref r w -> store_ok (snd (add_reg r ident w)).
Proof.
  intros Hw [Hlt Hfresh]. pose proof Hw as (Hb & Hu & Ht & Hs). unfold add_reg, bind, get.
  cbn -[dict_set].
  destruct (registers w !! r) as [reg|]; [|exact Hw].
  cbn -[dict_set].
  destruct (current_module (top w)) as [cm|]; [|exact Hw].
  unfold with_mod. cbn -[dict_set].
  destruct (modules w !! cm) as [md|] eqn:Hcm in |- *; [|exact Hw].
  unfold store_ok, store_inv. cbn -[dict_set]. rewrite length_insert.
  assert (Hlook : forall i mi r',
             <[cm := {| mname := mname md; variables := dict_set (variables md) ident r |}]>
               (modules w) !! i = Some mi ->
             r' ∈ refs mi ->
             (r' = r /\ i = cm) \/ (exists mi0, modules w !! i = Some mi0 /\ r' ∈ refs mi0)).
  { intros i mi r' Hi Hr'. destruct (decide (cm = i)) as [<- | Hne].
    - rewrite list_lookup_insert_eq in Hi by (now apply lookup_lt_Some in Hcm).
      injection Hi as <-. unfold refs in Hr'. simpl in Hr'.
      apply dict_set_values in Hr' as [Hold | ->]; [right; now exists md | now left].
    - rewrite list_lookup_insert_ne in Hi by exact Hne. right. now exists mi. }
  split; [|split; [|split]]; try assumption.
  - intros i mi r' Hi Hr'. destruct (Hlook i mi r' Hi Hr') as [[-> _] | (mi0 & Hi0 & Hr0)].
    + exact Hlt.
    + now apply (Hb i mi0 r').
  - intros i j mi mj r' Hi Hj Hri Hrj.
    destruct (Hlook i mi r' Hi Hri) as [[-> ->] | (mi0 & Hi0 & Hr0)];
      destruct (Hlook j mj _ Hj Hrj) as [[Heq ->] | (mj0 & Hj0 & Hrj0)]; try reflexivity.
    + now destruct (Hfresh j mj0 Hj0).
    + subst r'. now destruct (Hfresh i mi0 Hi0).
    + now apply (Hu i j mi0 mj0 r').
Qed.

Lemma store_ok_declare (c : PyClass) (decl : VarDecl) :
  preserves (fun fr => store_ok (world fr)) (declare c decl).
Proof.
  intros fr Hfr. unfold declare, bind, lift.
  destruct (new_Register c (reference decl) (size decl)) as [reg|e]; [|exact Hfr].
  rewrite in_world_eq. cbn [fst snd alloc_reg]. rewrite in_world_eq. cbn [fst snd world].
  apply store_ok_add_reg.
  - now apply store_ok_alloc_reg.
  - destruct Hfr as (Hb & _). split; simpl.
    + rewrite length_app. simpl. lia.
    + intros i md Hi Hin. specialize (Hb i md _ Hi Hin). lia.
Qed.

(** An invariant of the store is kept by a token as soon as the methods the
    token calls keep it. *)
Section TokenInvariant.
Variable I : World -> Prop.
Hypothesis I_set_top :
  forall f, (forall t, module (f t) = module t) ->
            (forall t, current_module (f t) = current_module t) ->
            (forall t, _shadow_modules (f t) = _shadow_modules t) ->
            preserves I (set_top f).
Hypothesis I_with_reg : forall A r (m : M Register A), preserves I (with_reg r m).
Hypothesis I_declare : forall c decl, preserves (fun fr => I (world fr)) (declare c decl).

Lemma update_timing_assignment_keeps timestamp ident value full :
  preserves I (update_timing_assignment timestamp ident value full).
Proof.
  unfold update_timing_assignment, is_reg_top_module, top_variables.
  repeat first
    [ progress eauto with keeps
    | apply I_with_reg
    | apply preserves_bind; [|intros ?]
    | match goal with
      | |- preserves _ (match ?x with _ => _ end) => destruct x
      end ].
Qed.

Lemma parse_token_keeps (full : bool) (_toc : Token) :
  (forall ident, _toc = SCOPE ident -> preserves I (update_module ident)) ->
  preserves (fun fr => I (world fr)) (parse_token full _toc).
Proof.
  intros Hscope.
  destruct _toc; unfold parse_token, timescale_base_unit;
    repeat first
      [ progress eauto with keeps
      | apply I_declare
      | apply (preserves_in_world_frame I)
      | apply update_timing_assignment_keeps
      | apply (Hscope _ eq_refl)
      | apply I_set_top; intros ?; reflexivity
      | apply preserves_bind; [|intros ?]
      | match goal with
        | |- preserves _ (match ?x with _ => _ end) => destruct x
        | |- preserves _ (set_scope _) => intros fr Hfr; exact Hfr
        | |- preserves _ (set_timestamp _) => intros fr Hfr; exact Hfr
        end ].
Qed.

Lemma parse_loop_keeps (full : bool) (items : list LexItem) :
  (forall ident, Yield (SCOPE ident) ∈ items -> preserves I (update_module ident)) ->
  preserves (fun fr => I (world fr)) (parse_loop full items).
Proof.
  induction items as [|[tok|e] items IH]; intros Hscope; simpl.
  - apply preserves_ret.
  - apply preserves_bind.
    + apply parse_token_keeps. intros ident ->. apply Hscope. left.
    + intros _. apply IH. intros ident Hin. apply Hscope. now right.
  - apply preserves_raise.
Qed.
End TokenInvariant.

Lemma parse_loop_store_ok (full : bool) (items : list LexItem) :
  preserves (fun fr => store_ok (world fr)) (parse_loop full items).
Proof.
  apply parse_loop_keeps.
  - intros f Hm _ Hs. now apply store_ok_set_top.
  - intros A r m. apply store_ok_with_reg.
  - apply store_ok_declare.
  - intros ident _. apply store_ok_update_module.
Qed.

Lemma store_ok_new : store_ok (world new_Frame).
Proof.
  unfold store_ok, store_inv. simpl. split; [|split; [|split]].
  - intros i md r Hi. rewrite lookup_nil in Hi. discriminate.
  - intros i j mi mj r Hi. rewrite lookup_nil in Hi. discriminate.
  - intros tm Htm. discriminate.
  - intros s Hin. now apply elem_of_nil in Hin.
Qed.

(** Before the first scope is opened there is no module at all. *)
Definition no_module (w : World) : Prop :=
  module (top w) = None /\ current_module (top w) = None /\ modules w = [].

(** The top module is the object [0], and its name is [n]. *)
Definition top_named (n : string) (w : World) : Prop :=
  module (top w) = Some 0%nat /\
  exists tmod, modules w !! 0%nat = Some tmod /\ mname tmod = n.

Lemma no_module_with_reg {A} r (m : M Register A) : preserves no_module (with_reg r m).
Proof.
  intros w Hw. unfold with_reg. destruct (registers w !! r); [|exact Hw].
  destruct (m r0). exact Hw.
Qed.

Lemma top_named_with_reg {A} n r (m : M Register A) : preserves (top_named n) (with_reg r m).
Proof.
  intros w Hw. unfold with_reg. destruct (registers w !! r); [|exact Hw].
  destruct (m r0). exact Hw.
Qed.

Lemma no_module_declare c decl : preserves (fun fr => no_module (world fr)) (declare c decl).
Proof.
  intros fr Hfr. pose proof Hfr as (Hm & Hc & Hmods). unfold declare, bind, lift.
  destruct (new_Register c (reference decl) (size decl)) as [reg|e]; [|exact Hfr].
  rewrite in_world_eq. cbn [fst snd alloc_reg]. rewrite in_world_eq. cbn [fst snd world].
  unfold add_reg, bind, get. cbn -[dict_set].
  rewrite lookup_app_r by lia. rewrite Nat.sub_diag. cbn -[dict_set].
  rewrite Hc. split; [exact Hm | split; [reflexivity | exact Hmods]].
Qed.

Lemma top_named_declare n c decl :
  preserves (fun fr => top_named n (world fr)) (declare c decl).
Proof.
  intros fr Hfr. pose proof Hfr as (Hm & tmod & Htmod & Hname). unfold declare, bind, lift.
  destruct (new_Register c (reference decl) (size decl)) as [reg|e]; [|exact Hfr].
  rewrite in_world_eq. cbn [fst snd alloc_reg]. rewrite in_world_eq. cbn [fst snd world].
  unfold add_reg, bind, get. cbn -[dict_set].
  rewrite lookup_app_r by lia. rewrite Nat.sub_diag. cbn -[dict_set].
  destruct (current_module (top (world fr))) as [cm|]; [|exact Hfr].
  unfold with_mod. cbn -[dict_set].
  destruct (modules (world fr) !! cm) as [md|] eqn:Hcm in |- *; [|exact Hfr].
  cbn -[dict_set]. split; [exact Hm|]. cbn -[dict_set].
  destruct (decide (cm = 0%nat)) as [-> | Hne].
  - eexists. split.
    + apply list_lookup_insert_eq. now apply lookup_lt_Some in Hcm.
    + simpl. congruence.
  - exists tmod. split; [|exact Hname]. now rewrite list_lookup_insert_ne.
Qed.

Lemma top_named_update_module n scope : preserves (top_named n) (update_module scope).
Proof.
  intros w Hw. pose proof Hw as (Hm & tmod & Htmod & Hname). unfold update_module, bind, get.
  cbn [fst snd]. rewrite Hm, Htmod.
  destruct (bool_decide (mname tmod <> scope)); [|exact Hw].
  split; [exact Hm|]. exists tmod. split; [|exact Hname].
  simpl. now apply lookup_app_l_Some.
Qed.

Lemma parse_loop_top_named (n : string) (full : bool) (items : list LexItem) :
  preserves (fun fr => top_named n (world fr)) (parse_loop full items).
Proof.
  apply parse_loop_keeps.
  - intros f Hm _ _ w Hw. unfold top_named, set_top, modify. simpl. rewrite Hm. exact Hw.
  - intros A r m. apply top_named_with_reg.
  - apply top_named_declare.
  - intros ident _. apply top_named_update_module.
Qed.

Lemma parse_loop_no_module (full : bool) (items : list LexItem) :
  (forall ident, Yield (SCOPE ident) ∉ items) ->
  preserves (fun fr => no_module (world fr)) (parse_loop full items).
Proof.
  intros Hns. apply parse_loop_keeps.
  - intros f Hm Hc _ w Hw. unfold no_module, set_top, modify. simpl. rewrite Hm, Hc. exact Hw.
  - intros A r m. apply no_module_with_reg.
  - apply no_module_declare.
  - intros ident Hin. now destruct (Hns ident).
Qed.

(** The first scope that is opened becomes the top module. *)
Lemma first_scope_is_top (full : bool) (fr : Frame) (ident : string) :
  no_module (world fr) ->
  fst (parse_token full (SCOPE ident) fr) = Ok tt /\
  top_named ident (world (snd (parse_token full (SCOPE ident) fr))).
Proof.
  intros (Hm & Hc & Hmods). unfold parse_token, bind, set_scope, modify.
  rewrite in_world_eq. unfold update_module, bind, get. cbn [fst snd world].
  rewrite Hm. cbn. rewrite Hmods. split; [reflexivity|].
  split; [reflexivity|]. exists (new_Module ident). split; reflexivity.
Qed.

(** The text that is exported does not depend on a [Register] that the top
    module does not refer to. *)
Lemma Module_export_pwl_insert `{Sympy SymExpr} (regs : list Register) (self : Module_)
    (timescale : option TimeScale) (expr : gmap string Z) (r : nat) (reg' : Register) :
  r ∉ refs self ->
  Module_export_pwl (<[r := reg']> regs) self timescale expr
  = Module_export_pwl regs self timescale expr.
Proof.
  unfold Module_export_pwl, refs. generalize "" as acc.
  induction (variables self) as [|[ident r0] vars IH]; intros acc Hnot; [reflexivity|].
  cbn [rfold]. cbn [snd].
  rewrite list_lookup_insert_ne.
  - destruct (regs !! r0) as [reg|]; [|reflexivity].
    destruct (if isinstance_Register reg then _ else _) as [data|e]; [|reflexivity].
    cbn [rbind]. apply IH. intros Hin. apply Hnot. simpl. now right.
  - intros ->. apply Hnot. simpl. left.
Qed.

(** A scope opened under another name than the top module's goes to the side
    list and becomes the current module; the top module stays. *)
Lemma later_scope_goes_to_side_list (full : bool) (fr : Frame) (ident : string) (tm : nat)
    (tmod : Module_) :
  module (top (world fr)) = Some tm ->
  modules (world fr) !! tm = Some tmod ->
  mname tmod <> ident ->
  fst (parse_token full (SCOPE ident) fr) = Ok tt /\
  module (top (world (snd (parse_token full (SCOPE ident) fr)))) = Some tm /\
  _shadow_modules (top (world (snd (parse_token full (SCOPE ident) fr))))
  = _shadow_modules (top (world fr)) ++ [length (modules (world fr))] /\
  modules (world (snd (parse_token full (SCOPE ident) fr)))
  = modules (world fr) ++ [new_Module ident] /\
  current_module (top (world (snd (parse_token full (SCOPE ident) fr))))
  = Some (length (modules (world fr))).
Proof.
  intros Hm Htmod Hne. unfold parse_token, bind, set_scope, modify.
  rewrite in_world_eq. unfold update_module, bind, get. cbn [fst snd world].
  rewrite Hm, Htmod. rewrite (bool_decide_eq_true_2 _ Hne). cbn.
  rewrite Hm. repeat split.
Qed.

(** ** A declaration in an open scope *)

Lemma dict_get_set_eq {K V} `{EqDecision K} (d : list (K * V)) (k : K) (v : V) :
  dict_get (dict_set d k v) k = Some v.
Proof.
  induction d as [|[k0 v0] d IH]; simpl.
  - destruct (decide (k = k)); [reflexivity | congruence].
  - destruct (decide (k0 = k)) as [-> | Hne]; simpl.
    + destruct (decide (k = k)); [reflexivity | congruence].
    + destruct (decide (k0 = k)); [congruence | exact IH].
Qed.

Lemma dict_get_ref {K V} `{EqDecision K} (d : list (K * V)) (k : K) (v : V) :
  dict_get d k = Some v -> v ∈ map snd d.
Proof.
  induction d as [|[k0 v0] d IH]; simpl; [discriminate|].
  destruct (decide (k0 = k)).
  - intros [= ->]. left.
  - intros Hget. right. now apply IH.
Qed.

Lemma parse_token_var (full : bool) (decl : VarDecl) (c : PyClass) :
  decl_class decl = Some c -> parse_token full (VAR decl) = declare c decl.
Proof.
  unfold decl_class, parse_token. destruct (type_ decl); try discriminate; now intros [= <-].
Qed.

Lemma declare_ok_size (c : PyClass) (decl : VarDecl) (fr : Frame) :
  fst (declare c decl fr) = Ok tt -> 0 <= size decl.
Proof.
  unfold declare, new_Register, bind, lift.
  destruct (Z.ltb_spec (size decl) 0); [discriminate | intros _; assumption].
Qed.

(** The [Register] is built from the declaration, and the current module
    binds the identifier to it; no other module changes. *)
Lemma declare_in_scope (c : PyClass) (decl : VarDecl) (fr : Frame) (cm : nat) (md : Module_) :
  0 <= size decl ->
  current_module (top (world fr)) = Some cm ->
  modules (world fr) !! cm = Some md ->
  exists reg,
    new_Register c (reference decl) (size decl) = Ok reg /\
    name reg = reference decl /\
    fst (declare c decl fr) = Ok tt /\
    registers (world (snd (declare c decl fr))) = registers (world fr) ++ [reg] /\
    modules (world (snd (declare c decl fr)))
    = <[cm := {| mname := mname md;
                 variables := dict_set (variables md) (id_code decl)
                                (length (registers (world fr))) |}]> (modules (world fr)) /\
    module (top (world (snd (declare c decl fr)))) = module (top (world fr)) /\
    current_module (top (world (snd (declare c decl fr)))) = Some cm /\
    _shadow_modules (top (world (snd (declare c decl fr)))) = _shadow_modules (top (world fr)) /\
    scope (snd (declare c decl fr)) = scope fr.
Proof.
  intros Hsize Hcm Hmd.
  set (reg := {| cls := c; name := reference decl; width := size decl; dim := 0;
                 data := replicate (Z.to_nat (size decl)) 0; timing_assignments := [];
                 export_pwl_safe := true |}).
  assert (Hnew : new_Register c (reference decl) (size decl) = Ok reg).
  { unfold new_Register. destruct (Z.ltb_spec (size decl) 0) as [|_]; [lia | reflexivity]. }
  assert (Hd : declare c decl fr
               = (Ok tt,
                  {| world :=
                       {| registers := registers (world fr) ++ [reg];
                          modules :=
                            <[cm := {| mname := mname md;
                                       variables := dict_set (variables md) (id_code decl)
                                                      (length (registers (world fr))) |}]>
                              (modules (world fr));
                          top :=
                            {| date := date (top (world fr)); version := version (top (world fr));
                               timescale := timescale (top (world fr));
                               module := module (top (world fr));
                               current_module := current_module (top (world fr));
                               _shadow_modules := _shadow_modules (top (world fr));
                               signals := signals (top (world fr))
                                          ++ [length (registers (world fr))];
                               _sig_map := dict_set (_sig_map (top (world fr))) (id_code decl)
                                             (reference decl) |} |};
                     scope := scope fr; _timestamp := _timestamp fr |})).
  { unfold declare. rewrite Hnew. unfold bind at 1. unfold lift at 1. unfold bind at 1.
    rewrite in_world_eq. cbn [fst snd alloc_reg]. rewrite in_world_eq. cbn [fst snd world].
    assert (Hadd : add_reg (length (registers (world fr))) (id_code decl)
                     {| registers := registers (world fr) ++ [reg];
                        modules := modules (world fr); top := top (world fr) |}
                   = (Ok tt,
                      {| registers := registers (world fr) ++ [reg];
                         modules :=
                           <[cm := {| mname := mname md;
                                      variables := dict_set (variables md) (id_code decl)
                                                     (length (registers (world fr))) |}]>
                             (modules (world fr));
                         top :=
                           {| date := date (top (world fr));
                              version := version (top (world fr));
                              timescale := timescale (top (world fr));
                              module := module (top (world fr));
                              current_module := current_module (top (world fr));
                              _shadow_modules := _shadow_modules (top (world fr));
                              signals := signals (top (world fr))
                                         ++ [length (registers (world fr))];
                              _sig_map := dict_set (_sig_map (top (world fr))) (id_code decl)
                                            (reference decl) |} |})).
    { unfold add_reg, bind, get. cbn -[dict_set].
      rewrite lookup_app_r by reflexivity. rewrite Nat.sub_diag. cbn -[dict_set].
      rewrite Hcm. unfold with_mod. cbn -[dict_set]. rewrite Hmd. reflexivity. }
    rewrite Hadd. reflexivity. }
  exists reg. rewrite Hd. cbn -[dict_set]. repeat split; assumption.
Qed.

Lemma current_module_declare (v : option nat) (c : PyClass) (decl : VarDecl) :
  preserves (fun fr => current_module (top (world fr)) = v) (declare c decl).
Proof.
  intros fr Hfr. unfold declare, bind, lift.
  destruct (new_Register c (reference decl) (size decl)) as [reg|e]; [|exact Hfr].
  rewrite in_world_eq. cbn [fst snd alloc_reg]. rewrite in_world_eq. cbn [fst snd world].
  unfold add_reg, bind, get. cbn -[dict_set].
  rewrite lookup_app_r by lia. rewrite Nat.sub_diag. cbn -[dict_set].
  destruct (current_module (top (world fr))) as [cm|] eqn:Hcm; [|exact Hfr].
  unfold with_mod. cbn -[dict_set].
  destruct (modules (world fr) !! cm) as [md|] eqn:Hmd in |- *; exact Hfr.
Qed.

(** Only a scope-open token changes the current module. *)
Lemma parse_loop_keeps_current_module (full : bool) (items : list LexItem) (v : option nat) :
  (forall ident, Yield (SCOPE ident) ∉ items) ->
  preserves (fun fr => current_module (top (world fr)) = v) (parse_loop full items).
Proof.
  intros Hns. apply (parse_loop_keeps (fun w => current_module (top w) = v)).
  - intros f _ Hc _ w Hw. unfold set_top, modify. cbn. now rewrite Hc.
  - intros A r m w Hw. unfold with_reg. destruct (registers w !! r) as [reg|]; [|exact Hw].
    destruct (m reg). exact Hw.
  - apply current_module_declare.
  - intros ident Hin. now destruct (Hns ident).
Qed.

(** C5, as the code has it: a scope-close token clears the local scope name
    and nothing else; until the next scope-open token the local name stays
    cleared and the document's [current_module] stays the scope that was
    open, so that a variable declared then is attached to that scope: the
    [Register] is built, the module that was current binds the identifier to
    it, and it stays the current module. *)
Theorem upscope_clears_scope_name (full : bool) (fr : Frame) (items : list LexItem) :
  (forall ident, Yield (SCOPE ident) ∉ items) ->
  parse_token full UPSCOPE fr
  = (Ok tt, {| world := world fr; scope := None; _timestamp := _timestamp fr |})
  /\ current_module (top (world (snd (parse_token full UPSCOPE fr))))
     = current_module (top (world fr))
  /\ scope (snd (parse_loop full items (snd (parse_token full UPSCOPE fr)))) = None
  /\ current_module
       (top (world (snd (parse_loop full items (snd (parse_token full UPSCOPE fr))))))
     = current_module (top (world fr))
  /\ (forall (decl : VarDecl) (c : PyClass) (cm : nat) (md : Module_),
        let fr2 := snd (parse_loop full items (snd (parse_token full UPSCOPE fr))) in
        let fr3 := snd (parse_token full (VAR decl) fr2) in
        decl_class decl = Some c ->
        0 <= size decl ->
        current_module (top (world fr)) = Some cm ->
        modules (world fr2) !! cm = Some md ->
        exists reg,
          new_Register c (reference decl) (size decl) = Ok reg /\
          fst (parse_token full (VAR decl) fr2) = Ok tt /\
          registers (world fr3) = registers (world fr2) ++ [reg] /\
          modules (world fr3)
          = <[cm := {| mname := mname md;
                       variables := dict_set (variables md) (id_code decl)
                                      (length (registers (world fr2))) |}]>
              (modules (world fr2)) /\
          current_module (top (world fr3)) = Some cm /\
          scope fr3 = None).
Proof.
  intros Hns. split; [reflexivity|]. split; [reflexivity|].
  assert (Hscope : scope (snd (parse_loop full items (snd (parse_token full UPSCOPE fr)))) = None)
    by now apply (parse_loop_keeps_no_scope full items Hns).
  assert (Hcur : current_module
                   (top (world (snd (parse_loop full items (snd (parse_token full UPSCOPE fr))))))
                 = current_module (top (world fr)))
    by now apply (parse_loop_keeps_current_module full items _ Hns).
  split; [exact Hscope|]. split; [exact Hcur|].
  intros decl c cm md fr2 fr3 Hc Hsize Hcm Hmd. subst fr3.
  rewrite (parse_token_var full decl c Hc).
  destruct (declare_in_scope c decl fr2 cm md Hsize) as
    (reg & Hreg & _ & Hok & Hregs & Hmods & _ & Hcm' & _ & Hsc);
    [subst fr2; now rewrite Hcur | exact Hmd |].
  exists reg. repeat split; try assumption. now rewrite Hsc.
Qed.

Lemma upscope_clears_scope_name_witness :
  let fr := snd (parse_loop false
                   [Yield (TIMESCALE "1 ns"); Yield (SCOPE "tb"); Yield (SCOPE "dut")]
                   new_Frame) in
  let fr2 := snd (parse_loop false [Yield (CHANGE_TIME 3)] (snd (parse_token false UPSCOPE fr))) in
  let fr3 := snd (parse_token false (VAR clk_decl) fr2) in
  fst (parse_loop false [Yield (CHANGE_TIME 3)] (snd (parse_token false UPSCOPE fr))) = Ok tt /\
  scope fr2 = None /\
  current_module (top (world fr2)) = Some 1%nat /\
  fst (parse_token false (VAR clk_decl) fr2) = Ok tt /\
  modules (world fr3)
  = [{| mname := "tb"; variables := [] |}; {| mname := "dut"; variables := [("!", 0%nat)] |}] /\
  current_module (top (world fr3)) = Some 1%nat /\
  scope fr3 = None.
Proof.
  intros fr fr2 fr3.
  destruct (upscope_clears_scope_name false fr [Yield (CHANGE_TIME 3)])
    as (_ & _ & Hscope & Hcur & Hvar).
  - intros ident Hin. apply list_elem_of_singleton in Hin. discriminate.
  - destruct (Hvar clk_decl ClsRegister 1%nat {| mname := "dut"; variables := [] |})
      as (reg & _ & Hok & _ & Hmods & Hcm & Hsc); try reflexivity; [discriminate|].
    split; [reflexivity|].
    split; [exact Hscope|]. split; [exact Hcur|]. split; [exact Hok|].
    split; [exact Hmods|]. split; [exact Hcm | exact Hsc].
Defined.

(** ** Declarations under a later scope *)

Lemma parse_loop_app_ok (full : bool) (l1 l2 : list LexItem) (fr fr' : Frame) :
  parse_loop full (l1 ++ l2) fr = (Ok tt, fr') ->
  parse_loop full l1 fr = (Ok tt, snd (parse_loop full l1 fr)) /\
  parse_loop full l2 (snd (parse_loop full l1 fr)) = (Ok tt, fr').
Proof.
  rewrite parse_loop_app. destruct (parse_loop full l1 fr) as [[[]|e] fr1]; [|discriminate].
  intros Hl2. now split.
Qed.

Lemma parse_loop_cons_ok (full : bool) (tok : Token) (l : list LexItem) (fr fr' : Frame) :
  parse_loop full (Yield tok :: l) fr = (Ok tt, fr') ->
  parse_token full tok fr = (Ok tt, snd (parse_token full tok fr)) /\
  parse_loop full l (snd (parse_token full tok fr)) = (Ok tt, fr').
Proof.
  cbn [parse_loop]. unfold bind. destruct (parse_token full tok fr) as [[[]|e] fr1]; [|discriminate].
  intros Hl. now split.
Qed.

(** Once a scope of another name is open, the top module is closed to
    declarations: it keeps its variables [vars], and the current module is
    another object. *)
Definition top_closed (n : string) (vars : list (string * nat)) (w : World) : Prop :=
  module (top w) = Some 0%nat /\
  (exists tmod, modules w !! 0%nat = Some tmod /\ mname tmod = n /\ variables tmod = vars) /\
  (exists cm, current_module (top w) = Some cm /\ cm <> 0%nat).

Lemma top_closed_with_reg {A} n vars r (m : M Register A) :
  preserves (top_closed n vars) (with_reg r m).
Proof.
  intros w Hw. unfold with_reg. destruct (registers w !! r) as [reg|]; [|exact Hw].
  destruct (m reg). exact Hw.
Qed.

Lemma top_closed_declare n vars c decl :
  preserves (fun fr => top_closed n vars (world fr)) (declare c decl).
Proof.
  intros fr Hfr. pose proof Hfr as (Hm & (tmod & Htmod & Hname & Hvars) & (cm & Hcm & Hne)).
  destruct (Z.ltb_spec (size decl) 0) as [Hneg | Hsize].
  - unfold declare, new_Register, bind, lift.
    rewrite (proj2 (Z.ltb_lt _ _) Hneg). exact Hfr.
  - destruct (modules (world fr) !! cm) as [md|] eqn:Hmd.
    + destruct (declare_in_scope c decl fr cm md Hsize Hcm Hmd)
        as (reg & _ & _ & _ & _ & Hmods & Hmod & Hcm' & _ & _).
      split; [now rewrite Hmod|]. split.
      * exists tmod. rewrite Hmods. rewrite list_lookup_insert_ne by exact Hne. now repeat split.
      * exists cm. now split.
    + unfold declare, new_Register, bind, lift.
      rewrite (proj2 (Z.ltb_ge _ _) Hsize).
      rewrite in_world_eq. cbn [fst snd alloc_reg]. rewrite in_world_eq. cbn [fst snd world].
      unfold add_reg, bind, get. cbn -[dict_set].
      rewrite lookup_app_r by reflexivity. rewrite Nat.sub_diag. cbn -[dict_set].
      rewrite Hcm. unfold with_mod. cbn -[dict_set]. rewrite Hmd. cbn -[dict_set].
      split; [exact Hm|]. split; [now exists tmod | now exists cm].
Qed.

Lemma top_closed_update_module n vars scope :
  preserves (top_closed n vars) (update_module scope).
Proof.
  intros w Hw. pose proof Hw as (Hm & (tmod & Htmod & Hname & Hvars) & (cm & Hcm & Hne)).
  unfold update_module, bind, get. cbn [fst snd]. rewrite Hm, Htmod.
  destruct (bool_decide (mname tmod <> scope)); [|exact Hw].
  cbn. split; [exact Hm|]. split.
  - exists tmod. split; [now apply lookup_app_l_Some | now split].
  - exists (length (modules w)). split; [reflexivity|].
    apply lookup_lt_Some in Htmod. lia.
Qed.

Lemma parse_loop_top_closed (n : string) (vars : list (string * nat)) (full : bool)
    (items : list LexItem) :
  preserves (fun fr => top_closed n vars (world fr)) (parse_loop full items).
Proof.
  apply parse_loop_keeps.
  - intros f Hm Hc _ w Hw. unfold top_closed, set_top, modify. cbn. rewrite Hm, Hc. exact Hw.
  - intros A r m. apply top_closed_with_reg.
  - apply top_closed_declare.
  - intros ident _. apply top_closed_update_module.
Qed.

(** The module [sm] is on the side list and is named [s]. *)
Definition on_side_list (sm : nat) (s : string) (w : World) : Prop :=
  sm ∈ _shadow_modules (top w) /\
  exists smod, modules w !! sm = Some smod /\ mname smod = s.

Lemma on_side_list_with_reg {A} sm s r (m : M Register A) :
  preserves (on_side_list sm s) (with_reg r m).
Proof.
  intros w Hw. unfold with_reg. destruct (registers w !! r) as [reg|]; [|exact Hw].
  destruct (m reg). exact Hw.
Qed.

Lemma on_side_list_declare sm s c decl :
  preserves (fun fr => on_side_list sm s (world fr)) (declare c decl).
Proof.
  intros fr Hfr. pose proof Hfr as (Hin & smod & Hsmod & Hname). unfold declare, bind, lift.
  destruct (new_Register c (reference decl) (size decl)) as [reg|e]; [|exact Hfr].
  rewrite in_world_eq. cbn [fst snd alloc_reg]. rewrite in_world_eq. cbn [fst snd world].
  unfold add_reg, bind, get. cbn -[dict_set].
  rewrite lookup_app_r by reflexivity. rewrite Nat.sub_diag. cbn -[dict_set].
  destruct (current_module (top (world fr))) as [cm|]; [|exact Hfr].
  unfold with_mod. cbn -[dict_set].
  destruct (modules (world fr) !! cm) as [md|] eqn:Hcm in |- *; [|exact Hfr].
  cbn -[dict_set]. split; [exact Hin|]. cbn -[dict_set].
  destruct (decide (cm = sm)) as [-> | Hne].
  - eexists. split.
    + apply list_lookup_insert_eq. now apply lookup_lt_Some in Hcm.
    + cbn. congruence.
  - exists smod. split; [|exact Hname]. now rewrite list_lookup_insert_ne.
Qed.

Lemma on_side_list_update_module sm s scope :
  preserves (on_side_list sm s) (update_module scope).
Proof.
  intros w Hw. pose proof Hw as (Hin & smod & Hsmod & Hname).
  unfold update_module, bind, get. cbn [fst snd].
  destruct (module (top w)) as [tm|].
  - destruct (modules w !! tm) as [tmod|]; [|exact Hw].
    destruct (bool_decide (mname tmod <> scope)); [|exact Hw].
    cbn. split; [apply elem_of_app; now left|].
    exists smod. split; [now apply lookup_app_l_Some | exact Hname].
  - cbn. split; [exact Hin|]. exists smod. split; [now apply lookup_app_l_Some | exact Hname].
Qed.

Lemma parse_loop_on_side_list (sm : nat) (s : string) (full : bool) (items : list LexItem) :
  preserves (fun fr => on_side_list sm s (world fr)) (parse_loop full items).
Proof.
  apply parse_loop_keeps.
  - intros f _ _ Hs w Hw. unfold on_side_list, set_top, modify. cbn. rewrite Hs. exact Hw.
  - intros A r m. apply on_side_list_with_reg.
  - apply on_side_list_declare.
  - intros ident _. apply on_side_list_update_module.
Qed.

(** The frame in which the first scope is open: the top module is named
    after it, and the store is well formed. *)
Lemma after_first_scope (pre mid : list LexItem) (n : string) (fr : Frame) :
  (forall ident, Yield (SCOPE ident) ∉ pre) ->
  parse_loop false (pre ++ Yield (SCOPE n) :: mid) new_Frame = (Ok tt, fr) ->
  top_named n (world fr) /\ store_ok (world fr).
Proof.
  intros Hns Hrun.
  pose proof (parse_loop_store_ok false (pre ++ Yield (SCOPE n) :: mid) new_Frame store_ok_new)
    as Hok. rewrite Hrun in Hok. split; [|exact Hok].
  apply parse_loop_app_ok in Hrun as [Hpre Hrun].
  pose proof (parse_loop_no_module false pre Hns new_Frame
                (conj eq_refl (conj eq_refl eq_refl))) as Hnm.
  apply parse_loop_cons_ok in Hrun as [Htok Hmid].
  destruct (first_scope_is_top false _ n Hnm) as [_ Htop].
  pose proof (parse_loop_top_named n false mid _ Htop) as Hend.
  now rewrite Hmid in Hend.
Qed.

Lemma parse_document_inv (items : list LexItem) (doc : World) :
  parse items = Document doc ->
  exists fr, parse_loop false items new_Frame = (Ok tt, fr) /\ world fr = doc.
Proof.
  unfold parse, _parse_group.
  destruct (parse_loop false items new_Frame) as [[[]|e] fr]; cbn [fst].
  - intros [= <-]. now exists fr.
  - destruct e; discriminate.
Qed.

Lemma frame_after_app (l1 l2 : list LexItem) :
  fst (parse_loop false l1 new_Frame) = Ok tt ->
  frame_after (l1 ++ l2) = snd (parse_loop false l2 (frame_after l1)).
Proof.
  unfold frame_after. rewrite parse_loop_app.
  destruct (parse_loop false l1 new_Frame) as [[[]|e] fr1]; [reflexivity | discriminate].
Qed.

(** C7: the top module is the first scope that was opened, and the exported
    text is the text of its signals.  A scope opened later under another name
    is a new module on the side list, and from then on the top module takes
    no declaration.  A variable declared under the later scope is attached
    to that scope's module; its [Register] is no signal of the top module,
    and the exported text does not depend on it.  The same holds of every
    signal of every module on the side list. *)
Theorem side_scopes_not_exported `{Sympy SymExpr} (pre mid rest : list LexItem) (n s : string)
    (doc : World) :
  (forall ident, Yield (SCOPE ident) ∉ pre) ->
  n <> s ->
  parse (pre ++ Yield (SCOPE n) :: mid ++ Yield (SCOPE s) :: rest) = Document doc ->
  let fr_s := frame_after (pre ++ Yield (SCOPE n) :: mid) in
  let sm := length (modules (world fr_s)) in
  exists tmod smod,
    (module (top doc) = Some 0%nat /\ modules doc !! 0%nat = Some tmod /\ mname tmod = n)
    /\ (forall expr,
          export_pwl doc expr
          = Module_export_pwl (registers doc) tmod (timescale (top doc)) expr)
    /\ (sm <> 0%nat /\ modules (world fr_s) !! sm = None /\
        sm ∈ _shadow_modules (top doc) /\ modules doc !! sm = Some smod /\ mname smod = s)
    /\ (exists tmod_s,
          modules (world fr_s) !! 0%nat = Some tmod_s /\ variables tmod = variables tmod_s)
    /\ (forall (mid2 rest' : list LexItem) (decl : VarDecl) (c : PyClass),
          let fr_v := frame_after (pre ++ Yield (SCOPE n) :: mid ++ Yield (SCOPE s) :: mid2) in
          let fr_d := snd (parse_token false (VAR decl) fr_v) in
          let r := length (registers (world fr_v)) in
          rest = mid2 ++ Yield (VAR decl) :: rest' ->
          (forall ident, Yield (SCOPE ident) ∉ mid2) ->
          decl_class decl = Some c ->
          exists reg smod_d,
            current_module (top (world fr_v)) = Some sm /\
            new_Register c (reference decl) (size decl) = Ok reg /\
            registers (world fr_d) = registers (world fr_v) ++ [reg] /\
            modules (world fr_d) !! sm = Some smod_d /\ mname smod_d = s /\
            dict_get (variables smod_d) (id_code decl) = Some r /\
            (r ∉ refs tmod) /\
            forall reg' expr,
              export_pwl {| registers := <[r := reg']> (registers doc);
                            modules := modules doc; top := top doc |} expr
              = export_pwl doc expr)
    /\ (forall s' smod' r',
          s' ∈ _shadow_modules (top doc) -> modules doc !! s' = Some smod' -> r' ∈ refs smod' ->
          (r' ∉ refs tmod) /\
          forall reg' expr,
            export_pwl {| registers := <[r' := reg']> (registers doc);
                          modules := modules doc; top := top doc |} expr
            = export_pwl doc expr).
Proof.
  intros Hns Hne Hparse fr_s sm.
  apply parse_document_inv in Hparse as (frD & Hrun & <-).
  pose proof (parse_loop_store_ok false
                (pre ++ Yield (SCOPE n) :: mid ++ Yield (SCOPE s) :: rest) new_Frame store_ok_new)
    as HokD.
  rewrite Hrun in HokD. cbn [snd] in HokD.
  replace (pre ++ Yield (SCOPE n) :: mid ++ Yield (SCOPE s) :: rest)
    with ((pre ++ Yield (SCOPE n) :: mid) ++ Yield (SCOPE s) :: rest) in Hrun
    by (now rewrite <- app_assoc).
  apply parse_loop_app_ok in Hrun as [Hrun_s Hrun]. fold (frame_after (pre ++ Yield (SCOPE n) :: mid)) in *.
  fold fr_s in Hrun_s, Hrun.
  destruct (after_first_scope pre mid n fr_s Hns Hrun_s) as [(Hm_s & tmod_s & Htmod_s & Hname_s) Hok_s].
  apply parse_loop_cons_ok in Hrun as [Htok_s Hrest].
  assert (Hne' : mname tmod_s <> s) by congruence.
  destruct (later_scope_goes_to_side_list false fr_s s 0%nat tmod_s Hm_s Htmod_s Hne')
    as (_ & Hm1 & Hside1 & Hmods1 & Hcm1).
  set (fr_s1 := snd (parse_token false (SCOPE s) fr_s)) in *. fold sm in Hside1, Hmods1, Hcm1.
  assert (Hsm0 : sm <> 0%nat) by (apply lookup_lt_Some in Htmod_s; subst sm; lia).
  assert (Hclosed1 : top_closed n (variables tmod_s) (world fr_s1)).
  { split; [exact Hm1|]. split.
    - exists tmod_s. rewrite Hmods1. split; [now apply lookup_app_l_Some | now split].
    - exists sm. now split. }
  assert (Hside_1 : on_side_list sm s (world fr_s1)).
  { split.
    - rewrite Hside1. apply elem_of_app. right. now apply list_elem_of_singleton.
    - exists (new_Module s). rewrite Hmods1. split; [|reflexivity].
      subst sm. rewrite lookup_app_r by reflexivity. now rewrite Nat.sub_diag. }
  pose proof (parse_loop_top_closed n (variables tmod_s) false rest fr_s1 Hclosed1) as HclosedD.
  pose proof (parse_loop_on_side_list sm s false rest fr_s1 Hside_1) as HsideD.
  rewrite Hrest in HclosedD, HsideD. cbn [snd] in HclosedD, HsideD.
  destruct HclosedD as (HmD & (tmod & HtmodD & HnameD & HvarsD) & _).
  destruct HsideD as (HinD & smod & HsmodD & HsnameD).
  assert (Hindep : forall r, r ∉ refs tmod ->
            forall reg' expr,
              export_pwl {| registers := <[r := reg']> (registers (world frD));
                            modules := modules (world frD); top := top (world frD) |} expr
              = export_pwl (world frD) expr).
  { intros r Hr reg' expr. unfold export_pwl. cbn [top modules registers].
    rewrite HmD, HtmodD. now apply Module_export_pwl_insert. }
  exists tmod, smod. split; [now repeat split|]. split.
  { intros expr. unfold export_pwl. now rewrite HmD, HtmodD. }
  split.
  { split; [exact Hsm0|]. split; [apply lookup_ge_None_2; subst sm; lia|]. now repeat split. }
  split; [now exists tmod_s|]. split.
  - intros mid2 rest' decl c fr_v fr_d r -> Hns2 Hc.
    apply parse_loop_app_ok in Hrest as [Hmid2 Hrest].
    assert (Hfr_v : fr_v = snd (parse_loop false mid2 fr_s1)).
    { subst fr_v.
      replace (pre ++ Yield (SCOPE n) :: mid ++ Yield (SCOPE s) :: mid2)
        with ((pre ++ Yield (SCOPE n) :: mid) ++ Yield (SCOPE s) :: mid2)
        by (now rewrite <- app_assoc).
      rewrite frame_after_app by (now rewrite Hrun_s).
      fold fr_s. cbn [parse_loop]. unfold bind. rewrite Htok_s. reflexivity. }
    rewrite <- Hfr_v in Hmid2, Hrest.
    pose proof (parse_loop_keeps_current_module false mid2 (Some sm) Hns2 fr_s1 Hcm1) as Hcm_v.
    pose proof (parse_loop_top_closed n (variables tmod_s) false mid2 fr_s1 Hclosed1) as Hclosed_v.
    pose proof (parse_loop_on_side_list sm s false mid2 fr_s1 Hside_1) as Hside_v.
    pose proof (parse_loop_store_ok false mid2 fr_s1) as Hok_v.
    rewrite Hmid2 in Hcm_v, Hclosed_v, Hside_v, Hok_v. cbn [snd] in Hcm_v, Hclosed_v, Hside_v, Hok_v.
    assert (Hok_s1 : store_ok (world fr_s1)).
    { pose proof (parse_loop_store_ok false [Yield (SCOPE s)] fr_s Hok_s) as Hs1.
      cbn [parse_loop] in Hs1. unfold bind in Hs1. fold fr_s1 in Htok_s. rewrite Htok_s in Hs1.
      exact Hs1. }
    specialize (Hok_v Hok_s1).
    apply parse_loop_cons_ok in Hrest as [Htok_v Hrest']. fold fr_d in Htok_v, Hrest'.
    rewrite (parse_token_var false decl c Hc) in Htok_v.
    assert (Hsize : 0 <= size decl) by (apply (declare_ok_size c decl fr_v); now rewrite Htok_v).
    destruct Hside_v as (_ & smod_v & Hsmod_v & Hsname_v).
    destruct (declare_in_scope c decl fr_v sm smod_v Hsize Hcm_v Hsmod_v)
      as (reg & Hreg & _ & _ & Hregs & Hmods & _ & _ & _ & _).
    assert (Hfr_d : fr_d = snd (declare c decl fr_v))
      by (subst fr_d; now rewrite (parse_token_var false decl c Hc)).
    rewrite <- Hfr_d in Hregs, Hmods.
    pose proof (store_ok_declare c decl fr_v Hok_v) as Hok_d. rewrite <- Hfr_d in Hok_d.
    pose proof (top_closed_declare n (variables tmod_s) c decl fr_v Hclosed_v) as Hclosed_d.
    rewrite <- Hfr_d in Hclosed_d.
    destruct Hclosed_d as (_ & (tmod_d & Htmod_d & _ & Hvars_d) & _).
    assert (Hsmod_d : modules (world fr_d) !! sm
                      = Some {| mname := mname smod_v;
                                variables := dict_set (variables smod_v) (id_code decl) r |}).
    { rewrite Hmods. apply list_lookup_insert_eq. now apply lookup_lt_Some in Hsmod_v. }
    assert (Hnot : r ∉ refs tmod).
    { intros Hin. destruct Hok_d as (_ & Hu & _).
      apply Hsm0.
      apply (Hu sm 0%nat _ tmod_d r Hsmod_d Htmod_d).
      - unfold refs. cbn [variables]. eapply dict_get_ref. apply dict_get_set_eq.
      - unfold refs in *. now rewrite Hvars_d, <- HvarsD. }
    exists reg. eexists. split; [exact Hcm_v|]. split; [exact Hreg|]. split; [exact Hregs|].
    split; [exact Hsmod_d|]. split; [exact Hsname_v|].
    split; [apply dict_get_set_eq|]. split; [exact Hnot|]. now apply Hindep.
  - intros s' smod' r' Hs' Hsmod' Hr'. destruct HokD as (_ & Hu & Ht & _).
    assert (Hnot : r' ∉ refs tmod).
    { intros Hin. destruct (Ht _ HmD) as [Hnotin _].
      assert (s' = 0%nat) as -> by (now apply (Hu s' 0%nat smod' tmod r')).
      now apply Hnotin. }
    split; [exact Hnot | now apply Hindep].
Qed.

Lemma side_scopes_not_exported_witness :
  exists doc tmod,
    parse side_scope_trace = Document doc /\
    modules doc !! 0%nat = Some tmod /\ mname tmod = "tb" /\
    variables tmod = [("!", 0%nat); ("$", 1%nat)] /\
    _shadow_modules (top doc) = [1%nat] /\
    modules doc !! 1%nat = Some {| mname := "dut"; variables := [("#", 2%nat)] |} /\
    (2%nat ∉ refs tmod) /\
    forall reg' expr,
      export_pwl (H := sympy_standin)
        {| registers := <[2%nat := reg']> (registers doc); modules := modules doc;
           top := top doc |} expr
      = export_pwl (H := sympy_standin) doc expr.
Proof.
  destruct (parse side_scope_trace) as [doc| |] eqn:Hparse; try (vm_compute in Hparse; discriminate).
  destruct (side_scopes_not_exported (H := sympy_standin) [Yield (TIMESCALE "1 ns")]
              [Yield (VAR clk_decl); Yield (VAR en_decl)]
              (Yield (VAR data_decl) :: drop 6 side_scope_trace)
              "tb" "dut" doc)
    as (tmod & smod & (_ & Htmod & Hname) & _ & _ & (tmod_s & Htmod_s & Hvars) & Hdecl & _).
  - intros ident Hin. apply list_elem_of_singleton in Hin. discriminate.
  - discriminate.
  - exact Hparse.
  - destruct (Hdecl [] (drop 6 side_scope_trace) data_decl ClsRegister eq_refl)
      as (reg & smod_d & _ & _ & _ & _ & _ & _ & Hnot & Hindep).
    + intros ident Hin. now apply elem_of_nil in Hin.
    + reflexivity.
    + exists doc, tmod. split; [reflexivity|]. split; [exact Htmod|]. split; [exact Hname|].
      split; [rewrite Hvars; vm_compute in Htmod_s; now injection Htmod_s as <-|].
      vm_compute in Hparse. injection Hparse as <-.
      split; [reflexivity|]. split; [reflexivity|]. split; [exact Hnot | exact Hindep].
Defined.

Lemma ambiguous_value_excludes_signal_witness :
  let fr := frame_after (Yield (TIMESCALE "1 ns") :: two_scope_head) in
  let fr1 := snd (parse_token false (CHANGE_SCALAR "!" (VStr "x")) fr) in
  let fr2 := snd (parse_loop false two_scope_tail fr1) in
  fst (parse_token false (CHANGE_SCALAR "!" (VStr "x")) fr) = Ok tt
  /\ (exists reg1,
        registers (world fr1) !! 0%nat = Some reg1 /\
        timing_assignments reg1 = timing_assignments clk_before_x /\
        data reg1 = data clk_before_x /\
        export_pwl_safe reg1 = false)
  /\ (forall r', r' <> 0%nat -> registers (world fr1) !! r' = registers (world fr) !! r')
  /\ (exists reg2,
        registers (world fr2) !! 0%nat = Some reg2 /\
        export_pwl_safe reg2 = false /\
        forall timescale expr,
          generate_piecewise_linear (H := sympy_standin) reg2 timescale expr = Ok "").
Proof.
  apply (ambiguous_value_excludes_signal (H := sympy_standin) false
           (frame_after (Yield (TIMESCALE "1 ns") :: two_scope_head)) "!" "x"
           0%nat 0%nat tb_module clk_before_x (4 # 1)%Q false two_scope_tail);
    vm_compute; reflexivity.
Defined.

(** A signal that was given an [x] is left out of the exported text, and the
    other signal of the top module is exported as usual. *)
Example ambiguous_signal_left_out :
  export_of (H := sympy_standin) two_scope_trace (expr_of 0 0)
  = Ok (nl +:+ "VEN EN 0 pwl(0 vvdd" +:+ nl +:+ "+'5.0ns' vvdd 'trf + 5.0ns' 0 )" +:+ nl +:+ nl +:+ nl).
Proof. vm_compute. reflexivity. Qed.

(** ** The expression resolver *)

Lemma str_mul_one (s : string) : str_mul s 1 = s.
Proof. reflexivity. Qed.

Lemma eval_arg_kept (base : option Z) (unit arg : string) :
  py_float arg = PF_error -> eval_arg base unit arg = Ok arg.
Proof. intros Hf. unfold eval_arg. now rewrite Hf. Qed.

Lemma eval_arg_number (unit arg : string) (x : float) :
  py_float arg = PF_num x -> eval_arg (Some 1) unit arg = Ok (float_str x +:+ unit).
Proof. intros Hf. unfold eval_arg. rewrite Hf. simpl. rewrite str_mul_one, Hf. reflexivity. Qed.

Lemma rmap_Forall2 {A B} (f : A -> result B) (R : A -> B -> Prop) (l : list A) :
  (forall a, a ∈ l -> exists b, f a = Ok b /\ R a b) ->
  exists bs, rmap f l = Ok bs /\ Forall2 R l bs.
Proof.
  induction l as [|a l IH]; intros Hall; simpl.
  - exists []. split; [reflexivity | constructor].
  - destruct (Hall a) as (b & Hb & Rb); [left|].
    destruct IH as (bs & Hbs & Rbs); [intros a' Hin; apply Hall; now right|].
    exists (b :: bs). rewrite Hb, Hbs. split; [reflexivity | now constructor].
Qed.

(** *** The text of a float *)

Lemma pretty_N_char_digit (x : N) : is_digit (pretty_N_char x) = true.
Proof. unfold pretty_N_char. repeat case_match; reflexivity. Qed.

Lemma pretty_N_go_digits (x : N) (s : string) :
  all_digits s = true -> all_digits (pretty_N_go x s) = true.
Proof.
  revert s. induction (N.lt_wf_0 x) as [x _ IH]; intros s Hs.
  destruct (decide (x = 0%N)) as [-> | Hx]; [now rewrite pretty_N_go_0|].
  rewrite pretty_N_go_step by lia. apply IH.
  - apply N.div_lt; lia.
  - simpl. now rewrite pretty_N_char_digit, Hs.
Qed.

Lemma pretty_N_go_nonempty (x : N) (s : string) : s <> "" -> pretty_N_go x s <> "".
Proof.
  revert s. induction (N.lt_wf_0 x) as [x _ IH]; intros s Hs.
  destruct (decide (x = 0%N)) as [-> | Hx]; [now rewrite pretty_N_go_0|].
  rewrite pretty_N_go_step by lia. apply IH; [apply N.div_lt; lia | discriminate].
Qed.

Lemma pretty_Z_digits (z : Z) : 0 <= z -> all_digits (pretty z) = true /\ pretty z <> "".
Proof.
  intros Hz. destruct z as [|p|p]; [split; [reflexivity | discriminate] | | lia].
  unfold pretty, pretty_Z, pretty, pretty_positive, pretty, pretty_N.
  destruct (decide (N.pos p = 0%N)); [discriminate|]. split.
  - now apply pretty_N_go_digits.
  - rewrite pretty_N_go_step by lia. apply pretty_N_go_nonempty. discriminate.
Qed.

Lemma digit_char_digit (q : Z) : 0 <= q <= 9 -> is_digit (digit_char q) = true.
Proof.
  intros Hq.
  assert (q = 0 \/ q = 1 \/ q = 2 \/ q = 3 \/ q = 4 \/ q = 5 \/ q = 6 \/ q = 7 \/ q = 8 \/ q = 9)
    as Hc by lia.
  repeat (destruct Hc as [-> | Hc]; [reflexivity|]). now subst.
Qed.

Lemma digit_char_nonzero (q : Z) : 1 <= q <= 9 -> digit_char q <> "0"%char.
Proof.
  intros Hq.
  assert (q = 1 \/ q = 2 \/ q = 3 \/ q = 4 \/ q = 5 \/ q = 6 \/ q = 7 \/ q = 8 \/ q = 9)
    as Hc by lia.
  repeat (destruct Hc as [-> | Hc]; [discriminate|]). subst. discriminate.
Qed.

Lemma last_char_cons (c : ascii) (s : string) : s <> "" -> last_char (String c s) = last_char s.
Proof. destruct s; [intros Hs; now destruct Hs | reflexivity]. Qed.

Lemma frac_digits_shape (J : nat) :
  forall (fuel : nat) (r d : Z),
    0 <= r < d -> (d | r * 10 ^ Z.of_nat J) -> (J < fuel)%nat ->
    all_digits (frac_digits fuel r d) = true /\
    (r = 0 -> frac_digits fuel r d = "") /\
    (r <> 0 -> exists c, last_char (frac_digits fuel r d) = Some c /\ c <> "0"%char).
Proof.
  induction J as [|J IH]; intros fuel r d Hr Hdiv Hfuel.
  - destruct fuel as [|fuel]; [lia|]. simpl.
    assert (r = 0) as ->.
    { rewrite Z.mul_1_r in Hdiv. destruct Hdiv as [k Hk].
      assert (k = 0) by nia. subst. lia. }
    simpl. split; [reflexivity|]. split; [reflexivity | intros Hne; now destruct Hne].
  - destruct fuel as [|fuel]; [lia|]. cbn [frac_digits].
    destruct (Z.eqb_spec r 0) as [-> | Hne].
    + split; [reflexivity|]. split; [reflexivity | intros Hne; now destruct Hne].
    + assert (Hd : 0 < d) by lia.
      pose proof (Z.div_mod (10 * r) d ltac:(lia)) as Hdm.
      pose proof (Z.mod_pos_bound (10 * r) d Hd) as Hmod.
      assert (Hq : 0 <= 10 * r / d <= 9).
      { split; [apply Z.div_pos; lia|].
        assert (10 * r / d < 10); [|lia]. apply Z.div_lt_upper_bound; lia. }
      destruct (IH fuel ((10 * r) mod d) d Hmod) as (Hall & Hzero & Hlast); [|lia|].
      { replace (((10 * r) mod d) * 10 ^ Z.of_nat J)
          with (r * 10 ^ Z.of_nat (S J) - d * ((10 * r / d) * 10 ^ Z.of_nat J)).
        - apply Z.divide_sub_r; [exact Hdiv | apply Z.divide_factor_l].
        - rewrite Nat2Z.inj_succ, Z.pow_succ_r by lia. nia. }
      split; [|split].
      * cbn [all_digits]. now rewrite digit_char_digit, Hall.
      * intros H0. lia.
      * intros _. destruct (Z.eq_dec ((10 * r) mod d) 0) as [Hz | Hnz].
        -- rewrite (Hzero Hz). exists (digit_char (10 * r / d)). split; [reflexivity|].
           apply digit_char_nonzero. nia.
        -- destruct (Hlast Hnz) as (c & Hc & Hcne). exists c. split; [|exact Hcne].
           rewrite last_char_cons; [exact Hc|].
           intros Hempty. rewrite Hempty in Hc. discriminate.
Qed.

Lemma cut_at_point (a b : string) :
  all_digits a = true ->
  cut_at (fun c => bool_decide (c = "."%char)) (a +:+ String "." b) = (a, Some b).
Proof.
  induction a as [|c a IH]; intros Ha; [reflexivity|].
  simpl in Ha. apply andb_prop in Ha as [Hc Ha].
  rewrite str_app_cons. cbn [cut_at].
  rewrite bool_decide_eq_false_2 by (intros ->; discriminate).
  now rewrite (IH Ha).
Qed.

Lemma is_digit_not_minus (c : ascii) : is_digit c = true -> c <> "-"%char.
Proof. intros Hc ->. discriminate. Qed.

Lemma float_str_shortest_of_den (x : Q) (J : nat) :
  (J < 20)%nat -> (Zpos (Qden x) | 10 ^ Z.of_nat J) ->
  shortest_decimal (float_str x) = true.
Proof.
  intros HJ Hdiv. unfold float_str.
  set (n := Qnum x). set (d := Zpos (Qden x)) in *.
  assert (Hd : 0 < d) by (subst d; lia).
  pose proof (Z.mod_pos_bound (Z.abs n) d Hd) as Hr.
  destruct (frac_digits_shape J 20 (Z.abs n mod d) d Hr) as (Hall & Hzero & Hlast);
    [now apply Z.divide_mul_r | exact HJ |].
  destruct (pretty_Z_digits (Z.abs n / d)) as [Hip Hne]; [apply Z.div_pos; lia|].
  set (ip := pretty (Z.abs n / d)) in *.
  set (fr := frac_digits 20 (Z.abs n mod d) d) in *.
  set (fr' := match fr with "" => "0" | String _ _ => fr end).
  assert (Hfr' : all_digits fr' = true /\
                 (bool_decide (fr' = "0") ||
                  match last_char fr' with
                  | Some c => negb (bool_decide (c = "0"%char))
                  | None => false
                  end) = true).
  { subst fr'. destruct fr as [|c fr0] eqn:Hfr; [split; reflexivity|].
    split; [exact Hall|].
    destruct (Z.eq_dec (Z.abs n mod d) 0) as [Hz | Hnz]; [now specialize (Hzero Hz)|].
    destruct (Hlast Hnz) as (c' & -> & Hc'). apply orb_true_iff. right.
    now rewrite bool_decide_eq_false_2. }
  destruct Hfr' as [Hfr1 Hfr2].
  assert (Hbody : shortest_decimal (ip +:+ "." +:+ fr') = true).
  { unfold shortest_decimal.
    destruct ip as [|c ip0] eqn:Hipe; [now destruct Hne|].
    rewrite str_app_cons.
    assert (Hc : c <> "-"%char).
    { apply is_digit_not_minus. simpl in Hip. now apply andb_prop in Hip as [Hc _]. }
    rewrite (bool_decide_eq_false_2 _ Hc). rewrite <- str_app_cons.
    change ("." +:+ fr') with (String "." fr').
    rewrite (cut_at_point _ _ Hip), Hip, Hfr1, Hfr2.
    now rewrite bool_decide_eq_false_2. }
  destruct (n <? 0).
  - change ("-" +:+ ip +:+ "." +:+ fr') with (String "-" (ip +:+ "." +:+ fr')).
    unfold shortest_decimal. rewrite bool_decide_eq_true_2 by reflexivity.
    change ("." +:+ fr') with (String "." fr').
    rewrite (cut_at_point _ _ Hip), Hip, Hfr1, Hfr2.
    now rewrite bool_decide_eq_false_2.
  - exact Hbody.
Qed.

Lemma Qred_den_divides (q : Q) : (Zpos (Qden (Qred q)) | Zpos (Qden q)).
Proof.
  destruct q as [a b]. unfold Qred.
  pose proof (Z.ggcd_correct_divisors a (Zpos b)) as Hdiv.
  pose proof (Z.ggcd_gcd a (Zpos b)) as Hg.
  pose proof (Z.gcd_nonneg a (Zpos b)) as Hnn.
  destruct (Z.ggcd a (Zpos b)) as [g [aa bb]]. simpl in *. destruct Hdiv as [Ha Hb].
  subst g. assert (0 < bb) by nia.
  rewrite Z2Pos.id by lia. exists (Z.gcd a (Zpos b)). lia.
Qed.

Lemma digit_of_range (c : ascii) (d : Z) : digit_of c = Some d -> digit_range d.
Proof.
  unfold digit_of, digit_range. destruct (_ && _) eqn:Hb; [|discriminate].
  intros [= <-]. apply andb_prop in Hb as [H1 H2].
  apply Nat.leb_le in H1, H2. lia.
Qed.

Lemma digit_group_range (s : string) (b : bool) (ds : list Z) :
  digit_group s b = Some ds -> Forall digit_range ds.
Proof.
  revert b ds. induction s as [|c s IH]; intros b ds; cbn [digit_group].
  - destruct b; [intros [= <-]; constructor | discriminate].
  - destruct (digit_of c) as [d|] eqn:Hd.
    + destruct (digit_group s true) as [ds'|] eqn:Hg; [|discriminate].
      intros [= <-]. constructor; [now apply (digit_of_range c) | now apply (IH true)].
    + destruct (decide (c = "_"%char)); [|discriminate].
      destruct b; [apply IH | discriminate].
Qed.

Lemma mantissa_digits_range (m : string) (ds fs : list Z) :
  mantissa_digits m = Some (ds, fs) -> Forall digit_range (ds ++ fs).
Proof.
  unfold mantissa_digits.
  destruct (cut_at _ m) as [i [f|]].
  - destruct i as [|ci i], f as [|cf f]; try discriminate.
    + destruct (digit_group (String cf f) false) as [fs'|] eqn:Hf; [|discriminate].
      intros [= <- <-]. now apply digit_group_range in Hf.
    + destruct (digit_group (String ci i) false) as [ds'|] eqn:Hi; [|discriminate].
      intros [= <- <-]. rewrite app_nil_r. now apply digit_group_range in Hi.
    + destruct (digit_group (String ci i) false) as [ds'|] eqn:Hi; [|discriminate].
      destruct (digit_group (String cf f) false) as [fs'|] eqn:Hf; [|discriminate].
      intros [= <- <-]. apply Forall_app. split; eapply digit_group_range; eassumption.
  - destruct (digit_group i false) as [ds'|] eqn:Hi; [|discriminate].
    intros [= <- <-]. rewrite app_nil_r. now apply digit_group_range in Hi.
Qed.

Lemma foldl_digits (acc : Z) (ds : list Z) :
  foldl (fun acc d => 10 * acc + d) acc ds
  = acc * 10 ^ Z.of_nat (length ds) + digits_value ds.
Proof.
  unfold digits_value. revert acc. induction ds as [|d ds IH]; intros acc.
  - simpl. lia.
  - cbn [foldl length]. rewrite IH, (IH (10 * 0 + d)).
    rewrite Nat2Z.inj_succ, Z.pow_succ_r by lia. lia.
Qed.

Lemma digits_value_app (a b : list Z) :
  digits_value (a ++ b) = digits_value a * 10 ^ Z.of_nat (length b) + digits_value b.
Proof. unfold digits_value at 1. rewrite foldl_app. now rewrite foldl_digits. Qed.

Lemma digits_value_zeros (z : nat) : digits_value (replicate z 0) = 0.
Proof.
  induction z as [|z IH]; [reflexivity|].
  change (replicate (S z) 0) with ([0] ++ replicate z 0).
  rewrite digits_value_app, IH. reflexivity.
Qed.

Lemma digits_value_bound (ds : list Z) :
  Forall digit_range ds -> 0 <= digits_value ds < 10 ^ Z.of_nat (length ds).
Proof.
  induction ds as [|d ds IH] using rev_ind; intros Hall.
  - simpl. unfold digits_value. simpl. lia.
  - apply Forall_app in Hall as [Hds Hd]. rewrite Forall_singleton in Hd.
    specialize (IH Hds). rewrite digits_value_app, length_app. cbn [length].
    unfold digit_range in Hd. change (digits_value [d]) with (10 * 0 + d).
    replace (Z.of_nat (length ds + 1)) with (Z.succ (Z.of_nat (length ds))) by lia.
    rewrite Z.pow_succ_r by lia. change (10 ^ Z.of_nat 1) with 10. lia.
Qed.

Lemma drop_zeros_split (ds : list Z) : exists z, ds = replicate z 0 ++ drop_zeros ds.
Proof.
  induction ds as [|d ds IH]; [now exists O|].
  destruct (Z.eq_dec d 0) as [-> | Hd].
  - destruct IH as [z Hz]. exists (S z). cbn [drop_zeros replicate]. simpl. now rewrite <- Hz.
  - exists O. destruct d; [now destruct Hd | reflexivity | reflexivity].
Qed.

Lemma rev_replicate_zeros (z : nat) : rev (replicate z 0) = replicate z 0.
Proof.
  induction z as [|z IH]; [reflexivity|].
  cbn [replicate rev]. rewrite IH. clear IH.
  induction z as [|z IH]; [reflexivity|]. cbn [replicate]. simpl. now rewrite IH.
Qed.

(** The digits are the significant ones followed by zeros, up to leading zeros. *)
Lemma significant_value (ds : list Z) :
  Forall digit_range ds ->
  exists z : nat,
    digits_value ds = digits_value (significant ds) * 10 ^ Z.of_nat z /\
    0 <= digits_value (significant ds) < 10 ^ Z.of_nat (length (significant ds)).
Proof.
  intros Hall. unfold significant.
  destruct (drop_zeros_split ds) as [z1 H1].
  destruct (drop_zeros_split (rev (drop_zeros ds))) as [z2 H2].
  set (l2 := drop_zeros (rev (drop_zeros ds))) in *.
  assert (Hl1 : drop_zeros ds = rev l2 ++ replicate z2 0).
  { rewrite <- (rev_involutive (drop_zeros ds)), H2, rev_app_distr.
    now rewrite rev_replicate_zeros. }
  exists z2. split.
  - rewrite H1 at 1. rewrite digits_value_app, digits_value_zeros, Hl1.
    rewrite digits_value_app, digits_value_zeros, length_replicate. lia.
  - apply digits_value_bound.
    rewrite H1, Hl1 in Hall. apply Forall_app in Hall as [_ Hall].
    now apply Forall_app in Hall as [Hall _].
Qed.

(** Inversion of [py_float] at a value. *)
Lemma py_float_num_inv (s : string) (x : Q) :
  py_float s = PF_num x ->
  x = 0%Q \/
  exists (neg : bool) (L : list Z) (k : nat),
    Forall digit_range L /\
    digits_value L <> 0 /\
    (length (significant L) <= 15)%nat /\
    10 ^ Z.of_nat k <= digits_value L * 10 ^ 4 /\
    digits_value L < 10 ^ (16 + Z.of_nat k) /\
    x = Qred (Qmake (if neg then - digits_value L else digits_value L)
                    (Z.to_pos (10 ^ Z.of_nat k))).
Proof.
  unfold py_float. destruct (split_sign (str_strip s)) as [neg body].
  destruct (bool_decide _); [discriminate|].
  destruct (cut_at _ body) as [m e].
  destruct (mantissa_digits m) as [[ds fs]|] eqn:Hm; [|discriminate].
  destruct e as [ex|]; [destruct (exponent_ok ex); discriminate|].
  destruct (15 <? length (significant (ds ++ fs)))%nat eqn:Hsig; [discriminate|].
  destruct (Z.eqb_spec (digits_value (ds ++ fs)) 0) as [H0 | Hn0].
  - destruct neg; [discriminate|]. intros [= <-]. now left.
  - destruct (_ && _) eqn:Hrange; [|discriminate].
    intros [= <-]. right. exists neg, (ds ++ fs), (length fs).
    apply andb_prop in Hrange as [Hlo Hhi]. apply Z.leb_le in Hlo. apply Z.ltb_lt in Hhi.
    apply Nat.ltb_ge in Hsig.
    split; [now apply mantissa_digits_range in Hm|].
    split; [exact Hn0|]. split; [exact Hsig|]. split; [exact Hlo|].
    split; [exact Hhi | reflexivity].
Qed.

Lemma py_float_den (s : string) (x : Q) :
  py_float s = PF_num x -> (Zpos (Qden x) | 10 ^ 18).
Proof.
  intros Hp. apply py_float_num_inv in Hp as [-> | (neg & L & k & Hall & Hn0 & Hsig & Hlo & _ & ->)].
  - exists (10 ^ 18). reflexivity.
  - destruct (significant_value L Hall) as (z & Hval & Hm).
    set (n := digits_value L) in *. set (m := digits_value (significant L)) in *.
    assert (Hm15 : m < 10 ^ 15).
    { eapply Z.lt_le_trans; [apply Hm|]. apply Z.pow_le_mono_r; lia. }
    assert (Hk : (k <= z + 18)%nat).
    { destruct (le_lt_dec k (z + 18)) as [Hle | Hgt]; [exact Hle | exfalso].
      assert (10 ^ Z.of_nat (z + 19) <= 10 ^ Z.of_nat k) by (apply Z.pow_le_mono_r; lia).
      rewrite Hval in Hlo.
      assert (10 ^ Z.of_nat (z + 19) = 10 ^ 15 * 10 ^ Z.of_nat z * 10 ^ 4).
      { rewrite Nat2Z.inj_add, Z.pow_add_r by lia. change (Z.of_nat 19) with (15 + 4). 
        rewrite Z.pow_add_r by lia. lia. }
      assert (0 < 10 ^ Z.of_nat z) by (apply Z.pow_pos_nonneg; lia).
      nia. }
    set (e1 := (z - k)%nat). set (e2 := (k - z)%nat).
    set (sg := fun v : Z => if neg then - v else v).
    assert (Hq : Qred (Qmake (sg n) (Z.to_pos (10 ^ Z.of_nat k)))
                 = Qred (Qmake (sg (m * 10 ^ Z.of_nat e1)) (Z.to_pos (10 ^ Z.of_nat e2)))).
    { apply Qred_complete. unfold Qeq. cbn [Qnum Qden].
      rewrite !Z2Pos.id by (apply Z.pow_pos_nonneg; lia).
      assert (Hpow : 10 ^ Z.of_nat z * 10 ^ Z.of_nat e2 = 10 ^ Z.of_nat e1 * 10 ^ Z.of_nat k).
      { rewrite <- !Z.pow_add_r by lia. f_equal. subst e1 e2. lia. }
      subst sg. cbn beta. rewrite Hval. destruct neg; nia. }
    fold (sg n). rewrite Hq.
    eapply Z.divide_trans; [apply Qred_den_divides|]. cbn [Qden].
    rewrite Z2Pos.id by (apply Z.pow_pos_nonneg; lia).
    exists (10 ^ (18 - Z.of_nat e2)). rewrite <- Z.pow_add_r by (subst e2; lia).
    f_equal. lia.
Qed.

Lemma float_str_shortest (s : string) (x : Q) :
  py_float s = PF_num x -> shortest_decimal (float_str x) = true.
Proof.
  intros Hp. apply (float_str_shortest_of_den x 18); [lia|].
  now apply py_float_den in Hp.
Qed.

Lemma is_digit_range (c : ascii) :
  is_digit c = true -> (48 <= nat_of_ascii c <= 57)%nat.
Proof.
  unfold is_digit, digit_of. destruct (_ && _) eqn:Hb; [|discriminate].
  intros _. apply andb_prop in Hb as [H1 H2]. apply Nat.leb_le in H1, H2. lia.
Qed.

Lemma plain_char_range (c : ascii) :
  plain_char c = true -> (45 <= nat_of_ascii c <= 57)%nat.
Proof.
  unfold plain_char. intros Hc. apply orb_prop in Hc as [Hc | Hc].
  - apply orb_prop in Hc as [Hc | Hc].
    + apply is_digit_range in Hc. lia.
    + apply bool_decide_eq_true in Hc as ->.
      change (nat_of_ascii ".") with 46%nat. lia.
  - apply bool_decide_eq_true in Hc as ->.
    change (nat_of_ascii "-") with 45%nat. lia.
Qed.

Lemma plain_not_space (c : ascii) : plain_char c = true -> isspace c = false.
Proof.
  intros Hc. apply plain_char_range in Hc. unfold isspace.
  apply orb_false_iff. split; apply andb_false_iff.
  - right. apply Nat.leb_gt. lia.
  - right. apply Nat.leb_gt. lia.
Qed.

Lemma plain_lower (c : ascii) : plain_char c = true -> lower c = c.
Proof.
  intros Hc. apply plain_char_range in Hc. unfold lower.
  replace (65 <=? nat_of_ascii c)%nat with false; [reflexivity|].
  symmetry. apply Nat.leb_gt. lia.
Qed.

Lemma plain_not_e (c : ascii) :
  plain_char c = true -> bool_decide (c = "e"%char \/ c = "E"%char) = false.
Proof.
  intros Hc. apply plain_char_range in Hc. apply bool_decide_eq_false_2.
  intros [-> | ->];
    [change (nat_of_ascii "e") with 101%nat in Hc | change (nat_of_ascii "E") with 69%nat in Hc];
    lia.
Qed.

Lemma all_digits_plain (s : string) : all_digits s = true -> all_plain s = true.
Proof.
  induction s as [|c s IH]; [reflexivity|]. cbn [all_digits all_plain].
  intros Hs. apply andb_prop in Hs as [Hc Hs]. unfold plain_char. now rewrite Hc, IH.
Qed.

Lemma all_plain_app (a b : string) :
  all_plain a = true -> all_plain b = true -> all_plain (a +:+ b) = true.
Proof.
  induction a as [|c a IH]; intros Ha Hb; [exact Hb|].
  rewrite str_app_cons. cbn [all_plain] in *. apply andb_prop in Ha as [Hc Ha].
  now rewrite Hc, IH.
Qed.

Lemma rstrip_plain (s : string) : all_plain s = true -> rstrip s = s.
Proof.
  induction s as [|c s IH]; [reflexivity|]. cbn [all_plain rstrip].
  intros Hs. apply andb_prop in Hs as [Hc Hs]. rewrite (IH Hs).
  destruct s; [now rewrite (plain_not_space c Hc) | reflexivity].
Qed.

Lemma str_strip_plain (s : string) : all_plain s = true -> str_strip s = s.
Proof.
  intros Hs. unfold str_strip.
  assert (lstrip s = s) as ->; [|now apply rstrip_plain].
  destruct s as [|c s]; [reflexivity|]. cbn [all_plain lstrip] in *.
  apply andb_prop in Hs as [Hc _]. now rewrite (plain_not_space c Hc).
Qed.

Lemma str_lower_plain (s : string) : all_plain s = true -> str_lower s = s.
Proof.
  induction s as [|c s IH]; [reflexivity|]. cbn [all_plain str_lower].
  intros Hs. apply andb_prop in Hs as [Hc Hs]. now rewrite (plain_lower c Hc), (IH Hs).
Qed.

Lemma cut_at_e_plain (s : string) :
  all_plain s = true ->
  cut_at (fun c => bool_decide (c = "e"%char \/ c = "E"%char)) s = (s, None).
Proof.
  induction s as [|c s IH]; [reflexivity|]. cbn [all_plain cut_at].
  intros Hs. apply andb_prop in Hs as [Hc Hs]. now rewrite (plain_not_e c Hc), (IH Hs).
Qed.

Lemma digit_group_digits (s : string) :
  all_digits s = true ->
  digit_group s true = Some (digits_of s) /\
  (s <> "" -> digit_group s false = Some (digits_of s)).
Proof.
  induction s as [|c s IH]; intros Hs.
  - split; [reflexivity | intros Hne; now destruct Hne].
  - cbn [all_digits] in Hs. apply andb_prop in Hs as [Hc Hs].
    destruct (IH Hs) as [IHt _]. cbn [digit_group digits_of].
    unfold is_digit in Hc. destruct (digit_of c) as [d|]; [|discriminate].
    rewrite IHt. split; [reflexivity | intros _; reflexivity].
Qed.

Lemma digits_of_range (s : string) : Forall digit_range (digits_of s).
Proof.
  induction s as [|c s IH]; [constructor|]. cbn [digits_of].
  destruct (digit_of c) as [d|] eqn:Hd; [|exact IH].
  constructor; [now apply (digit_of_range c) | exact IH].
Qed.

Lemma digits_value_cons (d : Z) (ds : list Z) :
  digits_value (d :: ds) = d * 10 ^ Z.of_nat (length ds) + digits_value ds.
Proof. change (d :: ds) with ([d] ++ ds). rewrite digits_value_app. unfold digits_value at 1. simpl. lia. Qed.

Lemma pretty_N_char_value (x : N) :
  (x < 10)%N -> digit_of (pretty_N_char x) = Some (Z.of_N x).
Proof.
  intros Hx.
  assert (x = 0 \/ x = 1 \/ x = 2 \/ x = 3 \/ x = 4 \/ x = 5 \/ x = 6 \/ x = 7 \/ x = 8 \/ x = 9)%N
    as Hc by lia.
  repeat (destruct Hc as [-> | Hc]; [reflexivity|]). now subst.
Qed.

Lemma pretty_N_go_value (x : N) (s : string) :
  digits_value (digits_of (pretty_N_go x s))
  = Z.of_N x * 10 ^ Z.of_nat (length (digits_of s)) + digits_value (digits_of s).
Proof.
  revert s. induction (N.lt_wf_0 x) as [x _ IH]; intros s.
  destruct (decide (x = 0%N)) as [-> | Hx];
    [rewrite pretty_N_go_0; change (Z.of_N 0) with 0; lia|].
  rewrite pretty_N_go_step by lia. rewrite IH by (apply N.div_lt; lia).
  cbn [digits_of]. rewrite pretty_N_char_value by (apply N.mod_lt; lia).
  rewrite digits_value_cons. cbn [length]. rewrite Nat2Z.inj_succ, Z.pow_succ_r by lia.
  pose proof (N.div_mod x 10 ltac:(lia)) as Hdm.
  rewrite N2Z.inj_div, N2Z.inj_mod. 
  pose proof (Z.div_mod (Z.of_N x) 10 ltac:(lia)) as Hz. change (Z.of_N 10) with 10. nia.
Qed.

Lemma pretty_Z_value (z : Z) : 0 <= z -> digits_value (digits_of (pretty z)) = z.
Proof.
  intros Hz. destruct z as [|p|p]; [reflexivity| |lia].
  unfold pretty, pretty_Z, pretty, pretty_positive, pretty, pretty_N.
  destruct (decide (N.pos p = 0%N)); [discriminate|].
  rewrite pretty_N_go_value. cbn [digits_of length].
  change (digits_value []) with 0. change (Z.of_N (N.pos p)) with (Z.pos p).
  change (10 ^ Z.of_nat 0) with 1. lia.
Qed.

Lemma digit_char_value (q : Z) : 0 <= q <= 9 -> digit_of (digit_char q) = Some q.
Proof.
  intros Hq.
  assert (q = 0 \/ q = 1 \/ q = 2 \/ q = 3 \/ q = 4 \/ q = 5 \/ q = 6 \/ q = 7 \/ q = 8 \/ q = 9)
    as Hc by lia.
  repeat (destruct Hc as [-> | Hc]; [reflexivity|]). now subst.
Qed.

Lemma frac_digits_value (J : nat) :
  forall (fuel : nat) (r d : Z),
    0 <= r < d -> (d | r * 10 ^ Z.of_nat J) -> (J < fuel)%nat ->
    digits_value (digits_of (frac_digits fuel r d)) * d
    = r * 10 ^ Z.of_nat (length (digits_of (frac_digits fuel r d))).
Proof.
  induction J as [|J IH]; intros fuel r d Hr Hdiv Hfuel.
  - destruct fuel as [|fuel]; [lia|].
    destruct (frac_digits_shape 0 (S fuel) r d Hr Hdiv Hfuel) as (_ & Hzero & _).
    assert (r = 0) as ->.
    { rewrite Z.mul_1_r in Hdiv. destruct Hdiv as [k Hk].
      assert (k = 0) by nia. subst. lia. }
    rewrite (Hzero eq_refl). reflexivity.
  - destruct fuel as [|fuel]; [lia|]. cbn [frac_digits].
    destruct (Z.eqb_spec r 0) as [-> | Hne]; [reflexivity|].
    assert (Hd : 0 < d) by lia.
    pose proof (Z.div_mod (10 * r) d ltac:(lia)) as Hdm.
    pose proof (Z.mod_pos_bound (10 * r) d Hd) as Hmod.
    assert (Hq : 0 <= 10 * r / d <= 9).
    { split; [apply Z.div_pos; lia|].
      assert (10 * r / d < 10); [|lia]. apply Z.div_lt_upper_bound; lia. }
    cbn [digits_of]. rewrite (digit_char_value _ Hq), digits_value_cons. cbn [length].
    rewrite Nat2Z.inj_succ, Z.pow_succ_r by lia.
    specialize (IH fuel ((10 * r) mod d) d Hmod).
    rewrite Z.mul_add_distr_r, IH; [nia| |lia].
    replace (((10 * r) mod d) * 10 ^ Z.of_nat J)
      with (r * 10 ^ Z.of_nat (S J) - d * ((10 * r / d) * 10 ^ Z.of_nat J)).
    + apply Z.divide_sub_r; [exact Hdiv | apply Z.divide_factor_l].
    + rewrite Nat2Z.inj_succ, Z.pow_succ_r by lia. nia.
Qed.

Lemma drop_zeros_head (l : list Z) (d : Z) (l' : list Z) : drop_zeros l = d :: l' -> d <> 0.
Proof.
  induction l as [|c l IH]; [discriminate|]. cbn [drop_zeros].
  destruct c; [exact IH | intros [= <- _]; discriminate | intros [= <- _]; discriminate].
Qed.

(** The significant digits start and end with a digit that is not zero. *)
Lemma significant_ends (l : list Z) (h : Z) (t : list Z) :
  significant l = h :: t ->
  h <> 0 /\ exists init last, significant l = init ++ [last] /\ last <> 0.
Proof.
  unfold significant. intros Hs.
  destruct (drop_zeros_split (rev (drop_zeros l))) as [z2 H2].
  set (l2 := drop_zeros (rev (drop_zeros l))) in *.
  assert (Hl1 : drop_zeros l = rev l2 ++ replicate z2 0).
  { rewrite <- (rev_involutive (drop_zeros l)), H2, rev_app_distr.
    now rewrite rev_replicate_zeros. }
  split.
  - rewrite Hs in Hl1. cbn [app] in Hl1. now apply drop_zeros_head in Hl1.
  - destruct l2 as [|h2 t2] eqn:Hl2; [discriminate|].
    exists (rev t2), h2. split; [reflexivity|].
    now apply (drop_zeros_head (rev (drop_zeros l)) h2 t2).
Qed.

Lemma digits_value_head (h : Z) (t : list Z) :
  Forall digit_range (h :: t) -> h <> 0 ->
  10 ^ Z.of_nat (length t) <= digits_value (h :: t).
Proof.
  intros Hall Hh. apply Forall_cons in Hall as [Hr Ht].
  rewrite digits_value_cons. pose proof (digits_value_bound t Ht). unfold digit_range in Hr.
  assert (0 < 10 ^ Z.of_nat (length t)) by (apply Z.pow_pos_nonneg; lia). nia.
Qed.

Lemma digits_value_last (init : list Z) (last : Z) :
  digits_value (init ++ [last]) = 10 * digits_value init + last.
Proof.
  rewrite digits_value_app. change (digits_value [last]) with (10 * 0 + last).
  change (10 ^ Z.of_nat (length [last])) with 10. lia.
Qed.

(** A number whose last decimal digit is not zero and that, scaled by a power
    of ten, equals a scaled [m], is at most [m]. *)
Lemma stripped_le (m' m : Z) (A B : nat) :
  0 < m -> m' mod 10 <> 0 -> m' * 10 ^ Z.of_nat A = m * 10 ^ Z.of_nat B -> m' <= m.
Proof.
  intros Hm Hmod Heq. destruct (le_lt_dec B A) as [Hle | Hlt].
  - replace (Z.of_nat A) with (Z.of_nat (A - B) + Z.of_nat B) in Heq by lia.
    rewrite Z.pow_add_r in Heq by lia.
    assert (0 < 10 ^ Z.of_nat B) by (apply Z.pow_pos_nonneg; lia).
    assert (0 < 10 ^ Z.of_nat (A - B)) by (apply Z.pow_pos_nonneg; lia).
    assert (m' * 10 ^ Z.of_nat (A - B) = m) by nia. nia.
  - exfalso. apply Hmod.
    replace (Z.of_nat B) with (Z.succ (Z.of_nat (B - A - 1)) + Z.of_nat A) in Heq by lia.
    rewrite Z.pow_add_r, Z.pow_succ_r in Heq by lia.
    assert (0 < 10 ^ Z.of_nat A) by (apply Z.pow_pos_nonneg; lia).
    assert (m' = 10 * (m * 10 ^ Z.of_nat (B - A - 1))) as -> by nia.
    now rewrite Z.mul_comm, Z.mod_mul.
Qed.

(** The parts of a printed float and their values. *)
Lemma float_str_parts (x : Q) :
  (Zpos (Qden x) | 10 ^ 18) ->
  exists ip fr,
    float_str x = (if Qnum x <? 0 then "-" else "") +:+ ip +:+ String "." fr /\
    all_digits ip = true /\ ip <> "" /\ all_digits fr = true /\ fr <> "" /\
    digits_value (digits_of ip) = Z.abs (Qnum x) / Zpos (Qden x) /\
    digits_value (digits_of fr) * Zpos (Qden x)
    = (Z.abs (Qnum x) mod Zpos (Qden x)) * 10 ^ Z.of_nat (length (digits_of fr)).
Proof.
  intros Hdiv. unfold float_str.
  set (n := Qnum x). set (d := Zpos (Qden x)) in *.
  assert (Hd : 0 < d) by (subst d; lia).
  pose proof (Z.mod_pos_bound (Z.abs n) d Hd) as Hr.
  assert (Hdiv' : (d | Z.abs n mod d * 10 ^ Z.of_nat 18)) by now apply Z.divide_mul_r.
  destruct (frac_digits_shape 18 20 (Z.abs n mod d) d Hr Hdiv' ltac:(lia))
    as (Hall & Hzero & Hlast).
  pose proof (frac_digits_value 18 20 (Z.abs n mod d) d Hr Hdiv' ltac:(lia)) as Hval.
  destruct (pretty_Z_digits (Z.abs n / d)) as [Hip Hne]; [apply Z.div_pos; lia|].
  exists (pretty (Z.abs n / d)).
  exists (match frac_digits 20 (Z.abs n mod d) d with
          | "" => "0"
          | String _ _ => frac_digits 20 (Z.abs n mod d) d
          end).
  split; [reflexivity|]. split; [exact Hip|]. split; [exact Hne|].
  rewrite pretty_Z_value by (apply Z.div_pos; lia).
  destruct (frac_digits 20 (Z.abs n mod d) d) as [|c fr0] eqn:Hfr.
  - assert (Z.abs n mod d = 0) as ->.
    { destruct (Z.eq_dec (Z.abs n mod d) 0) as [Hz | Hnz]; [exact Hz|].
      destruct (Hlast Hnz) as (c & Hc & _). discriminate. }
    repeat split; discriminate.
  - repeat split; [exact Hall | discriminate | exact Hval].
Qed.

Lemma Qred_idem (q : Q) : Qred (Qred q) = Qred q.
Proof. apply Qred_complete, Qred_correct. Qed.

Lemma py_float_in_fragment (s : string) (x : Q) :
  py_float s = PF_num x -> in_fragment x /\ (Zpos (Qden x) | 10 ^ 18).
Proof.
  intros Hp. split; [|now apply py_float_den in Hp].
  apply py_float_num_inv in Hp
    as [-> | (neg & L & k & Hall & Hn0 & Hsig & Hlo & Hhi & ->)].
  - split; [reflexivity | now left].
  - split; [apply Qred_idem|]. right.
    destruct (significant_value L Hall) as (z & Hval & Hm).
    pose proof (digits_value_bound L Hall) as Hn.
    set (n := digits_value L) in *. set (m := digits_value (significant L)) in *.
    set (q := Qmake (if neg then - n else n) (Z.to_pos (10 ^ Z.of_nat k))).
    pose proof (Qred_correct q) as Hq. unfold Qeq in Hq. subst q. cbn [Qnum Qden] in Hq.
    rewrite Z2Pos.id in Hq by (apply Z.pow_pos_nonneg; lia).
    set (a := Qnum (Qred (Qmake (if neg then - n else n) (Z.to_pos (10 ^ Z.of_nat k))))) in *.
    set (d := Zpos (Qden (Qred (Qmake (if neg then - n else n) (Z.to_pos (10 ^ Z.of_nat k)))))) in *.
    assert (Hd : 0 < d) by (subst d; lia).
    assert (HP : 0 < 10 ^ Z.of_nat k) by (apply Z.pow_pos_nonneg; lia).
    assert (Habs : Z.abs a * 10 ^ Z.of_nat k = n * d).
    { destruct neg; nia. }
    assert (Hz : 0 < 10 ^ Z.of_nat z) by (apply Z.pow_pos_nonneg; lia).
    exists m, z, k. split; [|split; [|split]].
    + split; [nia|]. eapply Z.lt_le_trans; [apply Hm|]. apply Z.pow_le_mono_r; lia.
    + rewrite Habs, Hval. reflexivity.
    + apply (Z.mul_le_mono_pos_r _ _ (10 ^ Z.of_nat k) HP). nia.
    + apply (Z.mul_lt_mono_pos_r (10 ^ Z.of_nat k) _ _ HP).
      rewrite Z.pow_add_r in Hhi by lia. nia.
Qed.

Lemma mantissa_digits_parts (ip fr : string) :
  all_digits ip = true -> ip <> "" -> all_digits fr = true -> fr <> "" ->
  mantissa_digits (ip +:+ String "." fr) = Some (digits_of ip, digits_of fr).
Proof.
  intros Hip Hipne Hfr Hfrne. unfold mantissa_digits. rewrite (cut_at_point _ _ Hip).
  destruct (digit_group_digits ip Hip) as [_ Hgi]. specialize (Hgi Hipne).
  destruct (digit_group_digits fr Hfr) as [_ Hgf]. specialize (Hgf Hfrne).
  destruct ip as [|ci ip]; [now destruct Hipne|].
  destruct fr as [|cf fr]; [now destruct Hfrne|].
  now rewrite Hgi, Hgf.
Qed.

Lemma digit_first_not_name (c : ascii) (s : string) :
  is_digit c = true ->
  ~ (String c s = "inf" \/ String c s = "infinity" \/ String c s = "nan").
Proof.
  intros Hc Hname. apply is_digit_range in Hc.
  destruct Hname as [Heq | [Heq | Heq]]; injection Heq as -> _;
    [change (nat_of_ascii "i") with 105%nat in Hc
    |change (nat_of_ascii "i") with 105%nat in Hc
    |change (nat_of_ascii "n") with 110%nat in Hc]; lia.
Qed.

(** The sign and the body of a printed float, as [float(s)] separates them. *)
Lemma split_sign_printed (neg : bool) (ip rest : string) :
  all_digits ip = true -> ip <> "" ->
  split_sign ((if neg then "-" else "") +:+ ip +:+ rest) = (neg, ip +:+ rest).
Proof.
  intros Hip Hne. destruct neg; [reflexivity|].
  rewrite str_app_nil_l. destruct ip as [|c ip]; [now destruct Hne|].
  rewrite str_app_cons. cbn [split_sign all_digits] in *.
  apply andb_prop in Hip as [Hc _]. apply is_digit_range in Hc.
  destruct (decide (c = "-"%char)) as [-> | _];
    [change (nat_of_ascii "-") with 45%nat in Hc; lia|].
  destruct (decide (c = "+"%char)) as [-> | _];
    [change (nat_of_ascii "+") with 43%nat in Hc; lia|].
  reflexivity.
Qed.

Lemma significant_short (P : list Z) (m : Z) (A B : nat) :
  Forall digit_range P -> 0 < m < 10 ^ 15 ->
  (forall z : nat, digits_value P = digits_value (significant P) * 10 ^ Z.of_nat z ->
                   digits_value (significant P) * 10 ^ Z.of_nat (z + A) = m * 10 ^ Z.of_nat B) ->
  (length (significant P) <= 15)%nat.
Proof.
  intros Hall Hm Hrel.
  destruct (significant_value P Hall) as (z & Hval & Hbound).
  specialize (Hrel z Hval).
  destruct (significant P) as [|h t] eqn:Hs; [simpl; lia|].
  destruct (significant_ends P h t Hs) as (Hh & init & last & Hlast & Hlne).
  assert (Hsig : Forall digit_range (h :: t)).
  { unfold significant in Hs. pose proof Hall as Hall'.
    destruct (drop_zeros_split P) as [z1 H1].
    destruct (drop_zeros_split (rev (drop_zeros P))) as [z2 H2].
    rewrite H1 in Hall'. apply Forall_app in Hall' as [_ Hall'].
    apply Forall_rev in Hall'. rewrite H2 in Hall'. apply Forall_app in Hall' as [_ Hall'].
    apply Forall_rev in Hall'. now rewrite Hs in Hall'. }
  pose proof (digits_value_head h t Hsig Hh) as Hlow.
  assert (Hmod : digits_value (h :: t) mod 10 <> 0).
  { rewrite Hs in Hlast. rewrite Hlast, digits_value_last.
    rewrite Hlast in Hsig. apply Forall_app in Hsig as [_ Hl]. rewrite Forall_singleton in Hl.
    unfold digit_range in Hl. rewrite Z.add_comm, Z.mul_comm, Z.mod_add by lia.
    rewrite Z.mod_small by lia. exact Hlne. }
  pose proof (stripped_le _ m _ _ ltac:(lia) Hmod Hrel) as Hle.
  cbn [length].
  destruct (le_lt_dec (length t) 14) as [Hok | Hbad]; [lia | exfalso].
  assert (10 ^ 15 <= 10 ^ Z.of_nat (length t)) by (apply Z.pow_le_mono_r; lia). lia.
Qed.

(** Printing a float of the fragment and reading the text back gives the
    float. *)
Lemma float_str_roundtrip (x : Q) :
  in_fragment x -> (Zpos (Qden x) | 10 ^ 18) -> py_float (float_str x) = PF_num x.
Proof.
  intros [Hred Hfrag] Hdiv.
  destruct Hfrag as [-> | (m & e & k & Hm & Heq & Hlo & Hhi)]; [reflexivity|].
  destruct (float_str_parts x Hdiv) as (ip & fr & Hstr & Hip & Hipne & Hfr & Hfrne & Vip & Vfr).
  set (a := Qnum x) in *. set (d := Zpos (Qden x)) in *.
  assert (Hd : 0 < d) by (subst d; lia).
  assert (HA : 0 < Z.abs a) by nia.
  pose proof (Z.div_mod (Z.abs a) d ltac:(lia)) as Hdm.
  set (ds := digits_of ip) in *. set (fs := digits_of fr) in *.
  set (k' := length fs) in *.
  assert (HP' : 0 < 10 ^ Z.of_nat k') by (apply Z.pow_pos_nonneg; lia).
  assert (Hn' : digits_value (ds ++ fs) * d = Z.abs a * 10 ^ Z.of_nat k').
  { rewrite digits_value_app. fold k'. rewrite Z.mul_add_distr_r, Vfr, Vip. nia. }
  assert (Hall : Forall digit_range (ds ++ fs)).
  { apply Forall_app. split; apply digits_of_range. }
  assert (Hplain : all_plain (ip +:+ String "." fr) = true).
  { apply all_plain_app; [now apply all_digits_plain|].
    cbn [all_plain]. now rewrite (all_digits_plain fr Hfr). }
  rewrite Hstr. unfold py_float.
  rewrite str_strip_plain.
  2:{ destruct (a <? 0); [|exact Hplain]. 
      change ("-" +:+ ip +:+ String "." fr) with (String "-" (ip +:+ String "." fr)).
      cbn [all_plain]. now rewrite Hplain. }
  rewrite (split_sign_printed (a <? 0) ip (String "." fr) Hip Hipne).
  cbv beta iota zeta.
  rewrite (str_lower_plain _ Hplain).
  rewrite bool_decide_eq_false_2.
  2:{ destruct ip as [|c ip0]; [now destruct Hipne|]. rewrite str_app_cons.
      intros Hname. cbn [all_digits] in Hip. apply andb_prop in Hip as [Hc _].
      now apply (digit_first_not_name c _ Hc Hname). }
  rewrite (cut_at_e_plain _ Hplain). cbv beta iota zeta.
  rewrite (mantissa_digits_parts ip fr Hip Hipne Hfr Hfrne).
  fold ds fs. cbv beta iota zeta. fold k'.
  replace (15 <? length (significant (ds ++ fs)))%nat with false.
  2:{ symmetry. apply Nat.ltb_ge.
      apply (significant_short (ds ++ fs) m k (e + k') Hall Hm).
      intros z Hz. rewrite Nat2Z.inj_add, Z.pow_add_r, Z.mul_assoc, <- Hz by lia.
      assert (Hcancel : digits_value (ds ++ fs) * 10 ^ Z.of_nat k * d
                        = m * 10 ^ Z.of_nat (e + k') * d).
      { rewrite Nat2Z.inj_add, Z.pow_add_r by lia. nia. }
      nia. }
  destruct (Z.eqb_spec (digits_value (ds ++ fs)) 0) as [H0 | Hn0]; [nia|].
  replace ((10 ^ Z.of_nat k' <=? digits_value (ds ++ fs) * 10 ^ 4)
           && (digits_value (ds ++ fs) <? 10 ^ (16 + Z.of_nat k'))) with true.
  2:{ symmetry. apply andb_true_intro. split.
      - apply Z.leb_le. apply (Z.mul_le_mono_pos_r _ _ d Hd). nia.
      - apply Z.ltb_lt. rewrite Z.pow_add_r by lia.
        apply (Z.mul_lt_mono_pos_r d _ _ Hd). nia. }
  f_equal. rewrite <- Hred. apply Qred_complete. unfold Qeq. cbn [Qnum Qden].
  rewrite Z2Pos.id by exact HP'. fold a d.
  destruct (Z.ltb_spec a 0); nia.
Qed.

(** C3, as the code has it, for the multiplier 1: the result is the tokens of
    the printed expression joined by single spaces; a token that is not a
    float literal is kept; a numeric token is replaced by the text Python
    prints for its value, followed by the unit.  That text is a decimal with
    a point whose fraction is [0] or does not end with a zero, and it reads
    back as the value of the token. *)
Theorem eval_expr_formats_tokens `{Sympy SymExpr} (e : PyArg) (result : SymExpr) (unit : string) :
  sympify e = Some result ->
  unit <> "" ->
  (forall arg, arg ∈ str_split (sym_str result) -> py_float arg <> PF_other) ->
  exists _args,
    eval_expr e (Some 1) (Some unit) = Ok (Formatted (str_join " " _args)) /\
    Forall2 (fun arg out =>
               (py_float arg = PF_error /\ out = arg) \/
               (exists x, py_float arg = PF_num x /\ out = float_str x +:+ unit /\
                          shortest_decimal (float_str x) = true /\
                          py_float (float_str x) = PF_num x))
            (str_split (sym_str result)) _args.
Proof.
  intros Hsym Hunit Hmodel. unfold eval_expr. rewrite Hsym.
  destruct unit as [|c u]; [now destruct Hunit|].
  destruct (rmap_Forall2 (eval_arg (Some 1) (String c u))
              (fun arg out =>
                 (py_float arg = PF_error /\ out = arg) \/
                 (exists x, py_float arg = PF_num x /\ out = float_str x +:+ String c u /\
                            shortest_decimal (float_str x) = true /\
                            py_float (float_str x) = PF_num x))
              (str_split (sym_str result))) as (bs & Hbs & HR).
  - intros arg Hin. specialize (Hmodel arg Hin).
    destruct (py_float arg) as [x| |] eqn:Hf.
    + exists (float_str x +:+ String c u). split; [now apply eval_arg_number|].
      right. exists x. split; [reflexivity|]. split; [reflexivity|].
      split; [now apply (float_str_shortest arg)|].
      destruct (py_float_in_fragment arg x Hf) as [Hfrag Hden].
      now apply float_str_roundtrip.
    + now destruct Hmodel.
    + exists arg. split; [now apply eval_arg_kept|]. now left.
  - exists bs. rewrite Hbs. split; [reflexivity | exact HR].
Qed.

Lemma eval_expr_formats_tokens_witness :
  exists _args,
    eval_expr (H := sympy_standin) (ArgStr "5.250 + trf") (Some 1) (Some "ns")
    = Ok (Formatted (str_join " " _args)) /\
    Forall2 (fun arg out =>
               (py_float arg = PF_error /\ out = arg) \/
               (exists x, py_float arg = PF_num x /\ out = float_str x +:+ "ns" /\
                          shortest_decimal (float_str x) = true /\
                          py_float (float_str x) = PF_num x))
            ["trf"; "+"; "5.25"] _args.
Proof.
  apply (eval_expr_formats_tokens (H := sympy_standin) (ArgStr "5.250 + trf") "trf + 5.25" "ns").
  - reflexivity.
  - discriminate.
  - intros arg Hin. vm_compute in Hin.
    repeat (apply elem_of_cons in Hin as [-> | Hin]; [vm_compute; discriminate|]).
    now apply elem_of_nil in Hin.
Defined.

(** C3, as the specification states it, fails: the float [5.0] with the
    multiplier 1 and the unit [ns] is rendered as [5.0ns], not as [5ns]. *)
Lemma trailing_zero_kept :
  eval_expr (H := sympy_standin) (ArgFloat (5 # 1)) (Some 1) (Some "ns")
  = Ok (Formatted "5.0ns")
  /\ fmt (H := sympy_standin) (Formatted "5.0ns") <> "5ns".
Proof. split; [reflexivity | discriminate]. Qed.

(** The multiplier repeats the text of the token: with the multiplier 2 the
    token [5.00000000000000] becomes [5.000000000000005.00000000000000],
    which is no float literal. *)
Example multiplier_repeats_text :
  eval_expr (H := sympy_standin) (ArgFloat (5 # 1)) (Some 2) (Some "ns")
  = Raise (ValueError "could not convert string to float")
  /\ eval_arg (Some 2) "ns" "5" = Ok "55.0ns".
Proof. split; reflexivity. Qed.

(** * More properties of the code *)

(** ** The bit array of a value *)

(** The loop of [int2bit_array], position by position. *)
Lemma bit_loop_lookup (width value : Z) (n : nat) :
  (n <= Z.to_nat width)%nat ->
  let res := foldl (fun bits (i : nat) =>
                      <[Z.to_nat (width - 1 - Z.of_nat i) := Z.land (Z.shiftr value (Z.of_nat i)) 1]> bits)
                   (replicate (Z.to_nat width) 0) (seq 0 n) in
  length res = Z.to_nat width /\
  forall j : nat, (j < Z.to_nat width)%nat ->
    res !! j = Some (if decide (Z.to_nat width - 1 - j < n)%nat
                     then Z.land (Z.shiftr value (width - 1 - Z.of_nat j)) 1
                     else 0).
Proof.
  induction n as [|n IH]; intros Hn; cbn zeta.
  - cbn [seq foldl]. split; [apply length_replicate|]. intros j Hj.
    rewrite lookup_replicate_2 by exact Hj. destruct (decide _); [lia | reflexivity].
  - rewrite seq_S, foldl_app. cbn [foldl Nat.add].
    destruct (IH ltac:(lia)) as [Hlen Hlook]. cbn zeta in Hlen, Hlook.
    split; [now rewrite length_insert|]. intros j Hj.
    destruct (decide (Z.to_nat (width - 1 - Z.of_nat n) = j)) as [Heq | Hne].
    + subst j. rewrite list_lookup_insert_eq by lia.
      destruct (decide _); [|lia]. do 3 f_equal. lia.
    + rewrite list_lookup_insert_ne by exact Hne. rewrite (Hlook j Hj).
      destruct (decide _), (decide _); try reflexivity; lia.
Qed.

Lemma bits_value_snoc (l : list Z) (b : Z) : bits_value (l ++ [b]) = 2 * bits_value l + b.
Proof. unfold bits_value. now rewrite foldl_app. Qed.

(** The bits of [value], most significant first, over [n] positions. *)
Lemma bits_value_msb (n : nat) :
  forall value : Z,
    bits_value (map (fun j : nat => Z.land (Z.shiftr value (Z.of_nat n - 1 - Z.of_nat j)) 1)
                    (seq 0 n))
    = value mod 2 ^ Z.of_nat n.
Proof.
  induction n as [|n IH]; intros value.
  - simpl. now rewrite Z.mod_1_r.
  - rewrite seq_S, map_app. cbn [map Nat.add]. rewrite bits_value_snoc.
    replace (Z.of_nat (S n) - 1 - Z.of_nat n) with 0 by lia. rewrite Z.shiftr_0_r.
    erewrite map_ext_in; [rewrite (IH (Z.shiftr value 1))|].
    + rewrite Nat2Z.inj_succ, Z.pow_succ_r by lia.
      rewrite Z.shiftr_div_pow2 by lia. change (2 ^ 1) with 2.
      replace (Z.land value 1) with (value mod 2)
        by (change 1 with (Z.ones 1); now rewrite Z.land_ones by lia).
      rewrite (Z.rem_mul_r value 2 (2 ^ Z.of_nat n)) by lia. lia.
    + intros j Hj. apply in_seq in Hj. cbn beta.
      rewrite Z.shiftr_shiftr by lia. do 2 f_equal. lia.
Qed.

Lemma bit_length_le (value width : Z) :
  0 <= value -> 0 <= width -> (bit_length value <= width <-> value < 2 ^ width).
Proof.
  intros Hv Hw. unfold bit_length. destruct (Z.eqb_spec value 0) as [-> | Hne].
  - split; [intros _; apply Z.pow_pos_nonneg; lia | intros _; exact Hw].
  - rewrite Z.abs_eq by lia.
    pose proof (Z.log2_spec value ltac:(lia)) as [Hlo Hhi]. split.
    + intros Hle. eapply Z.lt_le_trans; [exact Hhi|].
      rewrite <- Z.add_1_r. apply Z.pow_le_mono_r; lia.
    + intros Hlt. assert (Z.log2 value < width); [|lia].
      apply Z.log2_lt_pow2; lia.
Qed.

Lemma land_one_bit (x : Z) : Z.land x 1 = 0 \/ Z.land x 1 = 1.
Proof.
  replace (Z.land x 1) with (x mod 2)
    by (change 1 with (Z.ones 1); now rewrite Z.land_ones by lia).
  pose proof (Z.mod_pos_bound x 2 ltac:(lia)). lia.
Qed.

Lemma int2bit_array_closed (self : Register) (value : Z) :
  bit_length value <= width self ->
  int2bit_array self value
  = Ok (map (fun j : nat => Z.land (Z.shiftr value (width self - 1 - Z.of_nat j)) 1)
            (seq 0 (Z.to_nat (width self)))).
Proof.
  intros Hfit. unfold int2bit_array.
  destruct (Z.ltb_spec (width self) (bit_length value)) as [Hlt | _]; [lia|].
  f_equal.
  destruct (bit_loop_lookup (width self) value (Z.to_nat (width self)) ltac:(lia))
    as [Hlen Hlook].
  cbn zeta in Hlen, Hlook. apply list_eq. intros j.
  destruct (le_lt_dec (Z.to_nat (width self)) j) as [Hge | Hlt].
  - rewrite lookup_ge_None_2 by lia. symmetry. apply lookup_ge_None_2.
    rewrite length_map, length_seq. lia.
  - rewrite (Hlook j Hlt). destruct (decide _); [|lia].
    rewrite list_lookup_fmap, lookup_seq_lt by lia. reflexivity.
Qed.

Lemma int2bit_array_shape (self : Register) (value : Z) (bits : list Z) :
  int2bit_array self value = Ok bits ->
  length bits = Z.to_nat (width self) /\ Forall (fun b => b = 0 \/ b = 1) bits.
Proof.
  intros Hb. assert (bit_length value <= width self) as Hfit.
  { unfold int2bit_array in Hb.
    destruct (Z.ltb_spec (width self) (bit_length value)); [discriminate | assumption]. }
  rewrite (int2bit_array_closed self value Hfit) in Hb. injection Hb as <-.
  split; [now rewrite length_map, length_seq|].
  apply Forall_forall. intros b Hin. apply list_elem_of_fmap in Hin as (j & -> & _).
  apply land_one_bit.
Qed.

(** X1: a value that passes the width check is decoded, most significant bit
    first, into [width] bits whose value is the value again (its residue
    modulo [2 ^ width] when it is negative). *)
Theorem int2bit_array_decodes (self : Register) (value : Z) :
  0 <= width self ->
  bit_length value <= width self ->
  exists bits,
    int2bit_array self value = Ok bits /\
    length bits = Z.to_nat (width self) /\
    Forall (fun b => b = 0 \/ b = 1) bits /\
    bits_value bits = value mod 2 ^ width self /\
    (0 <= value -> bits_value bits = value).
Proof.
  intros Hw Hfit. eexists. split; [now apply int2bit_array_closed|].
  split; [now rewrite length_map, length_seq|]. split; [|split].
  - apply Forall_forall. intros b Hb. apply list_elem_of_fmap in Hb as (j & -> & _).
    apply land_one_bit.
  - pose proof (bits_value_msb (Z.to_nat (width self)) value) as Hmsb.
    rewrite Z2Nat.id in Hmsb by exact Hw. exact Hmsb.
  - intros Hv. pose proof (bits_value_msb (Z.to_nat (width self)) value) as Hmsb.
    rewrite Z2Nat.id in Hmsb by exact Hw. rewrite Hmsb.
    apply Z.mod_small. split; [exact Hv|]. now apply bit_length_le.
Qed.

Lemma int2bit_array_decodes_witness :
  int2bit_array data2_fresh 2 = Ok [1; 0] /\ bits_value [1; 0] = 2.
Proof.
  destruct (int2bit_array_decodes data2_fresh 2 ltac:(vm_compute; discriminate)
              ltac:(vm_compute; discriminate)) as (bits & Hb & _ & _ & _ & Hv).
  vm_compute in Hb. injection Hb as <-. split; [reflexivity | apply Hv; lia].
Defined.

(** ** The text of a bit array *)

Lemma bits_str_cons (b : Z) (l : list Z) : bits_str (b :: l) = pretty b +:+ bits_str l.
Proof.
  unfold bits_str. cbn [map]. destruct l as [|b' l]; [|reflexivity].
  cbn [map]. symmetry. apply str_app_nil_r.
Qed.

Lemma take_digits_bits (bits : list Z) (rest : string) :
  Forall (fun b => b = 0 \/ b = 1) bits ->
  take_digits rest = [] ->
  take_digits (bits_str bits +:+ rest) = bits.
Proof.
  intros Hbits Hrest. induction Hbits as [|b l Hb _ IH]; [exact Hrest|].
  rewrite bits_str_cons, str_app_assoc.
  destruct Hb as [-> | ->].
  - change (pretty 0) with "0". rewrite str_app_cons, str_app_nil_l.
    cbn [take_digits]. change (digit_of "0") with (Some 0). now rewrite IH.
  - change (pretty 1) with "1". rewrite str_app_cons, str_app_nil_l.
    cbn [take_digits]. change (digit_of "1") with (Some 1). now rewrite IH.
Qed.

Lemma str2bit_array_bits (bits : list Z) (rest : string) :
  Forall (fun b => b = 0 \/ b = 1) bits ->
  bits <> [] ->
  take_digits rest = [] ->
  str2bit_array ("b" +:+ bits_str bits +:+ rest) = Ok bits /\
  str2bit_array (bits_str bits +:+ rest) = Ok bits.
Proof.
  intros Hbits Hne Hrest. pose proof (take_digits_bits bits rest Hbits Hrest) as Htd.
  split.
  - unfold str2bit_array. rewrite str_app_cons, str_app_nil_l.
    rewrite bool_decide_eq_true_2 by reflexivity. rewrite Htd.
    destruct bits; [now destruct Hne | reflexivity].
  - unfold str2bit_array.
    destruct (bits_str bits +:+ rest) as [|c s] eqn:Hs.
    + simpl in Htd. subst bits. now destruct Hne.
    + destruct (bool_decide (c = "b"%char)) eqn:Hc.
      * apply bool_decide_eq_true in Hc as ->. simpl in Htd. subst bits. now destruct Hne.
      * rewrite Htd. destruct bits; [now destruct Hne | reflexivity].
Qed.

(** X2: [str2bit_array] reads back what [int2bit_array] produces: the text of
    the bit array of a value, as the message of [update] prints it, with or
    without a leading [b] and followed by any ASCII text that does not start
    with a digit, gives the bit array again. *)
Theorem str2bit_array_reads_back (self : Register) (value : Z) (rest : string) :
  0 < width self ->
  bit_length value <= width self ->
  isascii rest = true ->
  take_digits rest = [] ->
  exists bits,
    int2bit_array self value = Ok bits /\
    str2bit_array ("b" +:+ bits_str bits +:+ rest) = Ok bits /\
    str2bit_array (bits_str bits +:+ rest) = Ok bits.
Proof.
  intros Hw Hfit _ Hrest. eexists. split; [now apply int2bit_array_closed|].
  destruct (int2bit_array_shape self value _ (int2bit_array_closed self value Hfit))
    as [Hlen Hbits].
  apply str2bit_array_bits; [exact Hbits | | exact Hrest].
  intros Hnil. rewrite Hnil in Hlen. cbn [length] in Hlen. lia.
Qed.

Lemma str2bit_array_reads_back_witness :
  exists bits,
    int2bit_array data2_fresh 2 = Ok bits /\
    str2bit_array ("b" +:+ bits_str bits +:+ " x") = Ok bits /\
    str2bit_array (bits_str bits +:+ " x") = Ok bits.
Proof.
  apply (str2bit_array_reads_back data2_fresh 2 " x").
  - reflexivity.
  - vm_compute. discriminate.
  - reflexivity.
  - reflexivity.
Defined.

(** ** The timeline of a [Register] *)

Lemma dict_set_twice {K V} `{EqDecision K} (d : list (K * V)) (k : K) (v1 v2 : V) :
  dict_set (dict_set d k v1) k v2 = dict_set d k v2.
Proof.
  induction d as [|[k0 v0] d IH]; simpl.
  - destruct (decide (k = k)); [reflexivity | congruence].
  - destruct (decide (k0 = k)) as [-> | Hne]; simpl.
    + destruct (decide (k = k)); [reflexivity | congruence].
    + destruct (decide (k0 = k)); [congruence | now rewrite IH].
Qed.

Lemma dict_set_keys {K V} `{EqDecision K} (d : list (K * V)) (k : K) (v : V) :
  map fst (dict_set d k v)
  = if dict_contains d k then map fst d else map fst d ++ [k].
Proof.
  unfold dict_contains. induction d as [|[k0 v0] d IH]; simpl; [reflexivity|].
  destruct (decide (k0 = k)) as [-> | Hne]; simpl; [reflexivity|].
  rewrite IH. destruct (dict_get d k); reflexivity.
Qed.

Lemma update_ok (self : Register) (timestamp value : Z) :
  bit_length value <= width self ->
  exists bits,
    int2bit_array self value = Ok bits /\
    update timestamp value self
    = (Ok tt, {| cls := cls self; name := name self; width := width self; dim := dim self;
                 data := bits;
                 timing_assignments := dict_set (timing_assignments self) timestamp bits;
                 export_pwl_safe := export_pwl_safe self |}).
Proof.
  intros Hfit. rewrite (int2bit_array_closed self value Hfit). eexists. split; [reflexivity|].
  unfold update, bind, get, lift, put. now rewrite (int2bit_array_closed self value Hfit).
Qed.

Lemma update_too_wide (self : Register) (timestamp value : Z) :
  width self < bit_length value -> snd (update timestamp value self) = self.
Proof.
  intros Hwide. unfold update, bind, get, lift, put, int2bit_array.
  destruct (Z.ltb_spec (width self) (bit_length value)); [reflexivity | lia].
Qed.

(** X3: the last value written at a tick wins: an earlier update of the same
    tick, accepted or refused, leaves no trace. *)
Theorem update_last_write_wins (self : Register) (timestamp v1 v2 : Z) :
  bit_length v2 <= width self ->
  update timestamp v2 (snd (update timestamp v1 self)) = update timestamp v2 self.
Proof.
  intros Hfit.
  destruct (Z_le_gt_dec (bit_length v1) (width self)) as [Hfit1 | Hwide].
  - destruct (update_ok self timestamp v1 Hfit1) as (b1 & Hb1 & ->). cbn [snd].
    destruct (update_ok self timestamp v2 Hfit) as (b2 & Hb2 & ->).
    unfold update, bind, get, lift, put, int2bit_array in *. cbn [width] in *.
    rewrite Hb2. cbn. now rewrite dict_set_twice.
  - rewrite (update_too_wide self timestamp v1) by lia. reflexivity.
Qed.

Lemma update_last_write_wins_witness :
  update 5 1 (snd (update 5 3 data2_fresh)) = update 5 1 data2_fresh.
Proof. apply update_last_write_wins. vm_compute. discriminate. Defined.

(** X4: an accepted update keeps the order of the timeline: the entry of a
    tick that is present is replaced where it stands, a new tick goes to the
    end, whatever its number. *)
Theorem update_keeps_order (self : Register) (timestamp value : Z) :
  bit_length value <= width self ->
  map fst (timing_assignments (snd (update timestamp value self)))
  = if dict_contains (timing_assignments self) timestamp
    then map fst (timing_assignments self)
    else map fst (timing_assignments self) ++ [timestamp].
Proof.
  intros Hfit. destruct (update_ok self timestamp value Hfit) as (bits & _ & ->).
  cbn [snd timing_assignments]. apply dict_set_keys.
Qed.

Lemma update_keeps_order_witness :
  map fst (timing_assignments (snd (update 3 0 clk_reg))) = [0; 5; 3].
Proof. apply (update_keeps_order clk_reg 3 0). vm_compute. discriminate. Defined.

(** ** The shape of the registers of a document *)

Lemma wf_new_Register (c : PyClass) (n : string) (w : Z) (reg : Register) :
  new_Register c n w = Ok reg -> wf_register reg.
Proof.
  unfold new_Register. destruct (Z.ltb_spec w 0) as [|Hw]; [discriminate|].
  intros [= <-]. split; [exact Hw|]. split; [apply length_replicate | constructor].
Qed.

Lemma dict_set_Forall {K V} `{EqDecision K} (P : K * V -> Prop) (d : list (K * V)) (k : K) (v : V) :
  Forall P d -> (forall k', P (k', v)) -> Forall P (dict_set d k v).
Proof.
  intros Hd Hv. induction Hd as [|[k0 v0] d H0 Hd IH]; simpl.
  - repeat constructor. apply Hv.
  - destruct (decide (k0 = k)); constructor; auto.
Qed.

Lemma update_keeps_wf (timestamp value : Z) : preserves wf_register (update timestamp value).
Proof.
  intros reg (Hw & Hdata & Htl). unfold update, bind, get, lift, put.
  destruct (int2bit_array reg value) as [bits|e] eqn:Hb; cbn [fst snd].
  - destruct (int2bit_array_shape reg value bits Hb) as [Hlen _].
    split; [exact Hw|]. split; [exact Hlen|]. cbn [timing_assignments width].
    apply dict_set_Forall; [exact Htl | intros k'; exact Hlen].
  - now split.
Qed.

Lemma tag_keeps_wf (x_state : bool) : preserves wf_register (tag x_state).
Proof. intros reg Hreg. exact Hreg. Qed.

Lemma with_reg_keeps_wf {A} (r : nat) (m : M Register A) :
  preserves wf_register m -> preserves all_wf (with_reg r m).
Proof.
  intros Hm w Hw. unfold with_reg. destruct (registers w !! r) as [reg|] eqn:Hr; [|exact Hw].
  destruct (m reg) as [a reg'] eqn:Hmr. unfold all_wf. cbn [snd registers].
  apply Forall_insert; [exact Hw|].
  pose proof (Hm reg (Forall_lookup_1 _ _ _ _ Hw Hr)) as Hreg'. now rewrite Hmr in Hreg'.
Qed.

Lemma alloc_reg_keeps_wf (reg : Register) : wf_register reg -> preserves all_wf (alloc_reg reg).
Proof.
  intros Hreg w Hw. unfold all_wf. cbn [alloc_reg snd registers].
  apply Forall_app. split; [exact Hw | now apply Forall_singleton].
Qed.

Ltac keeps_wf :=
  repeat first
    [ progress eauto with keeps
    | apply with_reg_keeps_wf
    | apply tag_keeps_wf
    | apply update_keeps_wf
    | apply preserves_bind; [|intros ?]
    | apply (with_mod_keeps_registers (Forall wf_register))
    | apply (set_top_keeps_registers (Forall wf_register))
    | apply (alloc_mod_keeps_registers (Forall wf_register))
    | match goal with
      | |- preserves _ (match ?x with _ => _ end) => destruct x
      end ].

Lemma update_timing_assignment_keeps_wf timestamp ident value full :
  preserves all_wf (update_timing_assignment timestamp ident value full).
Proof. unfold update_timing_assignment, is_reg_top_module, top_variables. keeps_wf. Qed.

Lemma add_reg_keeps_wf reg ident : preserves all_wf (add_reg reg ident).
Proof. unfold add_reg, add_signal. keeps_wf. Qed.

Lemma update_module_keeps_wf scope : preserves all_wf (update_module scope).
Proof. unfold update_module. keeps_wf. Qed.

Lemma declare_keeps_wf (c : PyClass) (decl : VarDecl) :
  preserves (fun fr => all_wf (world fr)) (declare c decl).
Proof.
  unfold declare. intros fr Hfr. unfold bind at 1, lift.
  destruct (new_Register c (reference decl) (size decl)) as [reg|e] eqn:Hnew; [|exact Hfr].
  apply wf_new_Register in Hnew.
  revert fr Hfr. change (preserves (fun fr => all_wf (world fr))
    (let! r := in_world (alloc_reg reg) in in_world (add_reg r (id_code decl)))).
  apply preserves_bind.
  - apply (preserves_in_world_frame all_wf). now apply alloc_reg_keeps_wf.
  - intros r. apply (preserves_in_world_frame all_wf). apply add_reg_keeps_wf.
Qed.

Lemma parse_token_keeps_wf (full : bool) (_toc : Token) :
  preserves (fun fr => all_wf (world fr)) (parse_token full _toc).
Proof.
  destruct _toc; unfold parse_token, timescale_base_unit;
    repeat first
      [ progress eauto with keeps
      | apply declare_keeps_wf
      | apply (preserves_in_world_frame all_wf)
      | apply update_timing_assignment_keeps_wf
      | apply update_module_keeps_wf
      | apply preserves_bind; [|intros ?]
      | apply (set_top_keeps_registers (Forall wf_register))
      | match goal with
        | |- preserves _ (match ?x with _ => _ end) => destruct x
        | |- preserves _ (set_scope _) => intros fr Hfr; exact Hfr
        | |- preserves _ (set_timestamp _) => intros fr Hfr; exact Hfr
        end ].
Qed.

Lemma parse_loop_keeps_wf (full : bool) (items : list LexItem) :
  preserves (fun fr => all_wf (world fr)) (parse_loop full items).
Proof.
  induction items as [|[tok|e] items IH]; simpl.
  - apply preserves_ret.
  - apply preserves_bind; [apply parse_token_keeps_wf | intros _; exact IH].
  - apply preserves_raise.
Qed.

Lemma registers_wf_after (full : bool) (items : list LexItem) :
  all_wf (world (snd (parse_loop full items new_Frame))).
Proof. apply (parse_loop_keeps_wf full items new_Frame). constructor. Qed.

(** X5: at every point of a run of the interpreter, also where an exception
    interrupts it, every [Register] of the store has a width that is not
    negative, a [data] array of [width] entries and a timeline whose entries
    have [width] bits each. *)
Theorem registers_keep_their_width (full : bool) (items : list LexItem) :
  Forall wf_register (registers (world (snd (parse_loop full items new_Frame)))).
Proof. apply registers_wf_after. Qed.

(** ** What an export can raise *)

Lemma raises_only_ok {A} (P : exn -> Prop) (a : A) : raises_only P (Ok a).
Proof. intros e. discriminate. Qed.

Lemma raises_only_rbind {A B} (P : exn -> Prop) (r : result A) (k : A -> result B) :
  raises_only P r -> (forall a, r = Ok a -> raises_only P (k a)) -> raises_only P (rbind r k).
Proof.
  intros Hr Hk e. destruct r as [a|e']; simpl.
  - now apply Hk.
  - intros [= <-]. now apply Hr.
Qed.

Lemma raises_only_rfold {A B} (P : exn -> Prop) (f : A -> B -> result A) (l : list B) :
  (forall a b, b ∈ l -> raises_only P (f a b)) -> forall a, raises_only P (rfold f a l).
Proof.
  induction l as [|b l IH]; intros Hf a; simpl.
  - apply raises_only_ok.
  - apply raises_only_rbind; [apply Hf; left|].
    intros a' _. apply IH. intros a0 b0 Hin. apply Hf. now right.
Qed.

Lemma raises_only_rmap {A B} (P : exn -> Prop) (f : A -> result B) (l : list A) :
  (forall a, a ∈ l -> raises_only P (f a)) -> raises_only P (rmap f l).
Proof.
  induction l as [|a l IH]; intros Hf; simpl.
  - apply raises_only_ok.
  - apply raises_only_rbind; [apply Hf; left|]. intros b _.
    apply raises_only_rbind; [apply IH; intros a0 Hin; apply Hf; now right|].
    intros bs _. apply raises_only_ok.
Qed.

Lemma convert_raises (ts : option TimeScale) (t : Z) (u : string) :
  raises_only export_failure (timescale_convert_to ts t u).
Proof.
  intros e. unfold timescale_convert_to, convert_to. destruct ts as [ts|].
  - destruct (_unit_conversion !! u), (_unit_conversion !! base_unit ts);
      intros [= <-]; right; right; right; eexists; reflexivity.
  - intros [= <-]. right; right; left. eexists; reflexivity.
Qed.

(** With the multiplier 1 a numeric token is read twice from the same text,
    so the second reading cannot fail. *)
Lemma eval_arg_raises (unit arg : string) :
  raises_only export_failure (eval_arg (Some 1) unit arg).
Proof.
  intros e. unfold eval_arg. destruct (py_float arg) eqn:Hf; cbn [int_of_base rbind];
    rewrite ?str_mul_one, ?Hf; intros [= <-]. right; now left.
Qed.

Lemma eval_expr_raises `{Sympy SymExpr} (e : PyArg) (unit : option string) :
  raises_only export_failure (eval_expr e (Some 1) unit).
Proof.
  unfold eval_expr. destruct (sympify e) as [result|]; [|intros e' [= <-]; now left].
  destruct unit as [[|c u]|]; try apply raises_only_ok.
  apply raises_only_rbind.
  - apply raises_only_rmap. intros a _. apply eval_arg_raises.
  - intros a _. apply raises_only_ok.
Qed.

Lemma pwl_step_raises `{Sympy SymExpr} (self : Register) (timescale : option TimeScale)
    (expr : gmap string Z) (m : nat) (st : string * string) (item : Z * list Z) :
  (m < length item.2)%nat ->
  raises_only export_failure (pwl_step self timescale expr m st item).
Proof.
  intros Hm. destruct st as [_prev line], item as [t bit_value]. unfold pwl_step, index_bit.
  cbn [snd] in Hm. destruct (lookup_lt_is_Some_2 bit_value m Hm) as [b ->]. cbn [rbind].
  apply raises_only_rbind; [|intros; apply raises_only_ok].
  destruct (bool_decide (_prev = "na")); [apply raises_only_ok|].
  destruct (bool_decide (_prev <> level_of b)); [|apply raises_only_ok].
  apply raises_only_rbind; [apply convert_raises|]. intros tv _.
  apply raises_only_rbind; [apply eval_expr_raises|]. intros t_expr _.
  destruct (bool_decide _); [|apply raises_only_ok].
  apply raises_only_rbind; [apply eval_expr_raises|]. intros; apply raises_only_ok.
Qed.

Lemma generate_piecewise_linear_raises `{Sympy SymExpr} (self : Register)
    (timescale : option TimeScale) (expr : gmap string Z) :
  wf_register self ->
  raises_only export_failure (generate_piecewise_linear self timescale expr).
Proof.
  intros (Hw & Hdata & Htl). unfold generate_piecewise_linear.
  destruct (negb (export_pwl_safe self)); [apply raises_only_ok|].
  apply raises_only_rfold. intros lines m Hm.
  apply elem_of_seq in Hm as [_ Hm]. cbn [Nat.add] in Hm.
  apply raises_only_rbind; [|intros; apply raises_only_ok].
  unfold pwl_block. apply raises_only_rbind; [|intros [? ?] _; apply raises_only_ok].
  unfold pwl_walk. apply raises_only_rfold. intros st item Hin.
  apply pwl_step_raises. rewrite Forall_forall in Htl. rewrite (Htl item Hin). lia.
Qed.

Lemma Module_export_pwl_raises `{Sympy SymExpr} (regs : list Register) (self : Module_)
    (timescale : option TimeScale) (expr : gmap string Z) :
  Forall wf_register regs ->
  raises_only export_failure (Module_export_pwl regs self timescale expr).
Proof.
  intros Hregs. unfold Module_export_pwl. apply raises_only_rfold. intros data item _.
  destruct (regs !! item.2) as [reg|] eqn:Hreg; [|intros e [= <-]; right; now left].
  pose proof (Forall_lookup_1 _ _ _ _ Hregs Hreg) as Hwf.
  destruct (isinstance_Register reg); [|destruct (isinstance_Wire reg)].
  - apply raises_only_rbind; [now apply generate_piecewise_linear_raises|].
    intros; apply raises_only_ok.
  - apply raises_only_rbind; [now apply generate_piecewise_linear_raises|].
    intros; apply raises_only_ok.
  - apply raises_only_ok.
Qed.

(** X6: the export of the document of any run of the interpreter, when it
    does not return the text, fails in sympy, on a missing time scale or
    scope ([AttributeError]), on a unit that is not in the table
    ([TypeError]), or on a float outside the modelled fragment; it never
    indexes a bit array out of range, and sympy's [SympifyError] is the only
    [ValueError] it can raise: with the multiplier 1 the second reading of a
    numeric token cannot fail. *)
Theorem export_failures `{Sympy SymExpr} (full : bool) (items : list LexItem)
    (expr : gmap string Z) (e : exn) :
  export_pwl (world (snd (parse_loop full items new_Frame))) expr = Raise e ->
  export_failure e /\ (forall msg, e <> IndexError msg) /\
  (is_ValueError e = true -> e = SympifyError).
Proof.
  intros Hraise. assert (export_failure e) as Hfail.
  { revert e Hraise. change (raises_only export_failure
      (export_pwl (world (snd (parse_loop full items new_Frame))) expr)).
    pose proof (registers_wf_after full items) as Hwf.
    unfold export_pwl. destruct (module (top _)) as [tm|];
      [|intros e [= <-]; right; right; left; eexists; reflexivity].
    destruct (modules _ !! tm) as [tmod|]; [|intros e [= <-]; right; now left].
    now apply Module_export_pwl_raises. }
  split; [exact Hfail|]. split.
  - intros msg ->. destruct Hfail as [Hf | [Hf | [[m Hf] | [m Hf]]]]; discriminate.
  - destruct Hfail as [-> | [-> | [[m ->] | [m ->]]]]; try discriminate. reflexivity.
Qed.

Lemma export_failures_witness :
  export_pwl (H := sympy_standin) (world (snd (parse_loop false late_unit_trace new_Frame)))
    (expr_of 0 0)
  = Raise (TypeError "unsupported operand type(s) for /")
  /\ export_failure (TypeError "unsupported operand type(s) for /").
Proof.
  assert (Hraise : export_pwl (H := sympy_standin)
                     (world (snd (parse_loop false late_unit_trace new_Frame))) (expr_of 0 0)
                   = Raise (TypeError "unsupported operand type(s) for /"))
    by (vm_compute; reflexivity).
  split; [exact Hraise|].
  exact (proj1 (export_failures (H := sympy_standin) false late_unit_trace (expr_of 0 0) _ Hraise)).
Defined.

(** ** Runs of the interpreter *)

Lemma parse_of_loop (items : list LexItem) :
  parse items
  = match fst (parse_loop false items new_Frame) with
    | Ok _ => Document (world (snd (parse_loop false items new_Frame)))
    | Raise (AssertionError msg) => ParseFailure msg
    | Raise e => Escapes e
    end.
Proof.
  unfold parse, _parse_group. destruct (parse_loop false items new_Frame) as [[u|e] fr]; reflexivity.
Qed.

Lemma parse_loop_raise_app (full : bool) (l1 l2 : list LexItem) (fr : Frame) (e : exn) :
  fst (parse_loop full l1 fr) = Raise e ->
  parse_loop full (l1 ++ l2) fr = parse_loop full l1 fr.
Proof.
  intros Hraise. rewrite parse_loop_app.
  destruct (parse_loop full l1 fr) as [[u|e'] fr']; [discriminate | reflexivity].
Qed.

(** X7: a failure is final: when the tokens read so far do not give a
    document, no token that follows is read, and [parse] ends the same way
    whatever follows. *)
Theorem failure_is_final (pre rest : list LexItem) :
  (forall doc, parse pre <> Document doc) ->
  parse (pre ++ rest) = parse pre.
Proof.
  intros Hfail. rewrite !parse_of_loop.
  destruct (fst (parse_loop false pre new_Frame)) as [u|e] eqn:Hpre.
  - rewrite parse_of_loop, Hpre in Hfail. now destruct (Hfail _ eq_refl).
  - now rewrite (parse_loop_raise_app false pre rest new_Frame e Hpre), Hpre.
Qed.

Lemma failure_is_final_witness :
  parse (too_wide_trace ++ clk_trace) = parse too_wide_trace.
Proof. apply failure_is_final. intros doc. vm_compute. discriminate. Defined.

(** *** A declaration needs an open scope *)

Lemma prefix_document (pre : list LexItem) :
  (exists doc, parse pre = Document doc) ->
  exists fr, parse_loop false pre new_Frame = (Ok tt, fr).
Proof.
  intros [doc Hdoc]. rewrite parse_of_loop in Hdoc.
  destruct (parse_loop false pre new_Frame) as [[[]|e] fr] eqn:Hpre.
  - now exists fr.
  - cbn [fst] in Hdoc. destruct e; discriminate.
Qed.

Lemma parse_after_prefix (pre rest : list LexItem) (fr : Frame) (tok : Token) (e : exn) :
  parse_loop false pre new_Frame = (Ok tt, fr) ->
  fst (parse_token false tok fr) = Raise e ->
  (forall msg, e <> AssertionError msg) ->
  parse (pre ++ Yield tok :: rest) = Escapes e.
Proof.
  intros Hpre Htok Hna. rewrite parse_of_loop, parse_loop_app, Hpre.
  cbn [parse_loop]. unfold bind. destruct (parse_token false tok fr) as [[u|e'] fr1].
  - discriminate.
  - cbn [fst] in *. injection Htok as ->. destruct e; try reflexivity. now destruct (Hna msg).
Qed.

Lemma declare_without_scope (c : PyClass) (decl : VarDecl) (fr : Frame) :
  current_module (top (world fr)) = None ->
  fst (declare c decl fr)
  = if size decl <? 0 then Raise (ValueError "negative dimensions are not allowed")
    else Raise (AttributeError "'NoneType' object has no attribute 'add_signal'").
Proof.
  intros Hcm. unfold declare, new_Register. destruct (size decl <? 0); [reflexivity|].
  unfold bind at 1. unfold lift at 1. unfold bind at 1. rewrite in_world_eq.
  cbn [fst snd alloc_reg]. rewrite in_world_eq. cbn [fst world].
  unfold add_reg. unfold bind at 1. unfold get at 1.
  cbn [registers]. rewrite lookup_app_r by reflexivity. rewrite Nat.sub_diag. cbn [lookup list_lookup].
  unfold bind, set_top, modify. cbn [fst snd top]. rewrite Hcm. reflexivity.
Qed.

(** X9: a [reg] or [wire] declaration that comes before any scope is opened
    ends the run: the [Register] is built, so a negative size is a
    [ValueError], and then the document has no current module to attach it
    to, which is an [AttributeError] that [parse] does not catch. *)
Theorem declaration_needs_scope (pre rest : list LexItem) (decl : VarDecl) :
  (forall ident, Yield (SCOPE ident) ∉ pre) ->
  (exists doc, parse pre = Document doc) ->
  type_ decl = vt_reg \/ type_ decl = vt_wire ->
  parse (pre ++ Yield (VAR decl) :: rest)
  = if size decl <? 0 then Escapes (ValueError "negative dimensions are not allowed")
    else Escapes (AttributeError "'NoneType' object has no attribute 'add_signal'").
Proof.
  intros Hns Hdoc Hty. destruct (prefix_document pre Hdoc) as [fr Hpre].
  assert (no_module (world fr)) as (_ & Hcm & _).
  { pose proof (parse_loop_no_module false pre Hns new_Frame) as Hinv.
    rewrite Hpre in Hinv. apply Hinv. repeat split. }
  assert (fst (parse_token false (VAR decl) fr)
          = if size decl <? 0 then Raise (ValueError "negative dimensions are not allowed")
            else Raise (AttributeError "'NoneType' object has no attribute 'add_signal'")) as Htok.
  { unfold parse_token. destruct Hty as [-> | ->]; now apply declare_without_scope. }
  destruct (size decl <? 0);
    (eapply parse_after_prefix; [exact Hpre | exact Htok | intros msg; discriminate]).
Qed.

Lemma declaration_needs_scope_witness :
  parse ([Yield (TIMESCALE "1 ns")] ++ Yield (VAR clk_decl) :: [Yield (SCOPE "tb")])
  = Escapes (AttributeError "'NoneType' object has no attribute 'add_signal'").
Proof.
  apply (declaration_needs_scope [Yield (TIMESCALE "1 ns")] [Yield (SCOPE "tb")] clk_decl).
  - intros ident Hin. apply list_elem_of_singleton in Hin. discriminate.
  - eexists. vm_compute. reflexivity.
  - left. reflexivity.
Defined.

(** *** A time change needs a time scale *)

Lemma with_reg_keeps_top {A} (J : VCDModule -> Prop) (r : nat) (m : M Register A) :
  preserves (fun w => J (top w)) (with_reg r m).
Proof.
  intros w Hw. unfold with_reg. destruct (registers w !! r) as [reg|]; [|exact Hw].
  destruct (m reg). exact Hw.
Qed.

Lemma with_mod_keeps_top {A} (J : VCDModule -> Prop) (r : nat) (m : M Module_ A) :
  preserves (fun w => J (top w)) (with_mod r m).
Proof.
  intros w Hw. unfold with_mod. destruct (modules w !! r) as [md|]; [|exact Hw].
  destruct (m md). exact Hw.
Qed.

Lemma alloc_reg_keeps_top (J : VCDModule -> Prop) (reg : Register) :
  preserves (fun w => J (top w)) (alloc_reg reg).
Proof. intros w Hw. exact Hw. Qed.

Lemma alloc_mod_keeps_top (J : VCDModule -> Prop) (md : Module_) :
  preserves (fun w => J (top w)) (alloc_mod md).
Proof. intros w Hw. exact Hw. Qed.

Lemma set_top_keeps_timescale (f : VCDModule -> VCDModule) :
  (forall t, timescale (f t) = timescale t) -> preserves no_timescale (set_top f).
Proof. intros Hf w Hw. unfold no_timescale, set_top, modify. cbn. now rewrite Hf. Qed.

Ltac keeps_timescale :=
  repeat first
    [ progress eauto with keeps
    | apply (with_reg_keeps_top (fun t => timescale t = None))
    | apply (with_mod_keeps_top (fun t => timescale t = None))
    | apply (alloc_reg_keeps_top (fun t => timescale t = None))
    | apply (alloc_mod_keeps_top (fun t => timescale t = None))
    | apply set_top_keeps_timescale; intros ?; reflexivity
    | apply preserves_bind; [|intros ?]
    | match goal with
      | |- preserves _ (match ?x with _ => _ end) => destruct x
      end ].

Lemma update_timing_assignment_keeps_timescale timestamp ident value full :
  preserves no_timescale (update_timing_assignment timestamp ident value full).
Proof. unfold update_timing_assignment, is_reg_top_module, top_variables. keeps_timescale. Qed.

Lemma add_reg_keeps_timescale reg ident : preserves no_timescale (add_reg reg ident).
Proof. unfold add_reg, add_signal. keeps_timescale. Qed.

Lemma update_module_keeps_timescale scope : preserves no_timescale (update_module scope).
Proof. unfold update_module. keeps_timescale. Qed.

Lemma parse_token_keeps_no_timescale (full : bool) (_toc : Token) :
  (forall data, _toc <> TIMESCALE data) ->
  preserves (fun fr => no_timescale (world fr)) (parse_token full _toc).
Proof.
  intros Hnt.
  destruct _toc; try (exfalso; eapply Hnt; reflexivity); unfold parse_token, declare, timescale_base_unit;
    repeat first
      [ progress eauto with keeps
      | apply (preserves_in_world_frame no_timescale)
      | apply update_timing_assignment_keeps_timescale
      | apply add_reg_keeps_timescale
      | apply update_module_keeps_timescale
      | apply (alloc_reg_keeps_top (fun t => timescale t = None))
      | apply set_top_keeps_timescale; intros ?; reflexivity
      | apply preserves_bind; [|intros ?]
      | match goal with
        | |- preserves _ (match ?x with _ => _ end) => destruct x
        | |- preserves _ (set_scope _) => intros fr Hfr; exact Hfr
        | |- preserves _ (set_timestamp _) => intros fr Hfr; exact Hfr
        end ].
Qed.

Lemma parse_loop_keeps_no_timescale (full : bool) (items : list LexItem) :
  (forall data, Yield (TIMESCALE data) ∉ items) ->
  preserves (fun fr => no_timescale (world fr)) (parse_loop full items).
Proof.
  induction items as [|[tok|e] items IH]; intros Hnt; simpl.
  - apply preserves_ret.
  - apply preserves_bind.
    + apply parse_token_keeps_no_timescale. intros data ->. apply (Hnt data). left.
    + intros _. apply IH. intros data Hin. apply (Hnt data). now right.
  - apply preserves_raise.
Qed.

(** X10: a time change that comes before any [$timescale] ends the run with
    an [AttributeError]: the branch reads the unit of the time scale for its
    log message. *)
Theorem time_change_needs_timescale (pre rest : list LexItem) (t : Z) :
  (forall data, Yield (TIMESCALE data) ∉ pre) ->
  (exists doc, parse pre = Document doc) ->
  parse (pre ++ Yield (CHANGE_TIME t) :: rest)
  = Escapes (AttributeError "'NoneType' object has no attribute 'base_unit'").
Proof.
  intros Hnt Hdoc. destruct (prefix_document pre Hdoc) as [fr Hpre].
  assert (no_timescale (world fr)) as Hts.
  { pose proof (parse_loop_keeps_no_timescale false pre Hnt new_Frame) as Hinv.
    rewrite Hpre in Hinv. apply Hinv. reflexivity. }
  eapply parse_after_prefix; [exact Hpre | | intros msg; discriminate].
  unfold parse_token, timescale_base_unit, bind, set_timestamp, modify, get. cbn [fst snd world].
  unfold no_timescale in Hts. rewrite Hts. reflexivity.
Qed.

Lemma time_change_needs_timescale_witness :
  parse ([Yield (SCOPE "tb"); Yield (VAR clk_decl)] ++ Yield (CHANGE_TIME 0) :: [])
  = Escapes (AttributeError "'NoneType' object has no attribute 'base_unit'").
Proof.
  apply (time_change_needs_timescale [Yield (SCOPE "tb"); Yield (VAR clk_decl)] [] 0).
  - intros data Hin. repeat (apply elem_of_cons in Hin as [Hin | Hin]; [discriminate|]).
    now apply elem_of_nil in Hin.
  - eexists. vm_compute. reflexivity.
Defined.

(** ** A value change *)

Lemma change_token_value (full vector : bool) (ident : string) (value : Value) (v : Z)
    (fr : Frame) :
  carries value v ->
  parse_token full (if vector then CHANGE_VECTOR ident value else CHANGE_SCALAR ident value) fr
  = in_world (update_timing_assignment (_timestamp fr) ident (VInt v) full) fr.
Proof.
  intros Hval.
  assert (Htok : parse_token full (CHANGE_SCALAR ident value) fr
                 = parse_token full (if vector then CHANGE_VECTOR ident value
                                     else CHANGE_SCALAR ident value) fr)
    by (destruct vector; reflexivity).
  rewrite <- Htok. clear Htok. unfold parse_token.
  destruct Hval as [-> | (s & -> & Hx & Hz & Hint)].
  - reflexivity.
  - rewrite Hx, Hz. cbn [orb]. unfold bind, lift, ret, get. rewrite Hint. reflexivity.
Qed.

(** X11: a value change for a signal of the top module, with a value that
    fits the signal, is stored at the tick of the last time change: the
    signal's [data] and its timeline entry for that tick become the bits of
    the value, most significant first, and nothing else changes. *)
Theorem value_change_recorded (full vector : bool) (fr : Frame) (ident : string)
    (value : Value) (v : Z) (tm r : nat) (tmod : Module_) (reg : Register) :
  carries value v ->
  module (top (world fr)) = Some tm ->
  modules (world fr) !! tm = Some tmod ->
  dict_get (variables tmod) ident = Some r ->
  registers (world fr) !! r = Some reg ->
  (exists t, timescale_convert_to (timescale (top (world fr))) (_timestamp fr) "ns" = Ok t) ->
  0 <= v < 2 ^ width reg ->
  0 <= width reg ->
  exists bits,
    parse_token full (if vector then CHANGE_VECTOR ident value else CHANGE_SCALAR ident value) fr
    = (Ok tt,
       {| world :=
            {| registers :=
                 <[r := {| cls := cls reg; name := name reg; width := width reg; dim := dim reg;
                           data := bits;
                           timing_assignments :=
                             dict_set (timing_assignments reg) (_timestamp fr) bits;
                           export_pwl_safe := export_pwl_safe reg |}]> (registers (world fr));
               modules := modules (world fr);
               top := top (world fr) |};
          scope := scope fr; _timestamp := _timestamp fr |}) /\
    length bits = Z.to_nat (width reg) /\
    bits_value bits = v.
Proof.
  intros Hval Htm Htmod Hget Hreg [t Ht] [Hv0 Hv] Hw.
  assert (bit_length v <= width reg) as Hfit by now apply bit_length_le.
  destruct (update_ok reg (_timestamp fr) v Hfit) as (bits & Hbits & Hupd).
  exists bits. split; [|split].
  - rewrite (change_token_value full vector ident value v fr Hval), in_world_eq.
    assert (Huta : update_timing_assignment (_timestamp fr) ident (VInt v) full (world fr)
                   = with_reg r (update (_timestamp fr) v) (world fr)).
    { unfold update_timing_assignment, is_reg_top_module, top_variables.
      unfold dict_contains, bind, get, ret, lift.
      destruct full;
        repeat (progress (cbn -[timescale_convert_to update with_reg];
                          rewrite ?Htm, ?Htmod, ?Hget, ?Ht));
        reflexivity. }
    rewrite Huta. unfold with_reg. rewrite Hreg, Hupd. reflexivity.
  - now destruct (int2bit_array_shape reg v bits Hbits).
  - rewrite (int2bit_array_closed reg v Hfit) in Hbits. injection Hbits as <-.
    pose proof (bits_value_msb (Z.to_nat (width reg)) v) as Hmsb.
    rewrite Z2Nat.id in Hmsb by exact Hw. rewrite Hmsb. apply Z.mod_small. lia.
Qed.

Lemma value_change_recorded_witness :
  let fr := frame_after (Yield (TIMESCALE "1 ns") :: two_scope_head) in
  exists bits,
    parse_token false (CHANGE_SCALAR "!" (VStr "0")) fr
    = (Ok tt,
       {| world :=
            {| registers :=
                 <[0%nat := {| cls := ClsRegister; name := "CLK"; width := 1; dim := 0;
                               data := bits;
                               timing_assignments := [(0, [0]); (3, [1]); (4, bits)];
                               export_pwl_safe := true |}]> (registers (world fr));
               modules := modules (world fr);
               top := top (world fr) |};
          scope := scope fr; _timestamp := _timestamp fr |}) /\
    length bits = 1%nat /\
    bits_value bits = 0.
Proof.
  apply (value_change_recorded false false
           (frame_after (Yield (TIMESCALE "1 ns") :: two_scope_head)) "!" (VStr "0") 0
           0%nat 0%nat tb_module clk_before_x).
  - right. exists "0". repeat split.
  - reflexivity.
  - reflexivity.
  - reflexivity.
  - reflexivity.
  - exists (4 # 1)%Q. reflexivity.
  - split; [lia | reflexivity].
  - discriminate.
Defined.

Lemma change_token_ambiguous (full vector : bool) (ident : string) (value : Value) (fr : Frame) :
  ambiguous value ->
  parse_token full (if vector then CHANGE_VECTOR ident value else CHANGE_SCALAR ident value) fr
  = in_world (update_timing_assignment (_timestamp fr) ident value full) fr.
Proof.
  intros (s & -> & Hxz).
  assert (Htok : parse_token full (CHANGE_SCALAR ident (VStr s)) fr
                 = parse_token full (if vector then CHANGE_VECTOR ident (VStr s)
                                     else CHANGE_SCALAR ident (VStr s)) fr)
    by (destruct vector; reflexivity).
  rewrite <- Htok. clear Htok. unfold parse_token. rewrite Hxz. reflexivity.
Qed.

Lemma change_token_reaches (full vector : bool) (ident : string) (value : Value) (fr : Frame) :
  (exists v, carries value v) \/ ambiguous value ->
  exists value',
    parse_token full (if vector then CHANGE_VECTOR ident value else CHANGE_SCALAR ident value) fr
    = in_world (update_timing_assignment (_timestamp fr) ident value' full) fr.
Proof.
  intros [[v Hv] | Hamb].
  - exists (VInt v). now apply change_token_value.
  - exists value. now apply change_token_ambiguous.
Qed.

Lemma change_token_refused (full vector : bool) (ident s : string) (fr : Frame) :
  str_contains "x" s = false ->
  str_contains "z" s = false ->
  (forall v, py_int s <> Ok v) ->
  parse_token full (if vector then CHANGE_VECTOR ident (VStr s) else CHANGE_SCALAR ident (VStr s))
    fr
  = (Raise (ValueError ("invalid literal for int() with base 10: '" +:+ s +:+ "'")), fr).
Proof.
  intros Hx Hz Hint.
  assert (Htok : parse_token full (CHANGE_SCALAR ident (VStr s)) fr
                 = parse_token full (if vector then CHANGE_VECTOR ident (VStr s)
                                     else CHANGE_SCALAR ident (VStr s)) fr)
    by (destruct vector; reflexivity).
  rewrite <- Htok. clear Htok. unfold parse_token. rewrite Hx, Hz. cbn [orb].
  unfold bind, lift. unfold py_int in *.
  destruct (split_sign (str_strip s)) as [neg body].
  destruct (digit_group body false) as [ds|]; [|reflexivity].
  now destruct (Hint (if neg then - digits_value ds else digits_value ds)).
Qed.

(** X12: a value change for an identifier that the top scope does not
    declare (a signal of another scope, or no signal at all).  When its
    value is an integer, a text that [int()] reads, or a text with an [x] or
    a [z], the change is dropped in the default mode: the state stays as it
    is, and no time scale is asked for; in the full mode the same change,
    once the tick converts, ends the run with [SystemExit(-1)].  When its
    value is a text without [x] and [z] that [int()] refuses, the change
    raises the [ValueError] of [int()] in both modes, before any look-up,
    and leaves the state as it is. *)
Theorem foreign_identifier_dropped (vector : bool) (fr : Frame) (ident : string)
    (value : Value) (tm : nat) (tmod : Module_) :
  module (top (world fr)) = Some tm ->
  modules (world fr) !! tm = Some tmod ->
  dict_get (variables tmod) ident = None ->
  ((exists v, carries value v) \/ ambiguous value ->
   parse_token false (if vector then CHANGE_VECTOR ident value else CHANGE_SCALAR ident value) fr
   = (Ok tt, fr) /\
   ((exists t, timescale_convert_to (timescale (top (world fr))) (_timestamp fr) "ns" = Ok t) ->
    parse_token true (if vector then CHANGE_VECTOR ident value else CHANGE_SCALAR ident value) fr
    = (Raise (SystemExit (-1)), fr))) /\
  (forall s full,
     value = VStr s ->
     str_contains "x" s = false ->
     str_contains "z" s = false ->
     (forall v, py_int s <> Ok v) ->
     parse_token full (if vector then CHANGE_VECTOR ident value else CHANGE_SCALAR ident value) fr
     = (Raise (ValueError ("invalid literal for int() with base 10: '" +:+ s +:+ "'")), fr)).
Proof.
  intros Htm Htmod Hget. split.
  - intros Hval. split; [|intros [t Ht]].
    + destruct (change_token_reaches false vector ident value fr Hval) as [value' ->].
      rewrite in_world_eq.
      unfold update_timing_assignment, is_reg_top_module, top_variables.
      unfold dict_contains, bind, get, ret, lift.
      repeat (progress (cbn -[timescale_convert_to]; rewrite ?Htm, ?Htmod, ?Hget)).
      destruct fr; reflexivity.
    + destruct (change_token_reaches true vector ident value fr Hval) as [value' ->].
      rewrite in_world_eq.
      unfold update_timing_assignment, is_reg_top_module, top_variables.
      unfold dict_contains, bind, get, ret, lift.
      repeat (progress (cbn -[timescale_convert_to]; rewrite ?Htm, ?Htmod, ?Hget, ?Ht)).
      destruct fr; reflexivity.
  - intros s full -> Hx Hz Hint. now apply change_token_refused.
Qed.

Lemma foreign_identifier_dropped_witness :
  let fr := frame_after side_scope_trace in
  parse_token false (CHANGE_VECTOR "#" (VInt 7)) fr = (Ok tt, fr) /\
  parse_token true (CHANGE_VECTOR "#" (VInt 7)) fr = (Raise (SystemExit (-1)), fr) /\
  parse_token false (CHANGE_SCALAR "#" (VStr "x")) fr = (Ok tt, fr) /\
  parse_token false (CHANGE_SCALAR "#" (VStr "X")) fr
  = (Raise (ValueError "invalid literal for int() with base 10: 'X'"), fr).
Proof.
  intros fr.
  destruct (foreign_identifier_dropped true fr "#" (VInt 7) 0%nat tb_module)
    as [Hint _]; [reflexivity | reflexivity | reflexivity |].
  destruct Hint as [Hdrop Hexit]; [left; exists 7; now left|].
  destruct (foreign_identifier_dropped false fr "#" (VStr "x") 0%nat tb_module)
    as [Hamb _]; [reflexivity | reflexivity | reflexivity |].
  destruct Hamb as [Hdropx _]; [right; exists "x"; split; reflexivity|].
  destruct (foreign_identifier_dropped false fr "#" (VStr "X") 0%nat tb_module)
    as [_ Hrefused]; [reflexivity | reflexivity | reflexivity |].
  split; [exact Hdrop|]. split; [apply Hexit; exists (5 # 1)%Q; reflexivity|].
  split; [exact Hdropx|].
  apply (Hrefused "X" false); try reflexivity. intros v. vm_compute. discriminate.
Defined.

(** ** The names and the levels of the emitter *)

Lemma str_length_app (a b : string) :
  String.length (a +:+ b) = (String.length a + String.length b)%nat.
Proof. induction a as [|x a IH]; [reflexivity|]. rewrite str_app_cons. cbn. now rewrite IH. Qed.

Lemma str_app_inj_r (a b c : string) : a +:+ c = b +:+ c -> a = b.
Proof.
  revert b. induction a as [|x a IH]; intros [|y b] Heq.
  - reflexivity.
  - apply (f_equal String.length) in Heq. rewrite !str_length_app in Heq. cbn in Heq. lia.
  - apply (f_equal String.length) in Heq. rewrite !str_length_app in Heq. cbn in Heq. lia.
  - rewrite !str_app_cons in Heq. injection Heq as -> Heq. f_equal. now apply IH.
Qed.

(** X13: the bits of a bus have pairwise different names: the blocks of a
    signal of more than one bit are named [name[width-1]] down to [name[0]],
    so that no two voltage sources of one signal share a name. *)
Theorem pwl_name_injective (self : Register) (m m' : nat) :
  1 < width self ->
  m <> m' ->
  pwl_name self m <> pwl_name self m'.
Proof.
  intros Hw Hne. unfold pwl_name. destruct (Z.ltb_spec 1 (width self)) as [_|]; [|lia].
  intros Heq. apply String.app_inj in Heq. apply String.app_inj in Heq.
  apply str_app_inj_r in Heq. apply pretty_Z_inj in Heq. lia.
Qed.

Lemma pwl_name_injective_witness : pwl_name data2_fresh 0 <> pwl_name data2_fresh 1.
Proof. apply (pwl_name_injective data2_fresh 0 1); [reflexivity | discriminate]. Defined.

Section ConstantSignal.
Context `{Sympy SymExpr}.
Variable self : Register.
Variable timescale : option TimeScale.
Variable expr : gmap string Z.

Lemma pwl_walk_same_level (m : nat) (x : Z) (line : string) (items : list (Z * list Z)) :
  Forall (fun item : Z * list Z =>
            exists b, item.2 !! m = Some b /\ level_of b = level_of x) items ->
  rfold (pwl_step self timescale expr m) (level_of x, line) items = Ok (level_of x, line).
Proof.
  induction 1 as [|[t bits] items (b & Hb & Hlv) _ IH]; [reflexivity|].
  cbn [rfold]. cbn [snd] in Hb. rewrite <- Hlv at 1.
  rewrite (pwl_step_same_level self timescale expr m line t bits b Hb). cbn [rbind].
  rewrite Hlv. exact IH.
Qed.
End ConstantSignal.

(** X14: a bit that keeps one level over the whole timeline is exported as
    the initial value alone, however many ticks the timeline has; neither
    the time scale nor sympy is asked, so this block is written even for a
    document without a time scale. *)
Theorem constant_bit_block `{Sympy SymExpr} (self : Register) (timescale : option TimeScale)
    (expr : gmap string Z) (m : nat) (x : Z) :
  timing_assignments self <> [] ->
  Forall (fun item : Z * list Z =>
            exists b, item.2 !! m = Some b /\ level_of b = level_of x)
         (timing_assignments self) ->
  pwl_block self timescale expr m
  = Ok (pwl_header (pwl_name self m) +:+ "0 " +:+ level_of x +:+ nl +:+ "+" +:+ ")" +:+ nl +:+ nl).
Proof.
  intros Hne Hall. unfold pwl_block, pwl_walk.
  destruct (timing_assignments self) as [|[t bits] items]; [now destruct Hne|].
  apply Forall_cons in Hall as [(b & Hb & Hlv) Hrest]. cbn [snd] in Hb.
  cbn [rfold]. unfold pwl_step at 1. unfold index_bit. rewrite Hb. cbn [rbind].
  rewrite bool_decide_eq_true_2 by reflexivity. cbn [rbind]. rewrite Hlv.
  rewrite (pwl_walk_same_level self timescale expr m x _ items Hrest). cbn [rbind].
  now rewrite !str_app_assoc.
Qed.

Lemma constant_bit_block_witness :
  pwl_block (H := sympy_standin)
    {| cls := ClsRegister; name := "EN"; width := 1; dim := 0; data := [1];
       timing_assignments := [(0, [1]); (7, [1])]; export_pwl_safe := true |}
    None ∅ 0
  = Ok ("VEN EN 0 pwl(" +:+ "0 " +:+ "vvdd" +:+ nl +:+ "+" +:+ ")" +:+ nl +:+ nl).
Proof.
  apply (constant_bit_block (H := sympy_standin)
           {| cls := ClsRegister; name := "EN"; width := 1; dim := 0; data := [1];
              timing_assignments := [(0, [1]); (7, [1])]; export_pwl_safe := true |}
           None ∅ 0 1).
  - discriminate.
  - repeat (apply List.Forall_cons; [exists 1; split; reflexivity|]). apply List.Forall_nil.
Defined.

(** ** The multiplier of the expression resolver *)

Lemma str_mul_not_positive (s : string) (b : Z) : b <= 0 -> str_mul s b = "".
Proof. intros Hb. unfold str_mul. replace (Z.to_nat b) with 0%nat by lia. reflexivity. Qed.

Lemma eval_arg_not_positive (b : Z) (unit arg : string) :
  b <= 0 -> is_numeric arg ->
  eval_arg (Some b) unit arg = Raise (ValueError "could not convert string to float").
Proof.
  intros Hb Hnum. unfold eval_arg. destruct (py_float arg) eqn:Hf; [| |now destruct Hnum];
    cbn [int_of_base rbind]; now rewrite (str_mul_not_positive arg b Hb).
Qed.

Lemma rmap_first_raise {A B} (f : A -> result B) (e : exn) (l : list A) :
  (forall a, a ∈ l -> f a = Raise e \/ exists b, f a = Ok b) ->
  Exists (fun a => f a = Raise e) l ->
  rmap f l = Raise e.
Proof.
  intros Hall Hex. induction Hex as [a l Ha | a l _ IH]; cbn [rmap].
  - now rewrite Ha.
  - destruct (Hall a) as [-> | [b ->]]; [left | reflexivity |]. cbn [rbind].
    rewrite IH; [reflexivity|]. intros a' Hin. apply Hall. now right.
Qed.

Lemma rmap_all_ok {A} (f : A -> result A) (l : list A) :
  (forall a, a ∈ l -> f a = Ok a) -> rmap f l = Ok l.
Proof.
  induction l as [|a l IH]; intros Hall; cbn [rmap]; [reflexivity|].
  rewrite (Hall a) by left. cbn [rbind]. rewrite IH; [reflexivity|].
  intros a' Hin. apply Hall. now right.
Qed.

(** X15: with a unit, an expression that prints without a numeric token is
    returned as its tokens joined by single spaces whatever the multiplier,
    even a missing one; one numeric token is enough to make a missing
    multiplier a [TypeError] and a multiplier of zero or less a
    [ValueError], since the token text repeated zero times is empty. *)
Theorem eval_expr_multiplier `{Sympy SymExpr} (e : PyArg) (result : SymExpr)
    (base : option Z) (unit : string) :
  sympify e = Some result ->
  unit <> "" ->
  (Forall (fun arg => ~ is_numeric arg) (str_split (sym_str result)) ->
   eval_expr e base (Some unit) = Ok (Formatted (str_join " " (str_split (sym_str result))))) /\
  (Exists is_numeric (str_split (sym_str result)) ->
   (base = None ->
    eval_expr e base (Some unit)
    = Raise (TypeError
        "int() argument must be a string, a bytes-like object or a real number, not 'NoneType'")) /\
   (forall b, base = Some b -> b <= 0 ->
    eval_expr e base (Some unit) = Raise (ValueError "could not convert string to float"))).
Proof.
  intros Hsym Hunit. unfold eval_expr. rewrite Hsym.
  destruct unit as [|c u]; [now destruct Hunit|]. split; [|intros Hex; split].
  - intros Hall. rewrite rmap_all_ok; [reflexivity|].
    intros arg Hin. rewrite Forall_forall in Hall. specialize (Hall arg Hin).
    unfold eval_arg, is_numeric in *. destruct (py_float arg); try reflexivity;
      exfalso; apply Hall; discriminate.
  - intros ->.
    rewrite (rmap_first_raise _ (TypeError
      "int() argument must be a string, a bytes-like object or a real number, not 'NoneType'"));
      [reflexivity| |].
    + intros arg _. unfold eval_arg. destruct (py_float arg); cbn; eauto.
    + eapply Exists_impl; [exact Hex|]. intros arg Hnum. unfold eval_arg, is_numeric in *.
      destruct (py_float arg); [reflexivity | reflexivity | now destruct Hnum].
  - intros b -> Hb. rewrite (rmap_first_raise _ (ValueError "could not convert string to float"));
      [reflexivity| |].
    + intros arg _. destruct (py_float arg) eqn:Hf.
      * left. apply eval_arg_not_positive; [exact Hb|]. unfold is_numeric. now rewrite Hf.
      * left. apply eval_arg_not_positive; [exact Hb|]. unfold is_numeric. now rewrite Hf.
      * right. exists arg. unfold eval_arg. now rewrite Hf.
    + eapply Exists_impl; [exact Hex|]. intros arg Hnum.
      now apply eval_arg_not_positive.
Qed.

Lemma eval_expr_multiplier_witness :
  eval_expr (H := sympy_standin) (ArgStr "5.250 + trf") (Some 0) (Some "ns")
  = Raise (ValueError "could not convert string to float").
Proof.
  destruct (eval_expr_multiplier (H := sympy_standin) (ArgStr "5.250 + trf") "trf + 5.25"
              (Some 0) "ns") as [_ Hnum]; [reflexivity | discriminate |].
  destruct Hnum as [_ Hval].
  - do 2 apply Exists_cons_tl. apply Exists_cons_hd. unfold is_numeric. vm_compute. discriminate.
  - apply (Hval 0 eq_refl). lia.
Defined.

(** ** The top module of a Verilog file ([helper.safe_get_module_top]) *)

Lemma module_match_word (line w : string) : module_match line = Some w -> w <> "".
Proof.
  unfold module_match. destruct (strip_prefix "module " line) as [rest|]; [|discriminate].
  destruct (take_word rest); [discriminate|]. intros [= <-]. discriminate.
Qed.

Lemma module_top_fold (acc : option string) (lines : list string) :
  Forall (fun line => module_match line = None) lines ->
  foldl (fun module_top line =>
           match module_match line with
           | Some w => Some w
           | None => module_top
           end) acc lines = acc.
Proof.
  induction 1 as [|line lines Hline _ IH]; [reflexivity|]. cbn [foldl]. now rewrite Hline.
Qed.

Lemma module_top_fold_some (w : string) (lines : list string) :
  w <> "" ->
  exists w',
    foldl (fun module_top line =>
             match module_match line with
             | Some w => Some w
             | None => module_top
             end) (Some w) lines = Some w' /\ w' <> "".
Proof.
  revert w. induction lines as [|x l IH]; intros w Hw; [now exists w|].
  cbn [foldl]. destruct (module_match x) as [wx|] eqn:Hx; [|now apply IH].
  apply IH. now apply (module_match_word x).
Qed.

Lemma take_word_app (w rest : string) :
  Forall (fun c => is_word c = true) (String.list_ascii_of_string w) ->
  take_word rest = "" ->
  take_word (w +:+ rest) = w.
Proof.
  intros Hw Hrest. induction w as [|c w IH]; [exact Hrest|].
  cbn [String.list_ascii_of_string] in Hw. apply Forall_cons in Hw as [Hc Hw].
  rewrite str_app_cons. cbn [take_word]. rewrite Hc. now rewrite IH.
Qed.

(** X16: the name that [safe_get_module_top] returns is the word after
    [module ] on the last line that starts with [module ] and a word
    character, whatever the lines before it declare; with no such line, and
    only then, it ends in [SystemExit(-1)].  The lines are ASCII text. *)
Theorem safe_get_module_top_last (lines : list string) :
  Forall (fun line => isascii line = true) lines ->
  (forall before w rest after,
     lines = before ++ ("module " +:+ w +:+ rest) :: after ->
     w <> "" ->
     Forall (fun c => is_word c = true) (String.list_ascii_of_string w) ->
     take_word rest = "" ->
     Forall (fun line => module_match line = None) after ->
     safe_get_module_top lines = Ok w) /\
  (safe_get_module_top lines = Raise (SystemExit (-1)) <->
   Forall (fun line => module_match line = None) lines).
Proof.
  intros _. split.
  - intros before w rest after -> Hne Hw Hrest Hafter.
    unfold safe_get_module_top. rewrite foldl_app. cbn [foldl].
    assert (module_match ("module " +:+ w +:+ rest) = Some w) as ->.
    { unfold module_match. change (strip_prefix "module " ("module " +:+ w +:+ rest))
        with (Some (w +:+ rest)). cbn match. rewrite (take_word_app w rest Hw Hrest).
      destruct w; [now destruct Hne | reflexivity]. }
    rewrite (module_top_fold _ after Hafter). destruct w; [now destruct Hne | reflexivity].
  - unfold safe_get_module_top. split.
    + intros Hexit. apply Forall_forall. intros line Hin.
      apply list_elem_of_split in Hin as (l1 & l2 & ->).
      destruct (module_match line) as [w|] eqn:Hline; [exfalso | reflexivity].
      revert Hexit. rewrite foldl_app. cbn [foldl]. rewrite Hline.
      destruct (module_top_fold_some w l2 (module_match_word line w Hline)) as (w' & -> & Hw').
      destruct w'; [now destruct Hw' | discriminate].
    + intros Hnone. now rewrite (module_top_fold None lines Hnone).
Qed.

Lemma safe_get_module_top_last_witness :
  safe_get_module_top ["module a;"; "  input x;"; "module top (clk);"; "endmodule"] = Ok "top".
Proof.
  destruct (safe_get_module_top_last
              ["module a;"; "  input x;"; "module top (clk);"; "endmodule"]) as [Hlast _].
  - repeat (apply List.Forall_cons; [reflexivity|]). apply List.Forall_nil.
  - apply (Hlast ["module a;"; "  input x;"] "top" " (clk);" ["endmodule"]).
    + reflexivity.
    + discriminate.
    + repeat (apply List.Forall_cons; [reflexivity|]). apply List.Forall_nil.
    + reflexivity.
    + repeat (apply List.Forall_cons; [reflexivity|]). apply List.Forall_nil.
Defined.

(** ** The conversion of a tick *)

Lemma py_round_exact (x : Q) :
  (Zpos (Qden x) | Qnum x * 1000) -> (py_round x 3 == x)%Q.
Proof.
  intros [c Hc]. unfold py_round. change (10 ^ Z.of_nat 3) with 1000.
  rewrite Qred_correct. unfold round_half_even.
  change (Qnum (x * inject_Z 1000)) with (Qnum x * 1000).
  change (Zpos (Qden (x * inject_Z 1000))) with (Zpos (Qden x * 1)).
  rewrite Pos.mul_1_r, Hc, Z.mod_mul, Z.div_mul by lia.
  change (2 * 0) with 0. change (0 ?= Zpos (Qden x)) with Lt.
  unfold Qeq. cbn [Qnum Qden Z.to_pos]. lia.
Qed.

Lemma unit_conversion_cases (u : string) (b : Q) :
  _unit_conversion !! u = Some b ->
  b = inject_Z (10 ^ 3) \/ b = inject_Z (10 ^ 6) \/ b = inject_Z (10 ^ 9) \/
  b = inject_Z (10 ^ 12).
Proof.
  unfold _unit_conversion. intros Hb.
  repeat (apply lookup_insert_Some in Hb as [[_ <-] | [_ Hb]]; [tauto|]).
  now rewrite lookup_empty in Hb.
Qed.

(** X17: the conversion to nanoseconds, the only one the code asks for,
    loses nothing to its rounding to three decimals: for each unit of the
    table, and for a tick and a result of fewer than 16 digits (where the
    floats of the code print as the decimals they are taken for), the result
    is the tick scaled by the ratio of the units, and by nothing else:
    [base_num] takes no part. *)
Theorem convert_to_ns_exact (self : TimeScale) (timestamp : Z) (b : Q) :
  _unit_conversion !! base_unit self = Some b ->
  0 <= timestamp < 10 ^ 15 ->
  (inject_Z timestamp * (inject_Z (10 ^ 9) / b) < inject_Z (10 ^ 15))%Q ->
  exists x,
    convert_to self timestamp "ns" = Ok x /\
    (x == inject_Z timestamp * (inject_Z (10 ^ 9) / b))%Q.
Proof.
  intros Hb _ _. unfold convert_to.
  change (_unit_conversion !! "ns") with (Some (inject_Z (10 ^ 9))). rewrite Hb.
  eexists. split; [reflexivity|]. apply py_round_exact.
  destruct (unit_conversion_cases _ b Hb) as [-> | [-> | [-> | ->]]];
    match goal with
    | |- context [(?a / ?c)%Q] => set (q := (a / c)%Q); vm_compute in q; subst q
    end; cbn [Qnum Qden Qmult inject_Z].
  - exists (timestamp * 10 ^ 9). lia.
  - exists (timestamp * 10 ^ 6). lia.
  - exists (timestamp * 10 ^ 3). lia.
  - exists timestamp. lia.
Qed.

Lemma convert_to_ns_exact_witness :
  exists x,
    convert_to {| base_num := 1; base_unit := "ps" |} 2500 "ns" = Ok x /\
    (x == inject_Z 2500 * (inject_Z (10 ^ 9) / inject_Z (10 ^ 12)))%Q.
Proof.
  apply (convert_to_ns_exact {| base_num := 1; base_unit := "ps" |} 2500 (inject_Z (10 ^ 12))).
  - reflexivity.
  - lia.
  - reflexivity.
Defined.

(** ** The current tick *)

Lemma in_world_keeps_timestamp {A} (t : Z) (m : M World A) :
  preserves (fun fr => _timestamp fr = t) (in_world m).
Proof. intros fr Hfr. rewrite in_world_eq. exact Hfr. Qed.

Lemma parse_token_keeps_timestamp (full : bool) (_toc : Token) (t : Z) :
  (forall data, _toc <> CHANGE_TIME data) ->
  preserves (fun fr => _timestamp fr = t) (parse_token full _toc).
Proof.
  intros Hnt.
  destruct _toc; try (exfalso; eapply Hnt; reflexivity); unfold parse_token, declare;
    repeat first
      [ progress eauto with keeps
      | apply in_world_keeps_timestamp
      | apply preserves_bind; [|intros ?]
      | match goal with
        | |- preserves _ (match ?x with _ => _ end) => destruct x
        | |- preserves _ (set_scope _) => intros fr Hfr; exact Hfr
        end ].
Qed.

Lemma parse_loop_keeps_timestamp (full : bool) (items : list LexItem) (t : Z) :
  (forall data, Yield (CHANGE_TIME data) ∉ items) ->
  preserves (fun fr => _timestamp fr = t) (parse_loop full items).
Proof.
  induction items as [|[tok|e] items IH]; intros Hnt; simpl.
  - apply preserves_ret.
  - apply preserves_bind.
    + apply parse_token_keeps_timestamp. intros data ->. apply (Hnt data). left.
    + intros _. apply IH. intros data Hin. apply (Hnt data). now right.
  - apply preserves_raise.
Qed.

Lemma change_time_sets_tick (full : bool) (t : Z) (fr : Frame) :
  _timestamp (snd (parse_token full (CHANGE_TIME t) fr)) = t.
Proof.
  unfold parse_token, timescale_base_unit, bind, set_timestamp, modify, get. cbn.
  destruct (timescale (top (world fr))); reflexivity.
Qed.

(** X18: the tick under which value changes are stored is the one of the
    last time change that was read, also when the run is interrupted later
    or by the time change itself; before the first time change it is 0. *)
Theorem current_tick (full : bool) (pre rest : list LexItem) (t : Z) :
  (forall data, Yield (CHANGE_TIME data) ∉ rest) ->
  (fst (parse_loop full pre new_Frame) = Ok tt ->
   _timestamp (snd (parse_loop full (pre ++ Yield (CHANGE_TIME t) :: rest) new_Frame)) = t) /\
  _timestamp (snd (parse_loop full rest new_Frame)) = 0.
Proof.
  intros Hnt. split.
  - intros Hpre. rewrite parse_loop_app.
    destruct (parse_loop full pre new_Frame) as [[[]|e] fr]; [|discriminate].
    cbn [parse_loop]. unfold bind.
    pose proof (change_time_sets_tick full t fr) as Htick.
    destruct (parse_token full (CHANGE_TIME t) fr) as [[u|e] fr1]; cbn [snd] in *.
    + now apply (parse_loop_keeps_timestamp full rest t Hnt fr1).
    + exact Htick.
  - now apply (parse_loop_keeps_timestamp full rest 0 Hnt new_Frame).
Qed.

Lemma current_tick_witness :
  _timestamp (snd (parse_loop false
                     ([Yield (TIMESCALE "1 ns")] ++ Yield (CHANGE_TIME 7) :: [Yield UPSCOPE])
                     new_Frame)) = 7.
Proof.
  destruct (current_tick false [Yield (TIMESCALE "1 ns")] [Yield UPSCOPE] 7) as [Htick _].
  - intros data Hin. apply list_elem_of_singleton in Hin. discriminate.
  - apply Htick. reflexivity.
Defined.

(** ** What a value change needs *)

Lemma update_timing_assignment_convert_fails (timestamp : Z) (ident : string) (value : Value)
    (full : bool) (w : World) (tm r : nat) (tmod : Module_) (e : exn) :
  module (top w) = Some tm ->
  modules w !! tm = Some tmod ->
  dict_get (variables tmod) ident = Some r ->
  timescale_convert_to (timescale (top w)) timestamp "ns" = Raise e ->
  update_timing_assignment timestamp ident value full w = (Raise e, w).
Proof.
  intros Htm Htmod Hget Ht.
  unfold update_timing_assignment, is_reg_top_module, top_variables.
  unfold dict_contains, bind, get, ret, lift.
  destruct full;
    repeat (progress (cbn -[timescale_convert_to]; rewrite ?Htm, ?Htmod, ?Hget, ?Ht));
    reflexivity.
Qed.

(** X19: the unit of a [$timescale] is checked only when a value change
    reaches a signal of the top module: without a time scale the change
    raises an [AttributeError], with a unit that is not in the table a
    [TypeError]; in both cases the state is left as it was, and an [x] or
    [z] value does not get to clear the signal's flag. *)
Theorem value_change_needs_timescale (full vector : bool) (fr : Frame) (ident : string)
    (value : Value) (tm r : nat) (tmod : Module_) :
  (exists v, carries value v) \/ ambiguous value ->
  module (top (world fr)) = Some tm ->
  modules (world fr) !! tm = Some tmod ->
  dict_get (variables tmod) ident = Some r ->
  (timescale (top (world fr)) = None ->
   parse_token full (if vector then CHANGE_VECTOR ident value else CHANGE_SCALAR ident value) fr
   = (Raise (AttributeError "'NoneType' object has no attribute 'convert_to'"), fr)) /\
  (forall ts, timescale (top (world fr)) = Some ts ->
              _unit_conversion !! base_unit ts = None ->
   parse_token full (if vector then CHANGE_VECTOR ident value else CHANGE_SCALAR ident value) fr
   = (Raise (TypeError "unsupported operand type(s) for /"), fr)).
Proof.
  intros Hval Htm Htmod Hget.
  destruct (change_token_reaches full vector ident value fr Hval) as [value' ->].
  rewrite in_world_eq. split.
  - intros Hts.
    rewrite (update_timing_assignment_convert_fails _ ident value' full _ tm r tmod
               (AttributeError "'NoneType' object has no attribute 'convert_to'") Htm Htmod Hget)
      by now rewrite Hts.
    destruct fr; reflexivity.
  - intros ts Hts Hunit.
    rewrite (update_timing_assignment_convert_fails _ ident value' full _ tm r tmod
               (TypeError "unsupported operand type(s) for /") Htm Htmod Hget).
    + destruct fr; reflexivity.
    + rewrite Hts. unfold timescale_convert_to, convert_to. rewrite Hunit.
      now destruct (_unit_conversion !! "ns").
Qed.

Lemma value_change_needs_timescale_witness :
  let fr := frame_after [Yield (TIMESCALE "1 fs"); Yield (SCOPE "tb"); Yield (VAR clk_decl)] in
  parse_token false (CHANGE_SCALAR "!" (VStr "x")) fr
  = (Raise (TypeError "unsupported operand type(s) for /"), fr).
Proof.
  intros fr.
  destruct (value_change_needs_timescale false false fr "!" (VStr "x") 0%nat 0%nat
              {| mname := "tb"; variables := [("!", 0%nat)] |}) as [_ Hunit].
  - right. exists "x". split; reflexivity.
  - reflexivity.
  - reflexivity.
  - reflexivity.
  - apply (Hunit {| base_num := 1; base_unit := "fs" |}); reflexivity.
Defined.

(** X20: a value change that comes before any scope is opened ends the run
    with an exception that [parse] does not catch.  When its value is an
    integer, a text that [int()] reads, or a text with an [x] or a [z], it
    is the [AttributeError] of the look-up: the document has no top module
    whose variables could be looked up.  When its value is a text without
    [x] and [z] that [int()] refuses, it is the [ValueError] of [int()],
    which comes before the look-up. *)
Theorem value_change_needs_scope (vector : bool) (pre rest : list LexItem) (ident : string)
    (value : Value) :
  (forall ident', Yield (SCOPE ident') ∉ pre) ->
  (exists doc, parse pre = Document doc) ->
  ((exists v, carries value v) \/ ambiguous value ->
   parse (pre ++ Yield (if vector then CHANGE_VECTOR ident value else CHANGE_SCALAR ident value)
              :: rest)
   = Escapes (AttributeError "'NoneType' object has no attribute 'variables'")) /\
  (forall s,
     value = VStr s ->
     str_contains "x" s = false ->
     str_contains "z" s = false ->
     (forall v, py_int s <> Ok v) ->
     parse (pre ++ Yield (if vector then CHANGE_VECTOR ident value else CHANGE_SCALAR ident value)
                :: rest)
     = Escapes (ValueError ("invalid literal for int() with base 10: '" +:+ s +:+ "'"))).
Proof.
  intros Hns Hdoc. destruct (prefix_document pre Hdoc) as [fr Hpre]. split.
  - intros Hval.
    assert (no_module (world fr)) as (Hm & _ & _).
    { pose proof (parse_loop_no_module false pre Hns new_Frame) as Hinv.
      rewrite Hpre in Hinv. apply Hinv. repeat split. }
    eapply parse_after_prefix; [exact Hpre | | intros msg; discriminate].
    destruct (change_token_reaches false vector ident value fr Hval) as [value' ->].
    rewrite in_world_eq. cbn [fst].
    unfold update_timing_assignment, is_reg_top_module, top_variables, bind, get.
    cbn [fst snd]. rewrite Hm. reflexivity.
  - intros s -> Hx Hz Hint.
    eapply parse_after_prefix; [exact Hpre | | intros msg; discriminate].
    now rewrite (change_token_refused false vector ident s fr Hx Hz Hint).
Qed.

Lemma value_change_needs_scope_witness :
  parse ([Yield (TIMESCALE "1 ns"); Yield (CHANGE_TIME 0)]
         ++ Yield (CHANGE_SCALAR "!" (VStr "1")) :: [Yield (SCOPE "tb")])
  = Escapes (AttributeError "'NoneType' object has no attribute 'variables'")
  /\ parse ([Yield (TIMESCALE "1 ns"); Yield (CHANGE_TIME 0)]
            ++ Yield (CHANGE_SCALAR "!" (VStr "X")) :: [Yield (SCOPE "tb")])
     = Escapes (ValueError "invalid literal for int() with base 10: 'X'").
Proof.
  assert (Hns : forall ident', Yield (SCOPE ident') ∉ [Yield (TIMESCALE "1 ns"); Yield (CHANGE_TIME 0)]).
  { intros ident' Hin. repeat (apply elem_of_cons in Hin as [Hin | Hin]; [discriminate|]).
    now apply elem_of_nil in Hin. }
  assert (Hdoc : exists doc, parse [Yield (TIMESCALE "1 ns"); Yield (CHANGE_TIME 0)] = Document doc)
    by (eexists; vm_compute; reflexivity).
  split.
  - apply (proj1 (value_change_needs_scope false [Yield (TIMESCALE "1 ns"); Yield (CHANGE_TIME 0)]
                    [Yield (SCOPE "tb")] "!" (VStr "1") Hns Hdoc)).
    left. exists 1. right. exists "1". repeat split.
  - apply (proj2 (value_change_needs_scope false [Yield (TIMESCALE "1 ns"); Yield (CHANGE_TIME 0)]
                    [Yield (SCOPE "tb")] "!" (VStr "X") Hns Hdoc) "X"); try reflexivity.
    intros v. vm_compute. discriminate.
Defined.
